(** * RADStrat: scoring engine, transcript aggregation and connection pool

    A shallow embedding of the parts of the radio-telephony trainer that the
    specification makes claims about:

    - [JsNumber], [Overall], [Fluency]: the numeric scoring stages
      (scoring/overall.ts, scoring/fluency.ts) over IEEE binary64 numbers
      and integers;
    - [JsString], [JsRegExp], [RadioNormalize]: transcript normalization
      (scoring/radioNormalize.ts), with the regular expressions of the
      source run by a backtracking matcher that follows ECMAScript;
    - [ConnectionPool]: state/connectionPoolStore.ts;
    - [SessionStore], [DualSTT]: state/sessionStore.ts and the timeout
      callbacks of hooks/useDualSTT.ts;
    - [ElevenLabs]: the event handlers of providers/elevenlabsRealtime.ts;
    - [OpenAIChatScoring]: services/openaiChatScoring.ts;
    - [SessionActions], [OpenEnded]: the actions of the session store as
      one step function, and its open-ended scoring action;
    - [ChatProxy]: the server's handler of POST /api/openai/chat;
    - [App]: the effect of App.tsx that starts the AI scoring.

    The model comes first, the theorems about it follow. *)

From Stdlib Require Import ZArith List Lia Bool Arith.
From Stdlib Require Import Strings.String Strings.Ascii.
From Stdlib Require Import Uint63 PrimFloat FloatOps SpecFloat FloatAxioms.
Import ListNotations.

Set Warnings "-inexact-float".

(* ====================================================================== *)
(** * Part I: the model *)
(* ====================================================================== *)

(** ** JavaScript numbers

    A JS [number] is an IEEE 754 binary64 value: Rocq's primitive [float].
    [*] and [+] are the kernel's correctly rounded operations. *)

Module JsNumber.

Open Scope Z_scope.

(** An integer as a number; exact for [|z| < 2^53]. *)
Definition of_Z (z : Z) : float :=
  if z <? 0 then PrimFloat.opp (PrimFloat.of_uint63 (Uint63.of_Z (- z)))
  else PrimFloat.of_uint63 (Uint63.of_Z z).

(** [Math.max]: NaN if an argument is NaN; [+0] is larger than [-0]. *)
Definition Math_max (a b : float) : float :=
  if PrimFloat.is_nan a || PrimFloat.is_nan b then PrimFloat.nan
  else if PrimFloat.ltb a b then b
  else if PrimFloat.ltb b a then a
  else if PrimFloat.get_sign a then b else a.

(** [Math.min]: NaN if an argument is NaN; [-0] is smaller than [+0]. *)
Definition Math_min (a b : float) : float :=
  if PrimFloat.is_nan a || PrimFloat.is_nan b then PrimFloat.nan
  else if PrimFloat.ltb a b then a
  else if PrimFloat.ltb b a then b
  else if PrimFloat.get_sign a then a else b.

(** [Math.round]: the integer closest to [x], ties towards [+infinity];
    NaN, infinities and zeros are returned unchanged, and a negative [x]
    that rounds to zero gives [-0].  The value [m * 2^e] of a finite
    number is decoded exactly, so no rounding error enters here. *)
Definition Math_round (x : float) : float :=
  match Prim2SF x with
  | S754_finite sg m e =>
      if 0 <=? e then x
      else
        let mz := if sg then Z.neg m else Z.pos m in
        let n := Z.shiftr (mz + Z.shiftl 1 (- e - 1)) (- e) in
        if (n =? 0) && sg then PrimFloat.neg_zero else of_Z n
  | _ => x
  end.

(** [a === b] on numbers. *)
Definition strict_eq (a b : float) : bool := PrimFloat.eqb a b.

End JsNumber.

(** ** JavaScript strings

    A string is the list of its code units.  The model covers code units
    [0..255] (ASCII and Latin-1), one Rocq [ascii] each; on these
    [toLowerCase], [trim] and the regular-expression classes below are as
    ECMAScript defines them. *)

Module JsString.

Definition str := list ascii.

Definition L (s : string) : str := list_ascii_of_string s.

Definition code (c : ascii) : nat := nat_of_ascii c.

Definition in_range (lo hi : nat) (c : ascii) : bool :=
  (lo <=? code c) && (code c <=? hi).

(** [\d] *)
Definition is_digit (c : ascii) : bool := in_range 48 57 c.

(** [\w]: [A-Za-z0-9_] *)
Definition is_word (c : ascii) : bool :=
  in_range 97 122 c || in_range 65 90 c || is_digit c || (code c =? 95).

(** [\s], and the characters [trim] strips: TAB, LF, VT, FF, CR, space and
    the no-break space. *)
Definition is_space (c : ascii) : bool :=
  in_range 9 13 c || (code c =? 32) || (code c =? 160).

(** One code unit of [toLowerCase]: [A-Z], and the Latin-1 capitals
    (U+00C0..U+00DE except the multiplication sign U+00D7). *)
Definition lower_char (c : ascii) : ascii :=
  if in_range 65 90 c || (in_range 192 222 c && negb (code c =? 215))
  then ascii_of_nat (code c + 32) else c.

Definition toLowerCase (s : str) : str := map lower_char s.

(** [Canonicalize] of a regular expression with the [i] flag and without
    the [u] flag: the upper-case code unit, where it is a single code unit
    of the same block. *)
Definition canonicalize (c : ascii) : ascii :=
  if in_range 97 122 c || (in_range 224 254 c && negb (code c =? 247))
  then ascii_of_nat (code c - 32) else c.

Fixpoint trimStart (s : str) : str :=
  match s with
  | c :: tl => if is_space c then trimStart tl else s
  | [] => []
  end.

Definition trimEnd (s : str) : str := rev (trimStart (rev s)).

Definition trim (s : str) : str := trimEnd (trimStart s).

(** [s.split(' ')[0]] *)
Fixpoint split_first (sep : ascii) (s : str) : str :=
  match s with
  | c :: tl => if Ascii.eqb c sep then [] else c :: split_first sep tl
  | [] => []
  end.

(** [a.join(' ')] *)
Fixpoint join (sep : str) (parts : list str) : str :=
  match parts with
  | [] => []
  | [p] => p
  | p :: rest => p ++ sep ++ join sep rest
  end.

(** [table[key]] on an object literal with string keys. *)
Fixpoint lookup (table : list (str * str)) (key : str) : option str :=
  match table with
  | (k, v) :: rest =>
      if list_eq_dec ascii_dec k key then Some v else lookup rest key
  | [] => None
  end.

(** [a || b] where [a] is a string or [undefined]. *)
Definition or_else (a : option str) (b : str) : str :=
  match a with
  | Some (c :: tl) => c :: tl
  | _ => b
  end.

(** [s.split(sep)] for a separator of one character. *)
Fixpoint split (sep : ascii) (s : str) : list str :=
  match s with
  | [] => [[]]
  | c :: tl =>
      if Ascii.eqb c sep then [] :: split sep tl
      else
        match split sep tl with
        | w :: ws => (c :: w) :: ws
        | [] => [[c]]
        end
  end.

(** The decimal digits of a natural number, as a template literal prints
    them. *)
Fixpoint decimal (fuel n : nat) (acc : str) : str :=
  match fuel with
  | O => acc
  | S fuel' =>
      let acc' := ascii_of_nat (48 + n mod 10) :: acc in
      if (n / 10 =? 0)%nat then acc' else decimal fuel' (n / 10) acc'
  end.

Definition Number_toString (n : nat) : str := decimal (S n) n [].

End JsString.

(** ** Regular expressions

    The subset of ECMAScript patterns the source uses, and [String.replace]
    with a global pattern.  The matcher is the backtracking matcher of the
    language definition, in continuation-passing style: alternatives are
    tried left to right, quantifiers are greedy, and an iteration of a
    quantifier that consumes nothing is rejected. *)

Module JsRegExp.

Import JsString.

Inductive re : Type :=
| Empty
| Char (c : ascii)              (* a literal character *)
| Class (p : ascii -> bool)     (* [\s], [\d], [[...]] *)
| Seq (a b : re)
| Alt (a b : re)
| Star (a : re)                 (* [a*] *)
| Opt (a : re)                  (* [a?] *)
| WordBoundary                  (* [\b] *)
| Group (i : nat) (a : re).     (* the [i]-th capturing parenthesis *)

(** [a+] *)
Definition Plus (a : re) : re := Seq a (Star a).

(** A word of literal characters. *)
Fixpoint lit (w : str) : re :=
  match w with
  | [] => Empty
  | [c] => Char c
  | c :: tl => Seq (Char c) (lit tl)
  end.

(** [w1|w2|...] *)
Fixpoint alts (ws : list str) : re :=
  match ws with
  | [] => Class (fun _ => false)
  | [w] => lit w
  | w :: rest => Alt (lit w) (alts rest)
  end.

(** The state of one match attempt: the character before the current
    position, the input from the current position on, the number of
    characters consumed since the attempt started, and the captures so
    far (group number, start offset, length). *)
Record mstate := {
  m_prev : option ascii;
  m_rest : str;
  m_pos : nat;
  m_caps : list (nat * (nat * nat))
}.

Definition advance (c : ascii) (tl : str) (s : mstate) : mstate :=
  {| m_prev := Some c; m_rest := tl; m_pos := S (m_pos s);
     m_caps := m_caps s |}.

Definition set_cap (i start len : nat) (s : mstate) : mstate :=
  {| m_prev := m_prev s; m_rest := m_rest s; m_pos := m_pos s;
     m_caps := (i, (start, len)) :: m_caps s |}.

Definition word_at (c : option ascii) : bool :=
  match c with Some x => is_word x | None => false end.

Definition at_boundary (s : mstate) : bool :=
  negb (Bool.eqb (word_at (m_prev s)) (word_at (hd_error (m_rest s)))).

Definition cont := mstate -> option mstate.

Definition or_try (a : option mstate) (b : unit -> option mstate) :=
  match a with
  | Some r => Some r
  | None => b tt
  end.

(** Greedy iteration; [fuel] bounds the number of iterations, each of
    which consumes at least one character. *)
Fixpoint star_loop (step : cont -> cont) (fuel : nat) (k : cont)
  (s : mstate) : option mstate :=
  match fuel with
  | O => k s
  | S fuel' =>
      or_try
        (step (fun s' =>
                 if m_pos s' =? m_pos s then None
                 else star_loop step fuel' k s') s)
        (fun _ => k s)
  end.

(** [ic] is the [i] flag.  A [Class] is given closed under the flag. *)
Fixpoint matcher (ic : bool) (r : re) (k : cont) (s : mstate)
  : option mstate :=
  match r with
  | Empty => k s
  | Char c =>
      match m_rest s with
      | x :: tl =>
          if (if ic then Ascii.eqb (canonicalize x) (canonicalize c)
              else Ascii.eqb x c)
          then k (advance x tl s) else None
      | [] => None
      end
  | Class p =>
      match m_rest s with
      | x :: tl => if p x then k (advance x tl s) else None
      | [] => None
      end
  | Seq a b => matcher ic a (matcher ic b k) s
  | Alt a b => or_try (matcher ic a k s) (fun _ => matcher ic b k s)
  | Star a => star_loop (matcher ic a) (List.length (m_rest s)) k s
  | Opt a =>
      or_try
        (matcher ic a
           (fun s' => if m_pos s' =? m_pos s then None else k s') s)
        (fun _ => k s)
  | WordBoundary => if at_boundary s then k s else None
  | Group i a =>
      matcher ic a
        (fun s' => k (set_cap i (m_pos s) (m_pos s' - m_pos s) s')) s
  end.

(** One match attempt at the position where [rest] starts. *)
Definition exec (ic : bool) (r : re) (prev : option ascii) (rest : str)
  : option mstate :=
  matcher ic r Some
    {| m_prev := prev; m_rest := rest; m_pos := 0; m_caps := [] |}.

Fixpoint find_cap (i : nat) (caps : list (nat * (nat * nat)))
  : option (nat * nat) :=
  match caps with
  | (j, c) :: rest => if i =? j then Some c else find_cap i rest
  | [] => None
  end.

(** The text of group [i] of a match that started at [rest];
    [None] is [undefined]. *)
Definition group (st : mstate) (rest : str) (i : nat) : option str :=
  match find_cap i (m_caps st) with
  | Some (start, len) => Some (firstn len (skipn start rest))
  | None => None
  end.

(** The replacer callback: the matched text and the groups. *)
Definition replacer := str -> (nat -> option str) -> str.

Definition constant (s : str) : replacer := fun _ _ => s.

(** The scan of [replace] with the [g] flag: the leftmost match from the
    current position is replaced, and the scan goes on after it (one
    character further after an empty match). *)
Fixpoint replace_from (ic : bool) (r : re) (f : replacer) (fuel : nat)
  (prev : option ascii) (rest : str) : str :=
  match fuel with
  | O => rest
  | S fuel' =>
      match exec ic r prev rest with
      | Some st =>
          let len := m_pos st in
          let out := f (firstn len rest) (group st rest) in
          match len with
          | O =>
              match rest with
              | [] => out
              | c :: tl => out ++ c :: replace_from ic r f fuel' (Some c) tl
              end
          | S _ =>
              out ++ replace_from ic r f fuel'
                       (Some (last (firstn len rest) " "%char))
                       (skipn len rest)
          end
      | None =>
          match rest with
          | [] => []
          | c :: tl => c :: replace_from ic r f fuel' (Some c) tl
          end
      end
  end.

Definition replace (ic : bool) (r : re) (f : replacer) (s : str) : str :=
  replace_from ic r f (S (List.length s)) None s.

End JsRegExp.

(** ** scoring/overall.ts *)

Module Overall.

Import JsNumber.

(** [WEIGHTS] *)
Definition WEIGHTS_accuracy : float := 0.50%float.
Definition WEIGHTS_fluency : float := 0.30%float.
Definition WEIGHTS_structure : float := 0.20%float.

Definition clamp (value min max : float) : float :=
  Math_max min (Math_min max value).

Definition calculateOverall (accuracy fluency structure : float) : float :=
  let clampedAccuracy := clamp accuracy 0 100 in
  let clampedFluency := clamp fluency 0 100 in
  let clampedStructure := clamp structure 0 100 in
  let weighted :=
    (WEIGHTS_accuracy * clampedAccuracy +
     WEIGHTS_fluency * clampedFluency +
     WEIGHTS_structure * clampedStructure)%float in
  Math_round (clamp weighted 0 100).

(** The specification's formula in exact arithmetic, for comparison with
    [calculateOverall].  For integer scores the weighted sum
    [0.50*accuracy + 0.30*fluency + 0.20*structure] is [tenths / 10];
    [round] is the nearest integer, a half going up, that is
    [floor ((tenths + 5) / 10)]; the rounded value is clamped to
    [0,100]. *)
Definition tenths (accuracy fluency structure : Z) : Z :=
  (5 * accuracy + 3 * fluency + 2 * structure)%Z.

Definition overall_spec (accuracy fluency structure : Z) : Z :=
  Z.max 0 (Z.min 100 ((tenths accuracy fluency structure + 5) / 10)).

(** A valid score: an integer of [0..100] as a number. *)
Definition score (n : Z) : float := of_Z n.

End Overall.

(** ** scoring/fluency.ts

    [detectFillers] and [countTotalFillers] live in scoring/fillers.ts, which
    is not part of the sources at hand: they are parameters of the model.
    Counts are integers, far below 2^53, so integer arithmetic is exact. *)

Module Fluency.

Import JsString.
Open Scope Z_scope.

(** [FillerCount]: [{ word: string; count: number }] *)
Record FillerCount := { word : str; count : Z }.

Record FluencyBreakdown := {
  fillerPenalty : Z;
  fillers : list FillerCount;
  totalFillers : Z
}.

Section WithFillers.

Variable detectFillers : str -> list FillerCount.
Variable countTotalFillers : list FillerCount -> Z.

Definition calculateFluency (transcript : str) : Z * FluencyBreakdown :=
  let fillers := detectFillers transcript in
  let totalFillers := countTotalFillers fillers in
  let fillerPenalty := Z.min 50 (totalFillers * 5) in
  let score := 100 - fillerPenalty in
  (score,
   {| fillerPenalty := fillerPenalty;
      fillers := fillers;
      totalFillers := totalFillers |}).

(** The number of filler tokens detected in a transcript. *)
Definition fillerCount (transcript : str) : Z :=
  countTotalFillers (detectFillers transcript).

End WithFillers.

End Fluency.

(** ** scoring/radioNormalize.ts *)

Module RadioNormalize.

Import JsString JsRegExp.

(** *** Number mappings *)

Definition DIGIT_TO_WORD : list (str * str) :=
  [ (L "0", L "zero"); (L "1", L "one"); (L "2", L "two");
    (L "3", L "three"); (L "4", L "four"); (L "5", L "five");
    (L "6", L "six"); (L "7", L "seven"); (L "8", L "eight");
    (L "9", L "nine") ].

Definition WORD_TO_DIGIT : list (str * str) :=
  [ (L "zero", L "0"); (L "one", L "1"); (L "two", L "2");
    (L "three", L "3"); (L "four", L "4"); (L "five", L "5");
    (L "six", L "6"); (L "seven", L "7"); (L "eight", L "8");
    (L "nine", L "9"); (L "niner", L "9") ].

Definition COMPOUND_NUMBERS : list (str * str) :=
  [ (L "ten", L "one zero"); (L "eleven", L "one one");
    (L "twelve", L "one two"); (L "thirteen", L "one three");
    (L "fourteen", L "one four"); (L "fifteen", L "one five");
    (L "sixteen", L "one six"); (L "seventeen", L "one seven");
    (L "eighteen", L "one eight"); (L "nineteen", L "one nine");
    (L "twenty", L "two zero"); (L "thirty", L "three zero");
    (L "forty", L "four zero"); (L "fifty", L "five zero");
    (L "sixty", L "six zero"); (L "seventy", L "seven zero");
    (L "eighty", L "eight zero"); (L "ninety", L "nine zero") ].

(** *** Callsign prefixes *)

Definition CALLSIGN_PREFIXES : list str :=
  map L
    [ "bowser"; "shepherd"; "hotel"; "alpha"; "bravo"; "charlie"; "delta";
      "echo"; "foxtrot"; "golf"; "india"; "juliet"; "kilo"; "lima";
      "mike"; "november"; "oscar"; "papa"; "quebec"; "romeo"; "sierra";
      "tango"; "uniform"; "victor"; "whiskey"; "xray"; "x-ray"; "yankee";
      "zulu"; "fire"; "security"; "afe"; "contractor" ]%string.

(** *** Pattern pieces *)

Fixpoint seqs (rs : list re) : re :=
  match rs with
  | [] => Empty
  | [r] => r
  | r :: rest => Seq r (seqs rest)
  end.

Definition b : re := WordBoundary.           (* [\b] *)
Definition s_star : re := Star (Class is_space).   (* [\s*] *)
Definition s_plus : re := Plus (Class is_space).   (* [\s+] *)
Definition d_plus : re := Plus (Class is_digit).   (* [\d+] *)

(** [[a-z]] under the [i] flag: the letters of either case. *)
Definition a_z_i (c : ascii) : bool :=
  in_range 97 122 c || in_range 65 90 c.

(** The double quote, U+0022. *)
Definition dquote : ascii := ascii_of_nat 34.

(** The class of [removePunctuation]: full stop, comma, semicolon, colon,
    exclamation mark, question mark, apostrophe and double quote. *)
Definition is_punct (c : ascii) : bool :=
  existsb (Ascii.eqb c)
    ["."%char; ","%char; ";"%char; ":"%char; "!"%char; "?"%char; "'"%char;
     dquote].

(** The text of a group that takes part in every match of its pattern. *)
Definition text_of (g : option str) : str :=
  match g with Some s => s | None => [] end.

(** *** Normalization functions *)

Definition digitsToSpoken (digits : str) : str :=
  join (L " ") (map (fun d => or_else (lookup DIGIT_TO_WORD [d]) [d]) digits).

Definition tensPattern : re :=
  seqs [ b;
         Group 1 (alts (map L [ "twenty"; "thirty"; "forty"; "fifty";
                                "sixty"; "seventy"; "eighty";
                                "ninety" ]%string));
         s_star;
         Opt (Group 2 (alts (map L [ "one"; "two"; "three"; "four"; "five";
                                     "six"; "seven"; "eight";
                                     "nine" ]%string)));
         b ].

Definition tensReplacer : replacer :=
  fun _match g =>
    let tens := text_of (g 1) in
    let tensDigit := or_else (lookup COMPOUND_NUMBERS (toLowerCase tens)) tens in
    match g 2 with
    | Some ((_ :: _) as ones) =>
        let onesDigit :=
          or_else (lookup WORD_TO_DIGIT (toLowerCase ones)) ones in
        let tensFirst := split_first " " tensDigit in
        tensFirst ++ L " " ++ or_else (lookup DIGIT_TO_WORD onesDigit) onesDigit
    | _ => tensDigit
    end.

(** [result.replace(new RegExp(`\\b${word}\\b`, 'gi'), by)] *)
Definition replaceWord (word by_ : str) (result : str) : str :=
  replace true (seqs [b; lit word; b]) (constant by_) result.

Definition expandCompoundNumbers (text : str) : str :=
  let result := toLowerCase text in
  let result := replace true tensPattern tensReplacer result in
  fold_left (fun result entry => replaceWord (fst entry) (snd entry) result)
    COMPOUND_NUMBERS result.

Definition callsignPrefixPattern : re :=
  seqs [b; Group 1 (alts CALLSIGN_PREFIXES); s_star; Group 2 d_plus; b].

Definition runwayPattern : re :=
  seqs [b; lit (L "runway"); s_star; Group 1 d_plus; b].

Definition taxiwayPattern : re :=
  seqs [b; lit (L "taxiway"); s_star; Group 1 (Class a_z_i); s_star;
        Group 2 d_plus; b].

Definition headingPattern : re :=
  seqs [b;
        Group 1 (alts (map L [ "heading"; "altitude"; "squawk";
                               "flight level" ]%string));
        s_star; Group 2 d_plus; b].

Definition normalizeRadioNumbers (text : str) : str :=
  let result := text in
  let result := expandCompoundNumbers result in
  let result :=
    fold_left
      (fun result entry =>
         replaceWord (fst entry)
           (text_of (lookup DIGIT_TO_WORD (snd entry))) result)
      WORD_TO_DIGIT result in
  let result :=
    replace true callsignPrefixPattern
      (fun _match g =>
         text_of (g 1) ++ L " " ++ digitsToSpoken (text_of (g 2)))
      result in
  let result :=
    replace true runwayPattern
      (fun _match g => L "runway " ++ digitsToSpoken (text_of (g 1)))
      result in
  let result :=
    replace true taxiwayPattern
      (fun _match g =>
         L "taxiway " ++ text_of (g 1) ++ L " "
           ++ digitsToSpoken (text_of (g 2)))
      result in
  let result :=
    replace true headingPattern
      (fun _match g =>
         text_of (g 1) ++ L " " ++ digitsToSpoken (text_of (g 2)))
      result in
  result.

(** [text.replace(/\s+/g, ' ')] *)
Definition collapseSpaces (text : str) : str :=
  replace false s_plus (constant (L " ")) text.

Definition removePunctuation (text : str) : str :=
  trim (collapseSpaces
          (replace false (Class is_punct) (constant (L " ")) text)).

Definition normalizeRadioPhrases (text : str) : str :=
  let result := text in
  let result :=
    replace true
      (seqs [b; lit (L "over"); s_plus; lit (L "and"); s_plus;
             lit (L "out"); b])
      (constant (L "over and out")) result in
  let result :=
    replace true (seqs [b; lit (L "roger"); s_plus; lit (L "that"); b])
      (constant (L "roger")) result in
  let result :=
    replace true (seqs [b; lit (L "copy"); s_plus; lit (L "that"); b])
      (constant (L "copy")) result in
  let result :=
    replace true (seqs [b; lit (L "ground"); s_plus; lit (L "control"); b])
      (constant (L "ground")) result in
  let result :=
    replace true (seqs [b; lit (L "atc"); b]) (constant (L "atc")) result in
  result.

Definition normalizeHyphens (text : str) : str :=
  trim (collapseSpaces (replace false (Char "-") (constant (L " ")) text)).

(** *** Main normalization function *)

Definition normalizeRadioTranscript (text : str) : str :=
  match text with
  | [] => []
  | _ =>
      let result := text in
      let result := toLowerCase result in
      let result := normalizeHyphens result in
      let result := normalizeRadioNumbers result in
      let result := normalizeRadioPhrases result in
      let result := removePunctuation result in
      let result := trim (collapseSpaces result) in
      result
  end.

Definition areTranscriptsEquivalent (transcript1 transcript2 : str) : bool :=
  let normalized1 := normalizeRadioTranscript transcript1 in
  let normalized2 := normalizeRadioTranscript transcript2 in
  if list_eq_dec ascii_dec normalized1 normalized2 then true else false.

(** *** Comparison with details *)

Record Comparison := {
  normalizedExpected : str;
  normalizedActual : str;
  isEquivalent : bool;
  differences : list str
}.

Definition compareTranscripts (expected actual : str) : Comparison :=
  let normalizedExpected := normalizeRadioTranscript expected in
  let normalizedActual := normalizeRadioTranscript actual in
  let isEquivalent :=
    if list_eq_dec ascii_dec normalizedExpected normalizedActual
    then true else false in
  let differences :=
    if negb isEquivalent then
      let expectedTokens := split " " normalizedExpected in
      let actualTokens := split " " normalizedActual in
      let maxLen :=
        Nat.max (List.length expectedTokens) (List.length actualTokens) in
      flat_map
        (fun i =>
           let expToken := or_else (nth_error expectedTokens i) (L "[missing]") in
           let actToken := or_else (nth_error actualTokens i) (L "[extra]") in
           if list_eq_dec ascii_dec expToken actToken then []
           else
             [ L "Position " ++ Number_toString (i + 1)
                 ++ L ": expected " ++ [dquote] ++ expToken ++ [dquote]
                 ++ L ", got " ++ [dquote] ++ actToken ++ [dquote] ])
        (seq 0 maxLen)
    else [] in
  {| normalizedExpected := normalizedExpected;
     normalizedActual := normalizedActual;
     isEquivalent := isEquivalent;
     differences := differences |}.

End RadioNormalize.

(** ** state/connectionPoolStore.ts

    [initialize] is an [async] function: it runs up to its first [await],
    is resumed when the token fetches have settled, and again when the
    connection attempts have settled.  The three pieces are the functions
    [initialize_enter], [initialize_tokens] and [initialize_connected]; the
    outcomes of the network operations are given by an environment.  Every
    piece returns the new pool state and the network requests it issued. *)

Module ConnectionPool.

Open Scope Z_scope.

Inductive Provider := openai | elevenlabs.

Record TokenInfo := {
  token : string;
  websocketUrl : string;
  expiresAt : Z
}.

(** An adapter of the pool: the provider and the parameters it was
    configured with ([adapter.configure]). *)
Record Adapter := {
  providerId : Provider;
  config_token : string;
  config_websocketUrl : string;
  config_model : option string;
  config_language : string
}.

Record ConnectionPoolState := {
  openaiToken : option TokenInfo;
  elevenlabsToken : option TokenInfo;
  openaiAdapter : option Adapter;
  elevenlabsAdapter : option Adapter;
  isInitializing : bool;
  isReady : bool;
  error : option string;
  reconnectAttempts : Z
}.

Definition TOKEN_REFRESH_BUFFER_MS : Z := 60000.
Definition MAX_RECONNECT_ATTEMPTS : Z := 3.
Definition RECONNECT_DELAY_MS : Z := 1000.

(** The outcome of a promise. *)
Inductive Settled (A : Type) :=
| fulfilled (value : A)
| rejected (reason : string).
Arguments fulfilled {A} value.
Arguments rejected {A} reason.

(** What the world answers: the clock, the token endpoints and whether
    [adapter.connect()] succeeds for a provider with a given token. *)
Record Env := {
  Date_now : Z;
  fetchOpenAIToken : Settled TokenInfo;
  fetchElevenLabsToken : Settled TokenInfo;
  connect : Provider -> TokenInfo -> Settled unit
}.

Inductive Request :=
| FetchToken (p : Provider)
| Connect (p : Provider) (t : TokenInfo).

Definition isTokenExpired (now : Z) (token : option TokenInfo) : bool :=
  match token with
  | None => true
  | Some t => now >=? expiresAt t - TOKEN_REFRESH_BUFFER_MS
  end.

Definition createOpenAIAdapter (env : Env) (t : TokenInfo) : Settled Adapter :=
  let adapter :=
    {| providerId := openai;
       config_token := token t;
       config_websocketUrl := websocketUrl t;
       config_model := Some "gpt-4o-realtime-preview"%string;
       config_language := "en"%string |} in
  match connect env openai t with
  | fulfilled _ => fulfilled adapter
  | rejected r => rejected r
  end.

Definition createElevenLabsAdapter (env : Env) (t : TokenInfo)
  : Settled Adapter :=
  let adapter :=
    {| providerId := elevenlabs;
       config_token := token t;
       config_websocketUrl := websocketUrl t;
       config_model := None;
       config_language := "en"%string |} in
  match connect env elevenlabs t with
  | fulfilled _ => fulfilled adapter
  | rejected r => rejected r
  end.

(** The initial state of the store. *)
Definition initialState : ConnectionPoolState :=
  {| openaiToken := None; elevenlabsToken := None;
     openaiAdapter := None; elevenlabsAdapter := None;
     isInitializing := false; isReady := false; error := None;
     reconnectAttempts := 0 |}.

(** How a call of [initialize] left its first, synchronous piece. *)
Inductive Entered :=
| Skipped          (* returned at one of the two guards *)
| AwaitingTokens.  (* suspended at [await Promise.allSettled] *)

Definition initialize_enter (env : Env) (state : ConnectionPoolState)
  : ConnectionPoolState * list Request * Entered :=
  if isInitializing state then (state, [], Skipped)
  else if isReady state
          && negb (isTokenExpired (Date_now env) (openaiToken state))
          && negb (isTokenExpired (Date_now env) (elevenlabsToken state))
  then (state, [], Skipped)
  else
    ({| openaiToken := openaiToken state;
        elevenlabsToken := elevenlabsToken state;
        openaiAdapter := openaiAdapter state;
        elevenlabsAdapter := elevenlabsAdapter state;
        isInitializing := true;
        isReady := isReady state;
        error := None;
        reconnectAttempts := reconnectAttempts state |},
     [FetchToken openai; FetchToken elevenlabs],
     AwaitingTokens).

Definition value_of {A} (r : Settled A) : option A :=
  match r with
  | fulfilled v => Some v
  | rejected _ => None
  end.

(** Resumed with the settled token fetches: the tokens are stored and a
    connection is started for each token obtained. *)
Definition initialize_tokens (openaiResult elevenlabsResult : Settled TokenInfo)
  (state : ConnectionPoolState) : ConnectionPoolState * list Request :=
  let openaiToken' := value_of openaiResult in
  let elevenlabsToken' := value_of elevenlabsResult in
  ({| openaiToken := openaiToken';
      elevenlabsToken := elevenlabsToken';
      openaiAdapter := openaiAdapter state;
      elevenlabsAdapter := elevenlabsAdapter state;
      isInitializing := isInitializing state;
      isReady := isReady state;
      error := error state;
      reconnectAttempts := reconnectAttempts state |},
   (match openaiToken' with Some t => [Connect openai t] | None => [] end)
     ++
   (match elevenlabsToken' with
    | Some t => [Connect elevenlabs t] | None => [] end)).

(** Resumed when every connection attempt has settled; an attempt that
    was not started, or was rejected, leaves its adapter [null]. *)
Definition initialize_connected
  (openaiConn elevenlabsConn : option (Settled Adapter))
  (state : ConnectionPoolState) : ConnectionPoolState :=
  let openaiAdapter' :=
    match openaiConn with Some r => value_of r | None => None end in
  let elevenlabsAdapter' :=
    match elevenlabsConn with Some r => value_of r | None => None end in
  let hasConnection :=
    match openaiAdapter', elevenlabsAdapter' with
    | None, None => false
    | _, _ => true
    end in
  {| openaiToken := openaiToken state;
     elevenlabsToken := elevenlabsToken state;
     openaiAdapter := openaiAdapter';
     elevenlabsAdapter := elevenlabsAdapter';
     isInitializing := false;
     isReady := hasConnection;
     error :=
       if hasConnection then None
       else Some "Failed to establish any connections"%string;
     reconnectAttempts := 0 |}.

(** One whole run of [initialize] in an environment, with no other store
    action in between: the final state and the requests issued. *)
Definition initialize (env : Env) (state : ConnectionPoolState)
  : ConnectionPoolState * list Request :=
  match initialize_enter env state with
  | (state1, reqs1, Skipped) => (state1, reqs1)
  | (state1, reqs1, AwaitingTokens) =>
      let '(state2, reqs2) :=
        initialize_tokens (fetchOpenAIToken env) (fetchElevenLabsToken env)
          state1 in
      let openaiConn :=
        option_map (createOpenAIAdapter env) (openaiToken state2) in
      let elevenlabsConn :=
        option_map (createElevenLabsAdapter env) (elevenlabsToken state2) in
      (initialize_connected openaiConn elevenlabsConn state2,
       reqs1 ++ reqs2)
  end.

(** Whether a provider ends up connected in an environment: its token
    fetch and its connection both succeed. *)
Definition connects (env : Env) (p : Provider) : bool :=
  match (match p with
         | openai => fetchOpenAIToken env
         | elevenlabs => fetchElevenLabsToken env
         end) with
  | fulfilled t =>
      match connect env p t with
      | fulfilled _ => true
      | rejected _ => false
      end
  | rejected _ => false
  end.

(** An integer as a template literal prints it. *)
Definition showNumber (z : Z) : string :=
  String.append (if z <? 0 then "-" else EmptyString)
    (string_of_list_ascii (JsString.Number_toString (Z.abs_nat z))).

(** The [catch] block of [initialize]: it runs when an operation of the
    [try] block raises an exception.  None of the operations modelled
    above does ([Promise.allSettled] never rejects, and every connection
    promise carries a [catch] of its own), so a run of [initialize] does
    not reach it.  It returns the new state and the delay of the retry it
    schedules, if any. *)
Definition initialize_catch (errorMessage : string)
  (state : ConnectionPoolState) : ConnectionPoolState * option Z :=
  let attempts := reconnectAttempts state + 1 in
  if attempts <? MAX_RECONNECT_ATTEMPTS then
    ({| openaiToken := openaiToken state;
        elevenlabsToken := elevenlabsToken state;
        openaiAdapter := openaiAdapter state;
        elevenlabsAdapter := elevenlabsAdapter state;
        isInitializing := false;
        isReady := isReady state;
        error :=
          Some (String.append "Connection failed, retrying ("
                  (String.append (showNumber attempts)
                     (String.append "/"
                        (String.append (showNumber MAX_RECONNECT_ATTEMPTS)
                           ")..."))));
        reconnectAttempts := attempts |},
     Some (RECONNECT_DELAY_MS * attempts))
  else
    ({| openaiToken := openaiToken state;
        elevenlabsToken := elevenlabsToken state;
        openaiAdapter := openaiAdapter state;
        elevenlabsAdapter := elevenlabsAdapter state;
        isInitializing := false;
        isReady := false;
        error :=
          Some (String.append "Failed to initialize after 3 attempts: "
                  errorMessage);
        reconnectAttempts := reconnectAttempts state |},
     None).

(** The store state after [teardown]. *)
Definition teardown (state : ConnectionPoolState) : ConnectionPoolState :=
  initialState.

Definition getAdapter (state : ConnectionPoolState) (p : Provider)
  : option Adapter :=
  match p with
  | openai => openaiAdapter state
  | elevenlabs => elevenlabsAdapter state
  end.

End ConnectionPool.

(** ** scoring/accuracy.ts

    [calculateSimilarity] lives in scoring/similarity.ts, which is not part
    of the sources at hand: it is a parameter of the model. *)

Module Accuracy.

Import JsString JsNumber.

Record AccuracyBreakdown := {
  similarityScore : float;
  normalizedTranscript : str;
  normalizedExpected : str
}.

Section WithSimilarity.

Variable calculateSimilarity : str -> str -> float.

(** [expected] is [undefined] when the question has no expected answer;
    [normalizeRadioTranscript] maps it to the empty string. *)
Definition calculateAccuracy (transcript : str) (expected : option str)
  : float * AccuracyBreakdown :=
  let normalizedTranscript :=
    RadioNormalize.normalizeRadioTranscript transcript in
  let normalizedExpected :=
    RadioNormalize.normalizeRadioTranscript
      (match expected with Some e => e | None => [] end) in
  let similarityScore :=
    calculateSimilarity normalizedTranscript normalizedExpected in
  let score := Math_round (similarityScore * 100)%float in
  (score,
   {| similarityScore := similarityScore;
      normalizedTranscript := normalizedTranscript;
      normalizedExpected := normalizedExpected |}).

End WithSimilarity.

End Accuracy.

(** ** state/sessionStore.ts *)

Module SessionStore.

Import JsString JsNumber.
Open Scope Z_scope.

Inductive ProviderId := openai | elevenlabs.

Module ProviderStatus.
Inductive t := idle | connecting | listening | processing | completed
             | error.
Definition eqb (a b : t) : bool :=
  match a, b with
  | idle, idle | connecting, connecting | listening, listening
  | processing, processing | completed, completed | error, error => true
  | _, _ => false
  end.
End ProviderStatus.

Module RecordingState.
Inductive t := idle | listening | processing | completed.
Definition eqb (a b : t) : bool :=
  match a, b with
  | idle, idle | listening, listening | processing, processing
  | completed, completed => true
  | _, _ => false
  end.
End RecordingState.

Inductive StructureMode := full | ack_short | clarify_request.
Inductive TestMode := read_aloud | open_ended.

Record TranscriptState := {
  interimText : str;
  committedText : str;
  finalText : str
}.

(** The partial transcript object given to [updateProviderTranscript]. *)
Record TranscriptPatch := {
  patch_interimText : option str;
  patch_committedText : option str;
  patch_finalText : option str
}.

Record WordTiming := {
  word : str;
  startMs : Z;
  endMs : Z;
  confidence : option float
}.

Record ProviderMetrics := {
  accuracy : float;
  fluency : float;
  structure : float;
  overall : float
}.

(** Modelled from the spec: the structure stage of the scoring engine
    (scoring/structure.ts) is not part of the sources at hand; its
    breakdown is the list of structural violations. *)
Record StructureBreakdown := { violations : list str }.

Record ScoringBreakdown := {
  breakdown_accuracy : Accuracy.AccuracyBreakdown;
  breakdown_fluency : Fluency.FluencyBreakdown;
  breakdown_structure : StructureBreakdown
}.

Record Cost := { currency : string; amount : float; method : string }.

Record ProviderResult := {
  status : ProviderStatus.t;
  transcript : TranscriptState;
  words : option (list WordTiming);
  durationMs : Z;
  fillers : list Fluency.FillerCount;
  metrics : option ProviderMetrics;
  breakdown : option ScoringBreakdown;
  cost : option Cost;
  errors : option (list string)
}.

Record Question := {
  prompt : str;
  options : list str;
  correctIndex : Z;
  expectedSpokenAnswer : option str;
  structureMode : StructureMode;
  expectedKeywords : option (list str)
}.

Record QuestionBank := { questions : list Question }.

Record OpenAIScoreResult := {
  ai_accuracy : Z;
  ai_fluency : Z;
  ai_structure : Z;
  ai_overall : Z;
  feedback : string;
  fillerWords : list string;
  fillerCount : Z;
  radioProtocolNotes : option string
}.

Record SessionState := {
  questionBank : option QuestionBank;
  currentQuestionIndex : Z;
  selectedChoiceIndex : option Z;
  recordingState : RecordingState.t;
  recordingDurationMs : Z;
  recordingStartTime : option Z;
  openaiResult : ProviderResult;
  elevenlabsResult : ProviderResult;
  testMode : TestMode;
  openEndedResult : option OpenAIScoreResult;
  isAIScoring : bool
}.

Definition createInitialProviderResult : ProviderResult :=
  {| status := ProviderStatus.idle;
     transcript := {| interimText := []; committedText := [];
                      finalText := [] |};
     words := None;
     durationMs := 0;
     fillers := [];
     metrics := None;
     breakdown := None;
     cost := None;
     errors := None |}.

Definition initialState : SessionState :=
  {| questionBank := None;
     currentQuestionIndex := 0;
     selectedChoiceIndex := None;
     recordingState := RecordingState.idle;
     recordingDurationMs := 0;
     recordingStartTime := None;
     openaiResult := createInitialProviderResult;
     elevenlabsResult := createInitialProviderResult;
     testMode := read_aloud;
     openEndedResult := None;
     isAIScoring := false |}.

(** *** [set] on one key of the state *)

Definition resultOf (provider : ProviderId) (state : SessionState)
  : ProviderResult :=
  match provider with
  | openai => openaiResult state
  | elevenlabs => elevenlabsResult state
  end.

Definition set_result (provider : ProviderId) (r : ProviderResult)
  (state : SessionState) : SessionState :=
  {| questionBank := questionBank state;
     currentQuestionIndex := currentQuestionIndex state;
     selectedChoiceIndex := selectedChoiceIndex state;
     recordingState := recordingState state;
     recordingDurationMs := recordingDurationMs state;
     recordingStartTime := recordingStartTime state;
     openaiResult :=
       match provider with openai => r | elevenlabs => openaiResult state end;
     elevenlabsResult :=
       match provider with
       | openai => elevenlabsResult state | elevenlabs => r end;
     testMode := testMode state;
     openEndedResult := openEndedResult state;
     isAIScoring := isAIScoring state |}.

Definition set_recordingState (rs : RecordingState.t) (state : SessionState)
  : SessionState :=
  {| questionBank := questionBank state;
     currentQuestionIndex := currentQuestionIndex state;
     selectedChoiceIndex := selectedChoiceIndex state;
     recordingState := rs;
     recordingDurationMs := recordingDurationMs state;
     recordingStartTime := recordingStartTime state;
     openaiResult := openaiResult state;
     elevenlabsResult := elevenlabsResult state;
     testMode := testMode state;
     openEndedResult := openEndedResult state;
     isAIScoring := isAIScoring state |}.

Definition with_status (s : ProviderStatus.t) (r : ProviderResult)
  : ProviderResult :=
  {| status := s; transcript := transcript r; words := words r;
     durationMs := durationMs r; fillers := fillers r;
     metrics := metrics r; breakdown := breakdown r; cost := cost r;
     errors := errors r |}.

Definition with_transcript (t : TranscriptState) (r : ProviderResult)
  : ProviderResult :=
  {| status := status r; transcript := t; words := words r;
     durationMs := durationMs r; fillers := fillers r;
     metrics := metrics r; breakdown := breakdown r; cost := cost r;
     errors := errors r |}.

(** [{ ...transcript, ...patch }] *)
Definition merge (t : TranscriptState) (p : TranscriptPatch)
  : TranscriptState :=
  {| interimText :=
       match patch_interimText p with Some x => x | None => interimText t end;
     committedText :=
       match patch_committedText p with
       | Some x => x | None => committedText t end;
     finalText :=
       match patch_finalText p with Some x => x | None => finalText t end |}.

(** *** Recording control *)

Definition stopRecording (now : Z) (state : SessionState) : SessionState :=
  match recordingState state with
  | RecordingState.listening =>
      let durationMs :=
        match recordingStartTime state with
        | Some t => if t =? 0 then 0 else now - t
        | None => 0
        end in
      {| questionBank := questionBank state;
         currentQuestionIndex := currentQuestionIndex state;
         selectedChoiceIndex := selectedChoiceIndex state;
         recordingState := RecordingState.processing;
         recordingDurationMs := durationMs;
         recordingStartTime := None;
         openaiResult := openaiResult state;
         elevenlabsResult := elevenlabsResult state;
         testMode := testMode state;
         openEndedResult := openEndedResult state;
         isAIScoring := isAIScoring state |}
  | _ => state
  end.

Definition setRecordingCompleted (state : SessionState) : SessionState :=
  set_recordingState RecordingState.completed state.

(** *** Provider management *)

Definition updateProviderStatus (provider : ProviderId)
  (s : ProviderStatus.t) (state : SessionState) : SessionState :=
  set_result provider (with_status s (resultOf provider state)) state.

Definition updateProviderTranscript (provider : ProviderId)
  (p : TranscriptPatch) (state : SessionState) : SessionState :=
  let currentResult := resultOf provider state in
  set_result provider
    (with_transcript (merge (transcript currentResult) p) currentResult)
    state.

(** *** Computed getters *)

Definition nth_Z {A} (l : list A) (i : Z) : option A :=
  if i <? 0 then None else nth_error l (Z.to_nat i).

Definition getCurrentQuestion (state : SessionState) : option Question :=
  match questionBank state with
  | None => None
  | Some bank =>
      if currentQuestionIndex state >=? Z.of_nat (List.length (questions bank))
      then None
      else nth_Z (questions bank) (currentQuestionIndex state)
  end.

(** *** Scoring

    The similarity, filler and structure stages, and the cost rates of
    the application configuration, are not part of the sources at hand:
    they are parameters. *)

Section Scoring.

Variable calculateSimilarity : str -> str -> float.
Variable detectFillers : str -> list Fluency.FillerCount.
Variable countTotalFillers : list Fluency.FillerCount -> Z.
Variable calculateStructure :
  str -> StructureMode -> option (list str) -> float * StructureBreakdown.
Variable costRates : ProviderId -> float.

(** [a || b || c] on strings *)
Definition first_nonempty (a b c : str) : str :=
  match a with
  | _ :: _ => a
  | [] => match b with _ :: _ => b | [] => c end
  end.

Definition computeScores (provider : ProviderId) (state : SessionState)
  : SessionState :=
  let result := resultOf provider state in
  match getCurrentQuestion state with
  | None => state
  | Some currentQuestion =>
      let transcript :=
        first_nonempty (finalText (transcript result))
          (committedText (transcript result))
          (interimText (transcript result)) in
      match transcript with
      | [] => state
      | _ :: _ =>
          let expected :=
            match selectedChoiceIndex state with
            | Some i => nth_Z (options currentQuestion) i
            | None => expectedSpokenAnswer currentQuestion
            end in
          let accuracyResult :=
            Accuracy.calculateAccuracy calculateSimilarity
              transcript expected in
          let fluencyResult :=
            Fluency.calculateFluency detectFillers countTotalFillers
              transcript in
          let structureResult :=
            calculateStructure transcript
              (structureMode currentQuestion)
              (expectedKeywords currentQuestion) in
          let overall :=
            Overall.calculateOverall (fst accuracyResult)
              (of_Z (fst fluencyResult)) (fst structureResult) in
          let metrics :=
            {| accuracy := fst accuracyResult;
               fluency := of_Z (fst fluencyResult);
               structure := fst structureResult;
               overall := overall |} in
          let breakdown :=
            {| breakdown_accuracy := snd accuracyResult;
               breakdown_fluency := snd fluencyResult;
               breakdown_structure := snd structureResult |} in
          let costRate := costRates provider in
          let durationMinutes := (of_Z (durationMs result) / 60000)%float in
          let estimatedCost := (costRate * durationMinutes)%float in
          let state' :=
            set_result provider
              {| status := ProviderStatus.completed;
                 transcript := SessionStore.transcript result;
                 words := words result;
                 durationMs := durationMs result;
                 fillers := Fluency.fillers (snd fluencyResult);
                 metrics := Some metrics;
                 breakdown := Some breakdown;
                 cost := Some {| currency := "USD"; amount := estimatedCost;
                                 method := "estimate" |};
                 errors := errors result |}
              state in
          if ProviderStatus.eqb (status (openaiResult state'))
               ProviderStatus.completed
             && ProviderStatus.eqb (status (elevenlabsResult state'))
                  ProviderStatus.completed
          then set_recordingState RecordingState.completed state'
          else state'
      end
  end.

End Scoring.

(** *** Bank management and choice selection *)

Definition loadBank (bank : QuestionBank) (state : SessionState)
  : SessionState :=
  {| questionBank := Some bank;
     currentQuestionIndex := 0;
     selectedChoiceIndex := None;
     recordingState := RecordingState.idle;
     recordingDurationMs := 0;
     recordingStartTime := None;
     openaiResult := createInitialProviderResult;
     elevenlabsResult := createInitialProviderResult;
     testMode := testMode state;
     openEndedResult := openEndedResult state;
     isAIScoring := isAIScoring state |}.

Definition set_selectedChoiceIndex (c : option Z) (state : SessionState)
  : SessionState :=
  {| questionBank := questionBank state;
     currentQuestionIndex := currentQuestionIndex state;
     selectedChoiceIndex := c;
     recordingState := recordingState state;
     recordingDurationMs := recordingDurationMs state;
     recordingStartTime := recordingStartTime state;
     openaiResult := openaiResult state;
     elevenlabsResult := elevenlabsResult state;
     testMode := testMode state;
     openEndedResult := openEndedResult state;
     isAIScoring := isAIScoring state |}.

(** The indices in the store of this model are integers.  [selectChoice]
    and [goToQuestion] take a number and guard it with comparisons only,
    so a number between two integers, 1.5 say, passes the guard and is
    stored by the source.  [asIndex bound index] is the integer of
    [0 .. bound-1] that the number [index] is equal to, if there is one;
    where there is none the two actions give [None]: the store the source
    is then in holds an index that is no integer, and is outside this
    model. *)
Definition asIndex (bound : nat) (index : float) : option Z :=
  find (fun i => JsNumber.strict_eq index (JsNumber.of_Z i))
    (map Z.of_nat (seq 0 bound)).

(** [lockSelection] is [appConfig.featureFlags.lockSelectionDuringRecording]
    of the application configuration, which is not part of the sources at
    hand. *)
Definition selectChoice (lockSelection : bool) (index : float)
  (state : SessionState) : option SessionState :=
  if lockSelection
     && negb (RecordingState.eqb (recordingState state) RecordingState.idle)
  then Some state
  else if PrimFloat.leb 0 index && PrimFloat.leb index 3
       then match asIndex 4 index with
            | Some index => Some (set_selectedChoiceIndex (Some index) state)
            | None => None
            end
       else Some state.

Definition clearChoice (state : SessionState) : SessionState :=
  set_selectedChoiceIndex None state.

(** *** Starting a recording *)

Definition startRecording (now : Z) (state : SessionState) : SessionState :=
  match questionBank state with
  | None => state
  | Some _ =>
      match testMode state, selectedChoiceIndex state with
      | read_aloud, None => state
      | _, _ =>
          match recordingState state with
          | RecordingState.idle =>
              {| questionBank := questionBank state;
                 currentQuestionIndex := currentQuestionIndex state;
                 selectedChoiceIndex := selectedChoiceIndex state;
                 recordingState := RecordingState.listening;
                 recordingDurationMs := 0;
                 recordingStartTime := Some now;
                 openaiResult :=
                   with_status ProviderStatus.connecting
                     createInitialProviderResult;
                 elevenlabsResult :=
                   with_status ProviderStatus.connecting
                     createInitialProviderResult;
                 testMode := testMode state;
                 openEndedResult := None;
                 isAIScoring := false |}
          | _ => state
          end
      end
  end.

Definition updateRecordingDuration (durationMs : Z) (state : SessionState)
  : SessionState :=
  {| questionBank := questionBank state;
     currentQuestionIndex := currentQuestionIndex state;
     selectedChoiceIndex := selectedChoiceIndex state;
     recordingState := recordingState state;
     recordingDurationMs := durationMs;
     recordingStartTime := recordingStartTime state;
     openaiResult := openaiResult state;
     elevenlabsResult := elevenlabsResult state;
     testMode := testMode state;
     openEndedResult := openEndedResult state;
     isAIScoring := isAIScoring state |}.

(** *** More provider management *)

Definition updateProviderWords (provider : ProviderId)
  (ws : list WordTiming) (state : SessionState) : SessionState :=
  let currentResult := resultOf provider state in
  set_result provider
    {| status := status currentResult;
       transcript := transcript currentResult;
       words := Some ws;
       durationMs := durationMs currentResult;
       fillers := fillers currentResult;
       metrics := metrics currentResult;
       breakdown := breakdown currentResult;
       cost := cost currentResult;
       errors := errors currentResult |}
    state.

Definition updateProviderDuration (provider : ProviderId) (d : Z)
  (state : SessionState) : SessionState :=
  let currentResult := resultOf provider state in
  set_result provider
    {| status := status currentResult;
       transcript := transcript currentResult;
       words := words currentResult;
       durationMs := d;
       fillers := fillers currentResult;
       metrics := metrics currentResult;
       breakdown := breakdown currentResult;
       cost := cost currentResult;
       errors := errors currentResult |}
    state.

Definition setProviderError (provider : ProviderId) (error : string)
  (state : SessionState) : SessionState :=
  let currentResult := resultOf provider state in
  set_result provider
    {| status := ProviderStatus.error;
       transcript := transcript currentResult;
       words := words currentResult;
       durationMs := durationMs currentResult;
       fillers := fillers currentResult;
       metrics := metrics currentResult;
       breakdown := breakdown currentResult;
       cost := cost currentResult;
       errors :=
         Some (match errors currentResult with
               | Some es => es
               | None => []
               end ++ [error]) |}
    state.

Definition resetProvider (provider : ProviderId) (state : SessionState)
  : SessionState :=
  set_result provider createInitialProviderResult state.

(** *** Navigation *)

(** The keys every navigation action sets: the question index, no choice,
    an idle recording and fresh provider results. *)
Definition showQuestion (index : Z) (state : SessionState) : SessionState :=
  {| questionBank := questionBank state;
     currentQuestionIndex := index;
     selectedChoiceIndex := None;
     recordingState := RecordingState.idle;
     recordingDurationMs := 0;
     recordingStartTime := None;
     openaiResult := createInitialProviderResult;
     elevenlabsResult := createInitialProviderResult;
     testMode := testMode state;
     openEndedResult := None;
     isAIScoring := false |}.

Definition nextQuestion (state : SessionState) : SessionState :=
  match questionBank state with
  | None => state
  | Some bank =>
      let nextIndex := currentQuestionIndex state + 1 in
      if nextIndex <? Z.of_nat (List.length (questions bank))
      then showQuestion nextIndex state
      else state
  end.

Definition previousQuestion (state : SessionState) : SessionState :=
  if currentQuestionIndex state >? 0
  then showQuestion (currentQuestionIndex state - 1) state
  else state.

Definition goToQuestion (index : float) (state : SessionState)
  : option SessionState :=
  match questionBank state with
  | None => Some state
  | Some bank =>
      let length := List.length (questions bank) in
      if PrimFloat.leb 0 index
         && PrimFloat.ltb index (JsNumber.of_Z (Z.of_nat length))
      then match asIndex length index with
           | Some index => Some (showQuestion index state)
           | None => None
           end
      else Some state
  end.

Definition repeatQuestion (state : SessionState) : SessionState :=
  {| questionBank := questionBank state;
     currentQuestionIndex := currentQuestionIndex state;
     selectedChoiceIndex := selectedChoiceIndex state;
     recordingState := RecordingState.idle;
     recordingDurationMs := 0;
     recordingStartTime := None;
     openaiResult := createInitialProviderResult;
     elevenlabsResult := createInitialProviderResult;
     testMode := testMode state;
     openEndedResult := None;
     isAIScoring := false |}.

(** *** Session management and test mode *)

Definition resetSession (state : SessionState) : SessionState :=
  {| questionBank := questionBank state;
     currentQuestionIndex := currentQuestionIndex initialState;
     selectedChoiceIndex := selectedChoiceIndex initialState;
     recordingState := recordingState initialState;
     recordingDurationMs := recordingDurationMs initialState;
     recordingStartTime := recordingStartTime initialState;
     openaiResult := openaiResult initialState;
     elevenlabsResult := elevenlabsResult initialState;
     testMode := testMode initialState;
     openEndedResult := openEndedResult initialState;
     isAIScoring := isAIScoring initialState |}.

Definition clearAll (state : SessionState) : SessionState := initialState.

Definition testMode_eqb (a b : TestMode) : bool :=
  match a, b with
  | read_aloud, read_aloud | open_ended, open_ended => true
  | _, _ => false
  end.

Definition setTestMode (mode : TestMode) (state : SessionState)
  : SessionState :=
  if testMode_eqb mode (testMode state) then state
  else
    {| questionBank := questionBank state;
       currentQuestionIndex := currentQuestionIndex state;
       selectedChoiceIndex := None;
       recordingState := RecordingState.idle;
       recordingDurationMs := 0;
       recordingStartTime := None;
       openaiResult := createInitialProviderResult;
       elevenlabsResult := createInitialProviderResult;
       testMode := mode;
       openEndedResult := None;
       isAIScoring := false |}.

(** *** More computed getters *)

Definition isCorrect (state : SessionState) : option bool :=
  match selectedChoiceIndex state, getCurrentQuestion state with
  | Some selected, Some currentQuestion =>
      Some (selected =? correctIndex currentQuestion)
  | _, _ => None
  end.

(** [x !== null] *)
Definition notNull {A} (x : option A) : bool :=
  match x with Some _ => true | None => false end.

Definition canTalk (state : SessionState) : bool :=
  match testMode state with
  | open_ended =>
      notNull (questionBank state)
      && RecordingState.eqb (recordingState state) RecordingState.idle
  | read_aloud =>
      notNull (questionBank state)
      && notNull (selectedChoiceIndex state)
      && RecordingState.eqb (recordingState state) RecordingState.idle
  end.

Definition canNext (state : SessionState) : bool :=
  match questionBank state with
  | None => false
  | Some bank =>
      if negb (RecordingState.eqb (recordingState state)
                 RecordingState.completed)
      then false
      else currentQuestionIndex state
           <? Z.of_nat (List.length (questions bank)) - 1
  end.

Definition isSessionComplete (state : SessionState) : bool :=
  match questionBank state with
  | None => false
  | Some bank =>
      (currentQuestionIndex state
       =? Z.of_nat (List.length (questions bank)) - 1)
      && RecordingState.eqb (recordingState state) RecordingState.completed
  end.

(** [{ current, total }] *)
Definition getProgress (state : SessionState) : Z * Z :=
  match questionBank state with
  | None => (0, 0)
  | Some bank =>
      (currentQuestionIndex state + 1,
       Z.of_nat (List.length (questions bank)))
  end.

End SessionStore.

(** ** hooks/useDualSTT.ts

    The hook's mutable references, the session store and what the hook
    sees of the pool's adapters make up the state [Hook].  Calls on
    objects outside the model (chunker, microphone, adapters, timers) are
    recorded in [effects].  The two timeout callbacks of the hook are
    functions on this state; each carries the recording cycle it was
    created in. *)

Module DualSTT.

Import JsString SessionStore.
Open Scope Z_scope.

Inductive Timeout :=
| FinalizationTimeout (cycleAtStop : Z)    (* set by [stopRecording] *)
| MaxRecordingTimeout (currentCycle : Z).  (* set by [startRecording] *)

Inductive Effect :=
| ChunkerStop (chunker : nat)
| StopMicStream (stream : nat)
| EndAudio (provider : ProviderId)
| Disconnect (adapter : nat)
| RemoveListener (listener : nat)
| SetTimeout (callback : Timeout) (delay : Z).

Record Hook := {
  store : SessionState;
  recordingCycleRef : Z;
  audioChunkerRef : option nat;
  mediaStreamRef : option nat;
  errorRef : option string;
  eventCleanupRef : list nat;
  fallbackOpenAIRef : option nat;
  fallbackElevenLabsRef : option nat;
  usingFallbackRef : bool;
  (** [getAdapter(p)] of the pool: [None] is [null], [Some c] an adapter
      whose [isConnected()] is [c]. *)
  poolOpenAI : option bool;
  poolElevenLabs : option bool;
  effects : list Effect
}.

Definition with_store (s : SessionState) (w : Hook) : Hook :=
  {| store := s; recordingCycleRef := recordingCycleRef w;
     audioChunkerRef := audioChunkerRef w;
     mediaStreamRef := mediaStreamRef w; errorRef := errorRef w;
     eventCleanupRef := eventCleanupRef w;
     fallbackOpenAIRef := fallbackOpenAIRef w;
     fallbackElevenLabsRef := fallbackElevenLabsRef w;
     usingFallbackRef := usingFallbackRef w;
     poolOpenAI := poolOpenAI w; poolElevenLabs := poolElevenLabs w;
     effects := effects w |}.

Definition emit (es : list Effect) (w : Hook) : Hook :=
  {| store := store w; recordingCycleRef := recordingCycleRef w;
     audioChunkerRef := audioChunkerRef w;
     mediaStreamRef := mediaStreamRef w; errorRef := errorRef w;
     eventCleanupRef := eventCleanupRef w;
     fallbackOpenAIRef := fallbackOpenAIRef w;
     fallbackElevenLabsRef := fallbackElevenLabsRef w;
     usingFallbackRef := usingFallbackRef w;
     poolOpenAI := poolOpenAI w; poolElevenLabs := poolElevenLabs w;
     effects := effects w ++ es |}.

Definition cleanupEventListeners (w : Hook) : Hook :=
  let w := emit (map RemoveListener (eventCleanupRef w)) w in
  {| store := store w; recordingCycleRef := recordingCycleRef w;
     audioChunkerRef := audioChunkerRef w;
     mediaStreamRef := mediaStreamRef w; errorRef := errorRef w;
     eventCleanupRef := [];
     fallbackOpenAIRef := fallbackOpenAIRef w;
     fallbackElevenLabsRef := fallbackElevenLabsRef w;
     usingFallbackRef := usingFallbackRef w;
     poolOpenAI := poolOpenAI w; poolElevenLabs := poolElevenLabs w;
     effects := effects w |}.

(** Stop the chunker and the microphone, and clear both references. *)
Definition stopAudio (w : Hook) : Hook :=
  let w :=
    emit (match audioChunkerRef w with
          | Some c => [ChunkerStop c] | None => [] end) w in
  let w :=
    emit (match mediaStreamRef w with
          | Some m => [StopMicStream m] | None => [] end) w in
  {| store := store w; recordingCycleRef := recordingCycleRef w;
     audioChunkerRef := None;
     mediaStreamRef := None; errorRef := errorRef w;
     eventCleanupRef := eventCleanupRef w;
     fallbackOpenAIRef := fallbackOpenAIRef w;
     fallbackElevenLabsRef := fallbackElevenLabsRef w;
     usingFallbackRef := usingFallbackRef w;
     poolOpenAI := poolOpenAI w; poolElevenLabs := poolElevenLabs w;
     effects := effects w |}.

Definition cleanup (w : Hook) : Hook :=
  let w := cleanupEventListeners w in
  let w := stopAudio w in
  if usingFallbackRef w then
    let w :=
      emit (match fallbackOpenAIRef w with
            | Some a => [Disconnect a] | None => [] end) w in
    let w :=
      emit (match fallbackElevenLabsRef w with
            | Some a => [Disconnect a] | None => [] end) w in
    {| store := store w; recordingCycleRef := recordingCycleRef w;
       audioChunkerRef := audioChunkerRef w;
       mediaStreamRef := mediaStreamRef w; errorRef := errorRef w;
       eventCleanupRef := eventCleanupRef w;
       fallbackOpenAIRef := None;
       fallbackElevenLabsRef := None;
       usingFallbackRef := false;
       poolOpenAI := poolOpenAI w; poolElevenLabs := poolElevenLabs w;
       effects := effects w |}
  else w.

(** The first statements of [startRecording], up to [cleanup()]: the
    error is cleared and a new recording cycle is minted.  The result is
    the new state and [currentCycle]. *)
Definition startRecording_enter (w : Hook) : Hook * Z :=
  let currentCycle := recordingCycleRef w + 1 in
  let w :=
    {| store := store w; recordingCycleRef := currentCycle;
       audioChunkerRef := audioChunkerRef w;
       mediaStreamRef := mediaStreamRef w; errorRef := None;
       eventCleanupRef := eventCleanupRef w;
       fallbackOpenAIRef := fallbackOpenAIRef w;
       fallbackElevenLabsRef := fallbackElevenLabsRef w;
       usingFallbackRef := usingFallbackRef w;
       poolOpenAI := poolOpenAI w; poolElevenLabs := poolElevenLabs w;
       effects := effects w |} in
  (cleanup w, currentCycle).

Section WithConfig.

(** [appConfig.timeouts] *)
Variable finalizationMs : Z.
Variable maxRecordingMs : Z.

(** The scoring stages [computeScores] depends on. *)
Variable calculateSimilarity : str -> str -> float.
Variable detectFillers : str -> list Fluency.FillerCount.
Variable countTotalFillers : list Fluency.FillerCount -> Z.
Variable calculateStructure :
  str -> StructureMode -> option (list str) -> float * StructureBreakdown.
Variable costRates : ProviderId -> float.

Definition computeScores : ProviderId -> SessionState -> SessionState :=
  SessionStore.computeScores calculateSimilarity detectFillers
    countTotalFillers calculateStructure costRates.

(** The last statement of the [try] block of [startRecording]. *)
Definition startRecording_armTimeout (currentCycle : Z) (w : Hook) : Hook :=
  emit [SetTimeout (MaxRecordingTimeout currentCycle) maxRecordingMs] w.

Definition endAudioIfConnected (provider : ProviderId) (w : Hook) : Hook :=
  match (match provider with
         | openai => poolOpenAI w
         | elevenlabs => poolElevenLabs w
         end) with
  | Some true => emit [EndAudio provider] w
  | _ => w
  end.

Definition stopRecording (now : Z) (w : Hook) : Hook :=
  let cycleAtStop := recordingCycleRef w in
  let w := with_store (SessionStore.stopRecording now (store w)) w in
  let w := stopAudio w in
  let w := endAudioIfConnected openai w in
  let w := endAudioIfConnected elevenlabs w in
  emit [SetTimeout (FinalizationTimeout cycleAtStop) finalizationMs] w.

(** [committedText || interimText] *)
Definition bestKnown (t : TranscriptState) : str :=
  match committedText t with
  | _ :: _ => committedText t
  | [] => interimText t
  end.

(** One of the two blocks of the finalization callback: [state] is the
    store state read when the callback started. *)
Definition forceCompletion (provider : ProviderId) (state : SessionState)
  (w : Hook) : Hook :=
  let result := resultOf provider state in
  if ProviderStatus.eqb (status result) ProviderStatus.completed then w
  else
    match bestKnown (transcript result) with
    | [] => w
    | (_ :: _) as text =>
        let s :=
          updateProviderTranscript provider
            {| patch_interimText := None; patch_committedText := None;
               patch_finalText := Some text |} (store w) in
        with_store (computeScores provider s) w
    end.

(** The callback [stopRecording] hands to [setTimeout]. *)
Definition onFinalizationTimeout (cycleAtStop : Z) (w : Hook) : Hook :=
  if negb (recordingCycleRef w =? cycleAtStop) then w
  else
    let state := store w in
    let w := forceCompletion openai state w in
    let w := forceCompletion elevenlabs state w in
    let w := with_store (setRecordingCompleted (store w)) w in
    cleanupEventListeners w.

(** The callback [startRecording] hands to [setTimeout]. *)
Definition onMaxRecordingTimeout (now : Z) (currentCycle : Z) (w : Hook)
  : Hook :=
  if (recordingCycleRef w =? currentCycle)
     && RecordingState.eqb (recordingState (store w)) RecordingState.listening
  then stopRecording now w
  else w.

(** A timeout fires at time [now]. *)
Definition fire (now : Z) (t : Timeout) (w : Hook) : Hook :=
  match t with
  | FinalizationTimeout cycleAtStop => onFinalizationTimeout cycleAtStop w
  | MaxRecordingTimeout currentCycle =>
      onMaxRecordingTimeout now currentCycle w
  end.

End WithConfig.

(** *** The listeners of [setupProviderEvents]

    What an adapter reports to the hook.  [transcript_final] and
    [word_timing] carry what their listeners read when they run: the
    clock and the adapter's word timings. *)

Inductive AdapterEvent :=
| connection_state_change (currentState : string)
| transcript_interim (text : str)
| transcript_committed (text : str)
| transcript_final (text : str) (now : Z) (wordTimings : list WordTiming)
| word_timing (currentWords : list WordTiming)
| error (message : string).

Section Listeners.

Variable calculateSimilarity : str -> str -> float.
Variable detectFillers : str -> list Fluency.FillerCount.
Variable countTotalFillers : list Fluency.FillerCount -> Z.
Variable calculateStructure :
  str -> StructureMode -> option (list str) -> float * StructureBreakdown.
Variable costRates : ProviderId -> float.

(** The listener registered for each kind of event of the adapter of
    [providerId], as a function on the store.  [recordingStartTimeRef] is
    the time [startRecording] noted. *)
Definition setupProviderEvents (recordingStartTimeRef : Z)
  (providerId : ProviderId) (event : AdapterEvent) (state : SessionState)
  : SessionState :=
  match event with
  | connection_state_change currentState =>
      if String.eqb currentState "connected" then
        updateProviderStatus providerId ProviderStatus.listening state
      else if String.eqb currentState "error" then
        updateProviderStatus providerId ProviderStatus.error state
      else if String.eqb currentState "disconnected"
              || String.eqb currentState "closed" then
        let result := resultOf providerId state in
        if ProviderStatus.eqb (status result) ProviderStatus.listening
           || ProviderStatus.eqb (status result) ProviderStatus.processing
        then updateProviderStatus providerId ProviderStatus.error state
        else state
      else state
  | transcript_interim text =>
      updateProviderTranscript providerId
        {| patch_interimText := Some text; patch_committedText := None;
           patch_finalText := None |} state
  | transcript_committed text =>
      updateProviderTranscript providerId
        {| patch_interimText := None; patch_committedText := Some text;
           patch_finalText := None |} state
  | transcript_final text now wordTimings =>
      let duration := now - recordingStartTimeRef in
      let state :=
        updateProviderTranscript providerId
          {| patch_interimText := None; patch_committedText := None;
             patch_finalText := Some text |} state in
      let state := updateProviderDuration providerId duration state in
      let state :=
        updateProviderStatus providerId ProviderStatus.processing state in
      let state :=
        match wordTimings with
        | _ :: _ => updateProviderWords providerId wordTimings state
        | [] => state
        end in
      SessionStore.computeScores calculateSimilarity detectFillers
        countTotalFillers calculateStructure costRates providerId state
  | word_timing currentWords =>
      updateProviderWords providerId currentWords state
  | error message => setProviderError providerId message state
  end.

End Listeners.

End DualSTT.

(** ** providers/elevenlabsRealtime.ts

    The adapter extends [BaseProviderAdapter] (providers/base.ts), which is
    not part of the sources at hand.  The fields and the three helpers the
    handlers use from it are modelled below. *)

Module ElevenLabs.

Import JsString JsNumber.
Open Scope Z_scope.

Record TranscriptState := {
  interimText : str;
  committedText : str;
  finalText : str;
  isFinal : bool
}.

(** The partial transcript object given to [updateTranscript]. *)
Record TranscriptUpdate := {
  upd_interimText : option str;
  upd_committedText : option str;
  upd_finalText : option str;
  upd_isFinal : option bool
}.

Record WordTiming := {
  word : str;
  startMs : float;
  endMs : float;
  confidence : option float
}.

Inductive Status := idle | connecting | listening | processing | completed
                  | error.

Record Adapter := {
  transcript : TranscriptState;
  wordTimings : list WordTiming;
  _status : Status;
  completedAt : option Z;
  sessionStarted : bool;
  errors : list str
}.

(** *** Messages of the vendor *)

Record ElevenLabsWordInfo := {
  wi_word : str;
  wi_start : float;       (* seconds *)
  wi_end : float;         (* seconds *)
  wi_confidence : option float
}.

Inductive ErrorKind :=
| scribeError | scribeAuthError | scribeQuotaExceededError
| scribeThrottledError | scribeRateLimitedError | scribeInputError
| input_error.

Inductive ElevenLabsEvent :=
| session_started (session_id : option str)
| partial_transcript (text : str)
| committed_transcript (text : str)
| committed_transcript_with_timestamps
    (text : str) (words : option (list ElevenLabsWordInfo))
| error_event (message_type : ErrorKind) (code message error : option str)
| unknown_event (message_type : str).

(** What arrives on the socket: binary data, text that is not JSON, or a
    parsed event. *)
Inductive Incoming :=
| Binary
| Unparseable
| Json (event : ElevenLabsEvent).

(** *** Events the adapter emits *)

Inductive Emitted :=
| ev_connection_state_change (previousState currentState reason : string)
| ev_transcript_interim (text : str) (state : TranscriptState)
| ev_transcript_committed (text : str) (state : TranscriptState)
| ev_transcript_final (text : str) (state : TranscriptState)
| ev_word_timing (w : WordTiming)
| ev_error (code message : str) (recoverable : bool).

(** *** Helpers of the base class *)

(** Modelled from the spec: [updateTranscript] of providers/base.ts
    merges the given fields into the adapter's transcript state
    (interim, committed and final text), as the store's
    [updateProviderTranscript] does. *)
Definition updateTranscript (u : TranscriptUpdate) (a : Adapter) : Adapter :=
  let t := transcript a in
  {| transcript :=
       {| interimText :=
            match upd_interimText u with
            | Some x => x | None => interimText t end;
          committedText :=
            match upd_committedText u with
            | Some x => x | None => committedText t end;
          finalText :=
            match upd_finalText u with
            | Some x => x | None => finalText t end;
          isFinal :=
            match upd_isFinal u with Some x => x | None => isFinal t end |};
     wordTimings := wordTimings a; _status := _status a;
     completedAt := completedAt a; sessionStarted := sessionStarted a;
     errors := errors a |}.

(** Modelled from the spec: [addError] of providers/base.ts records the
    message. *)
Definition addError (msg : str) (a : Adapter) : Adapter :=
  {| transcript := transcript a; wordTimings := wordTimings a;
     _status := _status a; completedAt := completedAt a;
     sessionStarted := sessionStarted a; errors := errors a ++ [msg] |}.

(** Modelled from the spec: [addWordTiming] of providers/base.ts appends
    to the word timings, an append-only list. *)
Definition addWordTiming (w : WordTiming) (a : Adapter) : Adapter :=
  {| transcript := transcript a; wordTimings := wordTimings a ++ [w];
     _status := _status a; completedAt := completedAt a;
     sessionStarted := sessionStarted a; errors := errors a |}.

Definition set_status (s : Status) (at_ : option Z) (a : Adapter) : Adapter :=
  {| transcript := transcript a; wordTimings := wordTimings a;
     _status := s;
     completedAt := match at_ with Some t => Some t | None => completedAt a end;
     sessionStarted := sessionStarted a; errors := errors a |}.

(** *** Event handlers

    A handler returns the adapter after the event and the events it
    emitted, in order. *)

Definition handleSessionStarted (a : Adapter) : Adapter * list Emitted :=
  ({| transcript := transcript a; wordTimings := wordTimings a;
      _status := _status a; completedAt := completedAt a;
      sessionStarted := true; errors := errors a |},
   [ev_connection_state_change "connecting" "connected" "Session started"]).

Definition partialUpdate (text : str) : TranscriptUpdate :=
  {| upd_interimText := Some text; upd_committedText := None;
     upd_finalText := None; upd_isFinal := Some false |}.

Definition handlePartialTranscript (text : str) (a : Adapter)
  : Adapter * list Emitted :=
  let a := updateTranscript (partialUpdate text) a in
  (a, [ev_transcript_interim text (transcript a)]).

Definition committedUpdate (text : str) (a : Adapter) : TranscriptUpdate :=
  {| upd_interimText := Some [];
     upd_committedText :=
       Some (committedText (transcript a) ++ text ++ L " ");
     upd_finalText := Some text;
     upd_isFinal := Some true |}.

Definition handleCommittedTranscript (now : Z) (text : str) (a : Adapter)
  : Adapter * list Emitted :=
  let a := updateTranscript (committedUpdate text a) a in
  let e1 := ev_transcript_committed text (transcript a) in
  let e2 :=
    ev_transcript_final (trim (committedText (transcript a))) (transcript a) in
  (set_status completed (Some now) a, [e1; e2]).

Definition same_timing (w v : WordTiming) : bool :=
  (if list_eq_dec ascii_dec (word w) (word v) then true else false)
  && strict_eq (startMs w) (startMs v)
  && strict_eq (endMs w) (endMs v).

Fixpoint processWordTimings (words : list ElevenLabsWordInfo) (a : Adapter)
  : Adapter * list Emitted :=
  match words with
  | [] => (a, [])
  | wordInfo :: rest =>
      let wordTiming :=
        {| word := wi_word wordInfo;
           startMs := Math_round (wi_start wordInfo * 1000)%float;
           endMs := Math_round (wi_end wordInfo * 1000)%float;
           confidence := wi_confidence wordInfo |} in
      let exists_ := existsb (fun w => same_timing w wordTiming)
                       (wordTimings a) in
      if exists_ then processWordTimings rest a
      else
        let '(a', es) := processWordTimings rest (addWordTiming wordTiming a) in
        (a', ev_word_timing wordTiming :: es)
  end.

Definition handleCommittedTranscriptWithTimestamps (now : Z) (text : str)
  (words : option (list ElevenLabsWordInfo)) (a : Adapter)
  : Adapter * list Emitted :=
  let '(a, es) :=
    match words with
    | Some ((_ :: _) as ws) => processWordTimings ws a
    | _ => (a, [])
    end in
  let a := updateTranscript (committedUpdate text a) a in
  let e1 := ev_transcript_committed text (transcript a) in
  let e2 :=
    ev_transcript_final (trim (committedText (transcript a))) (transcript a) in
  (set_status completed (Some now) a, es ++ [e1; e2]).

Definition kind_name (k : ErrorKind) : str :=
  L (match k with
     | scribeError => "scribeError"
     | scribeAuthError => "scribeAuthError"
     | scribeQuotaExceededError => "scribeQuotaExceededError"
     | scribeThrottledError => "scribeThrottledError"
     | scribeRateLimitedError => "scribeRateLimitedError"
     | scribeInputError => "scribeInputError"
     | input_error => "input_error"
     end).

Definition upper_char (c : ascii) : ascii :=
  if in_range 97 122 c then ascii_of_nat (code c - 32) else c.

Fixpoint starts_with (p s : str) : bool :=
  match p, s with
  | [], _ => true
  | x :: p', y :: s' => Ascii.eqb x y && starts_with p' s'
  | _ :: _, [] => false
  end.

(** [s.includes(p)] *)
Fixpoint includes (s p : str) : bool :=
  starts_with p s
  || match s with
     | [] => false
     | _ :: tl => includes tl p
     end.

Definition isRecoverableError (code : str) : bool :=
  existsb (fun c => includes (map upper_char code) (L c))
    [ "RATE_LIMIT"; "TEMPORARY_ERROR"; "TIMEOUT"; "CONNECTION_LOST" ]%string.

Definition handleErrorEvent (k : ErrorKind) (code message error_ : option str)
  (a : Adapter) : Adapter * list Emitted :=
  let errorMessage :=
    or_else message (or_else error_ (L "Unknown ElevenLabs error")) in
  let errorCode := or_else code (kind_name k) in
  let a := addError errorMessage a in
  (set_status error None a,
   [ev_error errorCode errorMessage (isRecoverableError errorCode)]).

Definition handleMessage (now : Z) (data : Incoming) (a : Adapter)
  : Adapter * list Emitted :=
  match data with
  | Binary => (a, [])
  | Unparseable => (addError (L "Failed to parse ElevenLabs message") a, [])
  | Json event =>
      match event with
      | session_started _ => handleSessionStarted a
      | partial_transcript text => handlePartialTranscript text a
      | committed_transcript text => handleCommittedTranscript now text a
      | committed_transcript_with_timestamps text words =>
          handleCommittedTranscriptWithTimestamps now text words a
      | error_event k code message error_ =>
          handleErrorEvent k code message error_ a
      | unknown_event _ => (a, [])
      end
  end.

(** The transcript fields a message makes the adapter write: the object
    its handler gives to [updateTranscript], if it calls it. *)
Definition transcriptWrite (data : Incoming) (a : Adapter)
  : option TranscriptUpdate :=
  match data with
  | Json (partial_transcript text) => Some (partialUpdate text)
  | Json (committed_transcript text) => Some (committedUpdate text a)
  | Json (committed_transcript_with_timestamps text _) =>
      Some (committedUpdate text a)
  | _ => None
  end.

(** The messages of one recording cycle, handled in order of receipt
    (the [n]-th message arrives at time [now + n]). *)
Fixpoint run (now : Z) (msgs : list Incoming) (a : Adapter) : Adapter :=
  match msgs with
  | [] => a
  | m :: rest => run (now + 1) rest (fst (handleMessage now m a))
  end.

(** How often the messages of a cycle make the adapter set [finalText]. *)
Fixpoint finalTextWrites (now : Z) (msgs : list Incoming) (a : Adapter)
  : nat :=
  match msgs with
  | [] => 0
  | m :: rest =>
      (match transcriptWrite m a with
       | Some u => match upd_finalText u with Some _ => 1 | None => 0 end
       | None => 0
       end
       + finalTextWrites (now + 1) rest (fst (handleMessage now m a)))%nat
  end.

Definition isCommitted (m : Incoming) : bool :=
  match m with
  | Json (committed_transcript _)
  | Json (committed_transcript_with_timestamps _ _) => true
  | _ => false
  end.

(** An adapter at the start of a recording cycle. *)
Definition fresh : Adapter :=
  {| transcript := {| interimText := []; committedText := [];
                      finalText := []; isFinal := false |};
     wordTimings := []; _status := listening; completedAt := None;
     sessionStarted := true; errors := [] |}.

End ElevenLabs.

(** ** services/openaiChatScoring.ts

    [scoreWithOpenAI] either resolves at once or calls the chat endpoint;
    the call itself, and the parsing of its response, are outside the
    model.  The system prompt comes from prompts/promptLoader. *)

Module OpenAIChatScoring.

Import JsString.
Open Scope Z_scope.

Record OpenAIScoreRequest := {
  transcript : str;
  expectedAnswer : str;
  scenarioPrompt : str;
  structureMode : SessionStore.StructureMode
}.

Inductive Role := system | user | assistant.

Record ChatMessage := { role : Role; content : str }.

Inductive Outcome :=
| Resolved (result : SessionStore.OpenAIScoreResult)
| CallChatAPI (messages : list ChatMessage).

Definition formatStructureMode (mode : SessionStore.StructureMode) : str :=
  L (match mode with
     | SessionStore.full =>
         "Full radio transmission (callsigns + message + closing)"
     | SessionStore.ack_short => "Short acknowledgment format"
     | SessionStore.clarify_request => "Clarification request format"
     end).

Definition nl : str := [ascii_of_nat 10].

Definition buildUserPrompt (request : OpenAIScoreRequest) : str :=
  L "## EVALUATION REQUEST" ++ nl ++ nl
    ++ L "### Scenario:" ++ nl
    ++ scenarioPrompt request ++ nl ++ nl
    ++ L "### Structure Mode: "
    ++ formatStructureMode (structureMode request) ++ nl ++ nl
    ++ L "### Expected Response:" ++ nl
    ++ [RadioNormalize.dquote] ++ expectedAnswer request
    ++ [RadioNormalize.dquote] ++ nl ++ nl
    ++ L "### Trainee's Actual Response:" ++ nl
    ++ [RadioNormalize.dquote] ++ transcript request
    ++ [RadioNormalize.dquote] ++ nl ++ nl
    ++ L "Please evaluate the trainee's response and provide scores and feedback in the JSON format specified.".

(** The result for a request without speech. *)
Definition noResponse : SessionStore.OpenAIScoreResult :=
  {| SessionStore.ai_accuracy := 0;
     SessionStore.ai_fluency := 100;
     SessionStore.ai_structure := 0;
     SessionStore.ai_overall := 15;
     SessionStore.feedback :=
       "No response was detected. Please speak your answer clearly.";
     SessionStore.fillerWords := [];
     SessionStore.fillerCount := 0;
     SessionStore.radioProtocolNotes := Some "No response provided."%string |}.

Section WithPrompt.

(** [getScoringSystemPrompt()] *)
Variable scoringSystemPrompt : str.

Definition buildSystemPrompt : str := scoringSystemPrompt.

Definition scoreWithOpenAI (request : OpenAIScoreRequest) : Outcome :=
  match transcript request with
  | [] => Resolved noResponse
  | _ :: _ =>
      if List.length (trim (transcript request)) =? 0 then
        Resolved noResponse
      else
        CallChatAPI
          [ {| role := system; content := buildSystemPrompt |};
            {| role := user; content := buildUserPrompt request |} ]
  end%nat.

End WithPrompt.

(** *** Reading the scores of a response

    A value of the parsed JSON, as far as [clampScore] looks at it: a
    number, or anything else (a string, a boolean, [null], an object, an
    array, [undefined]). *)

Inductive JsonValue :=
| JsonNumber (value : float)
| JsonOther.

Definition clampScore (value : JsonValue) : float :=
  match value with
  | JsonNumber value =>
      if PrimFloat.is_nan value then 0%float
      else JsNumber.Math_max 0
             (JsNumber.Math_min 100 (JsNumber.Math_round value))
  | JsonOther => 0%float
  end.

End OpenAIChatScoring.

(** ** The actions of the session store as one step function

    Every synchronous action of state/sessionStore.ts, with its
    arguments; [step] applies one of them.  The scoring stages and the
    selection lock of the application configuration are parameters. *)

Module SessionActions.

Import JsString SessionStore.
Open Scope Z_scope.

Inductive Action :=
| LoadBank (bank : QuestionBank)
| SelectChoice (index : float)
| ClearChoice
| StartRecording (now : Z)
| StopRecording (now : Z)
| SetRecordingCompleted
| UpdateRecordingDuration (durationMs : Z)
| UpdateProviderStatus (provider : ProviderId) (s : ProviderStatus.t)
| UpdateProviderTranscript (provider : ProviderId) (p : TranscriptPatch)
| UpdateProviderWords (provider : ProviderId) (ws : list WordTiming)
| UpdateProviderDuration (provider : ProviderId) (durationMs : Z)
| SetProviderError (provider : ProviderId) (error : string)
| ResetProvider (provider : ProviderId)
| ComputeScores (provider : ProviderId)
| NextQuestion
| PreviousQuestion
| GoToQuestion (index : float)
| RepeatQuestion
| ResetSession
| ClearAll
| SetTestMode (mode : TestMode).

Section WithConfig.

Variable lockSelection : bool.
Variable calculateSimilarity : str -> str -> float.
Variable detectFillers : str -> list Fluency.FillerCount.
Variable countTotalFillers : list Fluency.FillerCount -> Z.
Variable calculateStructure :
  str -> StructureMode -> option (list str) -> float * StructureBreakdown.
Variable costRates : ProviderId -> float.

(** One action on the store; [None] when the action stores an index that
    is no integer (see [asIndex]). *)
Definition step (state : SessionState) (a : Action) : option SessionState :=
  match a with
  | LoadBank bank => Some (loadBank bank state)
  | SelectChoice index => selectChoice lockSelection index state
  | ClearChoice => Some (clearChoice state)
  | StartRecording now => Some (startRecording now state)
  | StopRecording now => Some (stopRecording now state)
  | SetRecordingCompleted => Some (setRecordingCompleted state)
  | UpdateRecordingDuration d => Some (updateRecordingDuration d state)
  | UpdateProviderStatus p s => Some (updateProviderStatus p s state)
  | UpdateProviderTranscript p patch =>
      Some (updateProviderTranscript p patch state)
  | UpdateProviderWords p ws => Some (updateProviderWords p ws state)
  | UpdateProviderDuration p d => Some (updateProviderDuration p d state)
  | SetProviderError p e => Some (setProviderError p e state)
  | ResetProvider p => Some (resetProvider p state)
  | ComputeScores p =>
      Some (computeScores calculateSimilarity detectFillers countTotalFillers
              calculateStructure costRates p state)
  | NextQuestion => Some (nextQuestion state)
  | PreviousQuestion => Some (previousQuestion state)
  | GoToQuestion index => goToQuestion index state
  | RepeatQuestion => Some (repeatQuestion state)
  | ResetSession => Some (resetSession state)
  | ClearAll => Some (clearAll state)
  | SetTestMode mode => Some (setTestMode mode state)
  end.

(** The state after a sequence of actions, from [state] on. *)
Fixpoint runFrom (state : SessionState) (actions : list Action)
  : option SessionState :=
  match actions with
  | [] => Some state
  | a :: actions =>
      match step state a with
      | Some state' => runFrom state' actions
      | None => None
      end
  end.

(** The state after a sequence of actions on a new store. *)
Definition run (actions : list Action) : option SessionState :=
  runFrom initialState actions.

End WithConfig.

End SessionActions.

(** ** state/sessionStore.ts: [scoreOpenEndedResponse]

    The action is [async]: it runs up to [await scoreWithOpenAI(...)] and
    is resumed with the outcome of that call. *)

Module OpenEnded.

Import JsString SessionStore.
Open Scope Z_scope.

(** How the first, synchronous piece ended. *)
Inductive Entered :=
| Returned
| AwaitingScore (request : OpenAIChatScoring.OpenAIScoreRequest).

(** The outcome of [scoreWithOpenAI]: a result, or an exception with its
    message ([None] for a thrown value that is not an [Error]). *)
Inductive ScoreOutcome :=
| Scored (result : OpenAIScoreResult)
| Threw (message : option string).

Definition set_isAIScoring (b : bool) (state : SessionState) : SessionState :=
  {| questionBank := questionBank state;
     currentQuestionIndex := currentQuestionIndex state;
     selectedChoiceIndex := selectedChoiceIndex state;
     recordingState := recordingState state;
     recordingDurationMs := recordingDurationMs state;
     recordingStartTime := recordingStartTime state;
     openaiResult := openaiResult state;
     elevenlabsResult := elevenlabsResult state;
     testMode := testMode state;
     openEndedResult := openEndedResult state;
     isAIScoring := b |}.

(** An expected answer that is [undefined] appears in the prompt as the
    template literal renders it. *)
Definition scoreOpenEndedResponse_enter (transcript : str)
  (state : SessionState) : SessionState * Entered :=
  match getCurrentQuestion state with
  | None => (state, Returned)
  | Some currentQuestion =>
      match transcript with
      | [] => (state, Returned)
      | _ :: _ =>
          if (List.length (trim transcript) =? 0)%nat then (state, Returned)
          else
            (set_isAIScoring true state,
             AwaitingScore
               {| OpenAIChatScoring.transcript := transcript;
                  OpenAIChatScoring.expectedAnswer :=
                    match expectedSpokenAnswer currentQuestion with
                    | Some e => e
                    | None => L "undefined"
                    end;
                  OpenAIChatScoring.scenarioPrompt := prompt currentQuestion;
                  OpenAIChatScoring.structureMode :=
                    structureMode currentQuestion |})
      end
  end.

Definition scoringFailed (message : option string) : OpenAIScoreResult :=
  {| ai_accuracy := 0;
     ai_fluency := 0;
     ai_structure := 0;
     ai_overall := 0;
     feedback :=
       String.append "Scoring failed: "
         match message with
         | Some m => m
         | None => "Unknown error"%string
         end;
     fillerWords := [];
     fillerCount := 0;
     radioProtocolNotes :=
       Some "Unable to evaluate due to scoring error."%string |}.

Definition scoreOpenEndedResponse_settled (outcome : ScoreOutcome)
  (state : SessionState) : SessionState :=
  {| questionBank := questionBank state;
     currentQuestionIndex := currentQuestionIndex state;
     selectedChoiceIndex := selectedChoiceIndex state;
     recordingState := RecordingState.completed;
     recordingDurationMs := recordingDurationMs state;
     recordingStartTime := recordingStartTime state;
     openaiResult := openaiResult state;
     elevenlabsResult := elevenlabsResult state;
     testMode := testMode state;
     openEndedResult :=
       Some match outcome with
            | Scored result => result
            | Threw message => scoringFailed message
            end;
     isAIScoring := false |}.

(** One whole call, with no other store action in between. *)
Definition scoreOpenEndedResponse
  (scoreWithOpenAI : OpenAIChatScoring.OpenAIScoreRequest -> ScoreOutcome)
  (transcript : str) (state : SessionState) : SessionState :=
  match scoreOpenEndedResponse_enter transcript state with
  | (state1, Returned) => state1
  | (state1, AwaitingScore request) =>
      scoreOpenEndedResponse_settled (scoreWithOpenAI request) state1
  end.

End OpenEnded.

(** ** The server's chat proxy: POST /api/openai/chat

    The handler validates the request and the configuration, calls the
    OpenAI Chat API once, and maps what comes back to its reply.  The
    call is a parameter: a response with its status (and, when it is not
    ok, the message of its error body if there is one), or an
    exception. *)

Module ChatProxy.

Import JsString.
Open Scope Z_scope.

Definition DEFAULT_MODEL : str := L "gpt-4o-mini".

(** [req.body]; [messages] is [None] when the field is absent or not an
    array. *)
Record ChatRequest := {
  messages : option (list OpenAIChatScoring.ChatMessage);
  model : option str;
  temperature : option float;
  max_tokens : option Z
}.

(** The body of the call of the OpenAI Chat API;
    [completion_response_format] is the [type] of [response_format]. *)
Record Completion := {
  completion_model : str;
  completion_messages : list OpenAIChatScoring.ChatMessage;
  completion_temperature : float;
  completion_max_tokens : Z;
  completion_response_format : str
}.

(** The body of the upstream response, as the handler reads it:
    reading it can fail ([response.text()] or [response.json()]
    rejects); the text may not be JSON; the JSON value may be [null],
    whose properties cannot be read; otherwise [errorMessage] is its
    [error?.message] and [data] its [choices] and [usage]. *)
Inductive Body :=
| Unreadable
| NotJson
| JsonNull
| Json (errorMessage : option str) (data : str).

(** What [await fetch(...)] gives: a response with its status and body,
    the abort of the timeout, or another failure. *)
Inductive Fetched :=
| Response (status : Z) (body : Body)
| AbortError
| OtherError.

Inductive Reply :=
| ErrorResponse (status : Z) (error code : str)
| Choices (data : str).

Definition statusOf (r : Reply) : Z :=
  match r with
  | ErrorResponse status _ _ => status
  | Choices _ => 200
  end.

(** The body [callChatAPI] of services/openaiChatScoring.ts posts:
    [{ messages }]. *)
Definition callChatAPI_body (messages : list OpenAIChatScoring.ChatMessage)
  : ChatRequest :=
  {| messages := Some messages; model := None; temperature := None;
     max_tokens := None |}.

(** [response.ok] *)
Definition ok (status : Z) : bool := (200 <=? status) && (status <=? 299).

Definition internalError : Reply :=
  ErrorResponse 500 (L "Internal server error") (L "INTERNAL_ERROR").

(** The handler after [fetch] has settled.  An upstream answer that is
    not ok is turned into an error whose message is the upstream's
    [error.message] when its text is JSON with one, and the default
    otherwise; the body of an ok answer is parsed with
    [response.json()], and its [choices] and [usage] are sent on.
    Whatever is thrown on the way, other than the abort of the timeout,
    ends in the last [catch]. *)
Definition respond (fetched : Fetched) : Reply :=
  match fetched with
  | Response status body =>
      if negb (ok status) then
        match body with
        | Unreadable => internalError
        | _ =>
            let errorMessage :=
              match body with
              | Json errorMessage _ =>
                  or_else errorMessage (L "OpenAI API error")
              | _ => L "OpenAI API error"
              end in
            ErrorResponse (if status >=? 500 then 502 else status)
              errorMessage
              (L "OPENAI_" ++ Number_toString (Z.to_nat status))
        end
      else
        match body with
        | Json _ data => Choices data
        | _ => internalError
        end
  | AbortError =>
      ErrorResponse 504 (L "OpenAI API request timed out") (L "TIMEOUT")
  | OtherError => internalError
  end.

(** The handler: its reply, and the calls of the OpenAI API it made. *)
Definition post (apiKey : option str) (fetch : Completion -> Fetched)
  (requestBody : ChatRequest) : Reply * list Completion :=
  match messages requestBody with
  | None =>
      (ErrorResponse 400 (L "Invalid request: messages array is required")
         (L "INVALID_REQUEST"), [])
  | Some [] =>
      (ErrorResponse 400
         (L "Invalid request: messages array cannot be empty")
         (L "INVALID_REQUEST"), [])
  | Some ((_ :: _) as msgs) =>
      match apiKey with
      | None | Some [] =>
          (ErrorResponse 500 (L "OpenAI API key not configured")
             (L "PROVIDER_NOT_CONFIGURED"), [])
      | Some ((_ :: _) as key) =>
          if negb (ElevenLabs.starts_with (L "sk-") key) then
            (ErrorResponse 500 (L "Invalid OpenAI API key configuration")
               (L "INVALID_CONFIGURATION"), [])
          else
            let call :=
              {| completion_model := or_else (model requestBody) DEFAULT_MODEL;
                 completion_messages := msgs;
                 completion_temperature :=
                   match temperature requestBody with
                   | Some t => t
                   | None => 0.3%float
                   end;
                 completion_max_tokens :=
                   match max_tokens requestBody with
                   | Some n => n
                   | None => 1000
                   end;
                 completion_response_format := L "json_object" |} in
            (respond (fetch call), [call])
      end
  end.

End ChatProxy.

(** ** App.tsx: the effect that starts the AI scoring

    The effect runs after a render in which one of its dependencies
    changed; [aiScoringEffect] gives, for the store state of that render,
    the transcript it passes to [scoreOpenEndedResponse], if it calls
    it. *)

Module App.

Import JsString SessionStore.

Definition aiScoringEffect (state : SessionState) : option str :=
  let isOpenEndedMode := testMode_eqb (testMode state) open_ended in
  if isOpenEndedMode
     && RecordingState.eqb (recordingState state) RecordingState.processing
     && ProviderStatus.eqb (status (openaiResult state))
          ProviderStatus.completed
     && negb (isAIScoring state)
     && negb (notNull (openEndedResult state))
  then
    let transcript :=
      first_nonempty (finalText (transcript (openaiResult state)))
        (committedText (transcript (openaiResult state))) [] in
    match transcript with
    | _ :: _ => Some transcript
    | [] => None
    end
  else None.

End App.

(* ====================================================================== *)
(** * Part II: the properties *)
(* ====================================================================== *)

(** ** Ranges of integers, checked by computation *)

Module Range.

Open Scope Z_scope.

(** [0; 1; ...; n-1] as integers. *)
Definition upto (n : nat) : list Z := map Z.of_nat (seq 0 n).

Lemma in_upto (n : nat) (z : Z) : 0 <= z < Z.of_nat n -> In z (upto n).
Proof.
  intros H. unfold upto.
  replace z with (Z.of_nat (Z.to_nat z)) by lia.
  apply in_map, in_seq. lia.
Qed.

Definition forall3 (n : nat) (p : Z -> Z -> Z -> bool) : bool :=
  forallb (fun a => forallb (fun b => forallb (p a b) (upto n)) (upto n))
    (upto n).

Lemma forall3_spec (n : nat) (p : Z -> Z -> Z -> bool) :
  forall3 n p = true ->
  forall a b c,
    0 <= a < Z.of_nat n -> 0 <= b < Z.of_nat n -> 0 <= c < Z.of_nat n ->
    p a b c = true.
Proof.
  unfold forall3. intros H a b c Ha Hb Hc.
  rewrite forallb_forall in H.
  specialize (H a (in_upto _ _ Ha)).
  rewrite forallb_forall in H.
  specialize (H b (in_upto _ _ Hb)).
  rewrite forallb_forall in H.
  exact (H c (in_upto _ _ Hc)).
Qed.

End Range.

(** ** Numbers: comparisons, clamping and rounding *)

Module JsNumberProps.

Import JsNumber.
Open Scope Z_scope.

(** Comparisons with the constants 0 and 100, read off the decoded
    number. *)
Definition decoded_100 : spec_float := Eval vm_compute in Prim2SF 100.

Lemma Prim2SF_100 : Prim2SF 100 = decoded_100.
Proof. vm_compute. reflexivity. Qed.

Lemma Prim2SF_0 : Prim2SF 0 = S754_zero false.
Proof. vm_compute. reflexivity. Qed.

Lemma is_nan_spec (x : float) :
  PrimFloat.is_nan x = negb (SFeqb (Prim2SF x) (Prim2SF x)).
Proof. unfold PrimFloat.is_nan. rewrite eqb_spec. reflexivity. Qed.

Ltac decode r :=
  rewrite ?is_nan_spec, ?ltb_spec, ?leb_spec, ?eqb_spec in *;
  rewrite ?Prim2SF_100, ?Prim2SF_0 in *;
  unfold decoded_100, SFltb, SFleb, SFeqb, SFcompare in *;
  destruct (Prim2SF r) as [s|s| |s m e]; try destruct s;
  rewrite ?Z.compare_refl, ?Pos.compare_refl in *.

(** Comparing the other way round gives the opposite answer. *)
Lemma SFcompare_antisym (x y : spec_float) :
  SFcompare y x = option_map CompOpp (SFcompare x y).
Proof.
  destruct x as [s|s| |s m e], y as [s'|s'| |s' m' e'];
    try destruct s; try destruct s'; try reflexivity;
    unfold SFcompare, option_map;
    change (Pos.compare_cont Eq m' m) with (Pos.compare m' m);
    change (Pos.compare_cont Eq m m') with (Pos.compare m m');
    rewrite (Z.compare_antisym e e'), (Pos.compare_antisym m m');
    destruct (e ?= e'); cbn [CompOpp]; try reflexivity;
    destruct (m ?= m')%positive; reflexivity.
Qed.

(** A number above zero is not below it. *)
Lemma ltb_zero_asym (x : float) :
  PrimFloat.ltb 0 x = true -> PrimFloat.ltb x 0 = false.
Proof.
  rewrite !ltb_spec.
  change (Prim2SF 0) with (S754_zero false).
  unfold SFltb, SFcompare.
  destruct (Prim2SF x) as [s|s| |s m e]; try destruct s; intros H;
    try reflexivity; discriminate H.
Qed.

(** [clamp r 0 100], that is [Math.max(0, Math.min(100, r))]. *)
Definition clamped (r : float) : float := Math_max 0 (Math_min 100 r).

Lemma clamped_nan (r : float) :
  PrimFloat.is_nan r = true -> clamped r = PrimFloat.nan.
Proof.
  intros H. unfold clamped, Math_min. rewrite H. reflexivity.
Qed.

Lemma clamped_below (r : float) :
  PrimFloat.ltb r 0 = true -> clamped r = 0%float.
Proof.
  intros H. unfold clamped.
  assert (N : PrimFloat.is_nan r = false) by (decode r; easy).
  assert (A : PrimFloat.ltb 100 r = false) by (decode r; easy).
  assert (B : PrimFloat.ltb 0 r = false) by (decode r; easy).
  assert (M : Math_min 100 r = r).
  { unfold Math_min. rewrite N, A. simpl.
    destruct (PrimFloat.ltb r 100); reflexivity. }
  rewrite M. unfold Math_max. rewrite N, B, H. reflexivity.
Qed.

Lemma clamped_above (r : float) :
  PrimFloat.ltb 100 r = true -> clamped r = 100%float.
Proof.
  intros H. unfold clamped.
  assert (N : PrimFloat.is_nan r = false) by (decode r; easy).
  assert (M : Math_min 100 r = 100%float).
  { unfold Math_min. rewrite N, H. reflexivity. }
  rewrite M. vm_compute. reflexivity.
Qed.

Lemma clamped_zero (r : float) :
  PrimFloat.eqb r 0 = true -> clamped r = 0%float.
Proof.
  intros H. unfold clamped.
  assert (N : PrimFloat.is_nan r = false) by (decode r; easy).
  assert (A : PrimFloat.ltb 100 r = false) by (decode r; easy).
  assert (B : PrimFloat.ltb 0 r = false) by (decode r; easy).
  assert (C : PrimFloat.ltb r 0 = false) by (decode r; easy).
  assert (M : Math_min 100 r = r).
  { unfold Math_min. rewrite N, A. simpl.
    destruct (PrimFloat.ltb r 100); reflexivity. }
  rewrite M. unfold Math_max. rewrite N, B, C. reflexivity.
Qed.

Lemma clamped_inside (r : float) :
  PrimFloat.ltb 0 r = true -> PrimFloat.leb r 100 = true -> clamped r = r.
Proof.
  intros H L. unfold clamped.
  assert (N : PrimFloat.is_nan r = false) by (decode r; easy).
  assert (A : PrimFloat.ltb 100 r = false).
  { rewrite leb_spec in L. rewrite ltb_spec.
    unfold SFleb in L. unfold SFltb. rewrite SFcompare_antisym.
    destruct (SFcompare (Prim2SF r) (Prim2SF 100)) as [[]|];
      try reflexivity; discriminate L. }
  assert (M : Math_min 100 r = r).
  { unfold Math_min. rewrite N, A. simpl.
    destruct (PrimFloat.ltb r 100); reflexivity. }
  rewrite M. unfold Math_max. rewrite N, H. reflexivity.
Qed.

(** A number that is not NaN is below 0, equal to 0, between 0 and 100,
    or above 100. *)
Lemma number_cases (r : float) :
  PrimFloat.is_nan r = false ->
  PrimFloat.ltb r 0 = true \/ PrimFloat.eqb r 0 = true
  \/ (PrimFloat.ltb 0 r = true /\ PrimFloat.leb r 100 = true)
  \/ PrimFloat.ltb 100 r = true.
Proof.
  intros N.
  destruct (PrimFloat.ltb r 0) eqn:A; [auto|].
  destruct (PrimFloat.eqb r 0) eqn:B; [auto|].
  destruct (PrimFloat.ltb 100 r) eqn:C; [auto|].
  right. right. left.
  assert (P : PrimFloat.ltb 0 r = true) by (decode r; easy).
  split; [exact P|].
  rewrite ltb_spec in C. rewrite leb_spec.
  unfold SFltb in C. unfold SFleb. rewrite SFcompare_antisym in C.
  revert N. rewrite is_nan_spec. unfold SFeqb.
  destruct (SFcompare (Prim2SF r) (Prim2SF 100)) as [[]|] eqn:Q;
    try reflexivity; try discriminate C.
  intros N. exfalso.
  rewrite Prim2SF_100 in Q. unfold decoded_100 in Q.
  destruct (Prim2SF r) as [s|s| |s m e]; try destruct s; discriminate.
Qed.

(** *** Rounding a number between 0 and 100 *)

Lemma digits2_pos_bound (m : positive) :
  Z.pos m < 2 ^ Z.pos (digits2_pos m).
Proof.
  induction m as [m IH|m IH|]; cbn [digits2_pos].
  - rewrite Pos2Z.inj_succ, Z.pow_succ_r by lia. lia.
  - rewrite Pos2Z.inj_succ, Z.pow_succ_r by lia. lia.
  - reflexivity.
Qed.

(** The mantissa of a binary64 number has at most 53 bits. *)
Lemma mantissa_bound (x : float) sg m e :
  Prim2SF x = S754_finite sg m e -> Z.pos m < 2 ^ 53.
Proof.
  intros E. pose proof (Prim2SF_valid x) as V. rewrite E in V.
  unfold valid_binary, SpecFloat.bounded, canonical_mantissa, fexp in V.
  apply andb_true_iff in V. destruct V as [V _]. apply Z.eqb_eq in V.
  pose proof (digits2_pos_bound m) as D.
  assert (Z.pos (digits2_pos m) <= 53) by (unfold FloatOps.prec in V; lia).
  apply (Z.lt_le_trans _ _ _ D). apply Z.pow_le_mono_r; lia.
Qed.

Lemma SFleb_finite m e m' e' :
  SFleb (S754_finite false m e) (S754_finite false m' e') = true ->
  e < e' \/ (e = e' /\ Z.pos m <= Z.pos m').
Proof.
  unfold SFleb, SFcompare.
  change (Pos.compare_cont Eq m m') with (Pos.compare m m').
  destruct (e ?= e') eqn:C; intros H.
  - apply Z.compare_eq_iff in C. right. split; [exact C|].
    destruct (m ?= m')%positive eqn:Cm; try discriminate H.
    + apply Pos.compare_eq_iff in Cm. subst m. apply Z.le_refl.
    + apply Pos.compare_lt_iff in Cm. apply Z.lt_le_incl.
      exact Cm.
  - apply Z.compare_lt_iff in C. auto.
  - discriminate H.
Qed.

Lemma round_small (m : positive) (k : Z) :
  0 < k -> Z.pos m < 101 * 2 ^ k - 2 ^ (k - 1) ->
  0 <= Z.shiftr (Z.pos m + Z.shiftl 1 (k - 1)) k <= 100.
Proof.
  intros Hk H.
  rewrite Z.shiftr_div_pow2, Z.shiftl_mul_pow2 by lia.
  assert (0 < 2 ^ k) by (apply Z.pow_pos_nonneg; lia).
  assert (0 < 2 ^ (k - 1)) by (apply Z.pow_pos_nonneg; lia).
  split.
  - apply Z.div_pos; lia.
  - apply Z.lt_succ_r. apply Z.div_lt_upper_bound; lia.
Qed.

Lemma Math_round_between (r : float) :
  PrimFloat.ltb 0 r = true -> PrimFloat.leb r 100 = true ->
  exists n, 0 <= n <= 100 /\ Math_round r = of_Z n.
Proof.
  intros P L. unfold Math_round.
  pose proof (mantissa_bound r) as MB.
  rewrite ltb_spec in P. rewrite leb_spec in L.
  rewrite Prim2SF_0 in P. rewrite Prim2SF_100 in L.
  unfold decoded_100 in L.
  destruct (Prim2SF r) as [s|s| |s m e]; try destruct s;
    try discriminate P; try discriminate L.
  specialize (MB false m e eq_refl).
  apply SFleb_finite in L.
  assert (E0 : (0 <=? e) = false) by (apply Z.leb_gt; lia).
  rewrite E0, andb_false_r.
  eexists. split; [|reflexivity].
  apply round_small; [lia|].
  assert (K' : 2 ^ (- e) = 2 * 2 ^ (- e - 1)).
  { rewrite <- Z.pow_succ_r by lia. f_equal. lia. }
  destruct L as [L | [-> L]].
  - assert (K : 2 ^ 47 <= 2 ^ (- e)) by (apply Z.pow_le_mono_r; lia).
    set (p := 2 ^ (- e)) in *. set (q := 2 ^ (- e - 1)) in *.
    change (2 ^ 47) with 140737488355328 in K.
    change (2 ^ 53) with 9007199254740992 in MB.
    lia.
  - change (- -46) with 46 in *. change (46 - 1) with 45 in *.
    change (2 ^ 46) with 70368744177664 in *.
    change (2 ^ 45) with 35184372088832 in *.
    lia.
Qed.

(** Clamping to [0,100] and rounding gives an integer of [0..100],
    whatever the number; only NaN stays NaN. *)
Lemma round_clamped_integer (w : float) :
  PrimFloat.is_nan (Math_round (clamped w)) = false ->
  exists n, 0 <= n <= 100 /\ Math_round (clamped w) = of_Z n.
Proof.
  destruct (PrimFloat.is_nan w) eqn:N.
  { rewrite (clamped_nan w N). vm_compute. discriminate. }
  intros _.
  destruct (number_cases w N) as [H | [H | [[H1 H2] | H]]].
  - rewrite (clamped_below w H). exists 0. split; [lia|].
    vm_compute. reflexivity.
  - rewrite (clamped_zero w H). exists 0. split; [lia|].
    vm_compute. reflexivity.
  - rewrite (clamped_inside w H1 H2). apply Math_round_between; assumption.
  - rewrite (clamped_above w H). exists 100. split; [lia|].
    vm_compute. reflexivity.
Qed.

End JsNumberProps.

(** ** The overall score *)

Module OverallProps.

Import JsNumber Overall.
Open Scope Z_scope.

(** Numbers are compared as values of the machine: [same a b] holds when
    [a] and [b] are the same binary64 number. *)
Definition same (a b : float) : bool := PrimFloat.Leibniz.eqb a b.

Lemma same_eq (a b : float) : same a b = true -> a = b.
Proof. apply FloatAxioms.Leibniz.eqb_spec. Qed.

(** On one triple of valid scores: the code gives the exactly rounded
    weighted sum, or, when the exact sum is halfway between two integers,
    possibly the integer below it. *)
Definition rounds (a f s : Z) : bool :=
  let r := calculateOverall (score a) (score f) (score s) in
  let exact := overall_spec a f s in
  if tenths a f s mod 10 =? 5
  then same r (score exact) || same r (score (exact - 1))
  else same r (score exact).

Lemma rounds_everywhere : Range.forall3 101 rounds = true.
Proof. vm_compute. reflexivity. Qed.

(** Whatever numbers are given as scores, the result is an integer of
    0..100, unless it is NaN: the weighted sum is clamped before it is
    rounded. *)
Lemma calculateOverall_integer (x y z : float) :
  PrimFloat.is_nan (calculateOverall x y z) = false ->
  exists n, 0 <= n <= 100 /\ calculateOverall x y z = score n.
Proof.
  unfold calculateOverall, clamp. cbv zeta.
  apply JsNumberProps.round_clamped_integer.
Qed.




(** At other ties the computed sum is exact and the half goes up. *)
Example calculateOverall_1_0_0 :
  tenths 1 0 0 mod 10 = 5
  /\ calculateOverall (score 1) (score 0) (score 0) = score 1.
Proof. split; vm_compute; reflexivity. Qed.

(** Scores outside [0,100] are clamped first. *)
Example calculateOverall_clamps :
  calculateOverall 250 (-40) 1000 = score 70
  /\ calculateOverall 99.6 99.6 99.6 = score 100
  /\ calculateOverall 82.5 82.5 82.5 = score 83
  /\ PrimFloat.is_nan (calculateOverall PrimFloat.nan 50 50) = true.
Proof. repeat split; vm_compute; reflexivity. Qed.

Example calculateOverall_0_100_0 :
  calculateOverall (score 0) (score 100) (score 0) = score 30.
Proof. vm_compute. reflexivity. Qed.

End OverallProps.

(** ** The fluency score *)

Module FluencyProps.

Import JsString Fluency.
Open Scope Z_scope.

Section WithFillers.

Variable detectFillers : str -> list FillerCount.
Variable countTotalFillers : list FillerCount -> Z.

Let score (t : str) : Z :=
  fst (calculateFluency detectFillers countTotalFillers t).
Let count (t : str) : Z := fillerCount detectFillers countTotalFillers t.

Lemma score_formula (t : str) : score t = 100 - Z.min 50 (5 * count t).
Proof.
  unfold score, count, calculateFluency, fillerCount. cbn [fst]. lia.
Qed.

(** C2. For every transcript, the fluency score is
    100 - min(50, 5 * fillerCount); hence a transcript with at least as
    many fillers never scores higher, and no score is below 50. *)
Theorem calculateFluency_score :
  (forall t, score t = 100 - Z.min 50 (5 * count t))
  /\ (forall t1 t2, count t1 <= count t2 -> score t2 <= score t1)
  /\ (forall t, 50 <= score t).
Proof.
  split; [exact score_formula|]. split.
  - intros t1 t2 H. rewrite !score_formula. lia.
  - intros t. rewrite score_formula. lia.
Qed.

End WithFillers.

(** A filler detector for the examples: every word of the transcript that
    is [um] or [uh] is one filler. *)
Fixpoint words_of (cur : str) (s : str) : list str :=
  match s with
  | [] => match cur with [] => [] | _ => [rev cur] end
  | c :: tl =>
      if is_space c
      then match cur with
           | [] => words_of [] tl
           | _ => rev cur :: words_of [] tl
           end
      else words_of (c :: cur) tl
  end.

Definition isFiller (w : str) : bool :=
  (if list_eq_dec ascii_dec w (L "um") then true else false)
  || (if list_eq_dec ascii_dec w (L "uh") then true else false).

Definition exampleDetect (t : str) : list FillerCount :=
  map (fun w => {| word := w; count := 1 |})
    (filter isFiller (words_of [] (toLowerCase t))).

Definition exampleCount (fs : list FillerCount) : Z :=
  fold_left (fun sum f => sum + count f) fs 0.

Lemma calculateFluency_score_witness :
  fst (calculateFluency exampleDetect exampleCount (L "um ATC uh Bowser One"))
    = 90
  /\ fst (calculateFluency exampleDetect exampleCount
            (L "um ATC uh Bowser One"))
     <= fst (calculateFluency exampleDetect exampleCount (L "ATC Bowser One"))
  /\ 50 <= fst (calculateFluency exampleDetect exampleCount
                  (L "um um um um um um um um um um um um")).
Proof.
  destruct (calculateFluency_score exampleDetect exampleCount)
    as [Hf [Hm Hb]].
  split; [rewrite Hf; reflexivity|].
  split; [apply Hm; vm_compute; discriminate | apply Hb].
Defined.

End FluencyProps.

(** ** Facts about the regular-expression engine *)

Module JsRegExpProps.

Import JsString JsRegExp.

(** *** What [replace] can produce *)

Section Preservation.

(** A property of characters, such as being lower case. *)
Variable ok : ascii -> bool.

Definition all_ok (s : str) : Prop := forallb ok s = true.

Lemma all_ok_app a b : all_ok a -> all_ok b -> all_ok (a ++ b).
Proof.
  unfold all_ok. intros Ha Hb. rewrite forallb_app, Ha, Hb. reflexivity.
Qed.

Lemma all_ok_cons c s : ok c = true -> all_ok s -> all_ok (c :: s).
Proof. unfold all_ok. simpl. intros -> ->. reflexivity. Qed.

Lemma all_ok_inv c s : all_ok (c :: s) -> ok c = true /\ all_ok s.
Proof. unfold all_ok. simpl. intros H. apply andb_true_iff in H. exact H. Qed.

Lemma all_ok_skipn n s : all_ok s -> all_ok (skipn n s).
Proof.
  revert s. induction n as [|n IH]; intros s H; [exact H|].
  destruct s as [|c s]; [exact H|]. simpl.
  apply IH. apply (all_ok_inv c s H).
Qed.

Lemma all_ok_firstn n s : all_ok s -> all_ok (firstn n s).
Proof.
  revert s. induction n as [|n IH]; intros s H; [reflexivity|].
  destruct s as [|c s]; [reflexivity|]. simpl.
  destruct (all_ok_inv c s H) as [Hc Hs].
  apply all_ok_cons; [exact Hc | apply IH, Hs].
Qed.

Lemma group_ok st rest i t :
  all_ok rest -> group st rest i = Some t -> all_ok t.
Proof.
  unfold group. intros H.
  destruct (find_cap i (m_caps st)) as [[start len]|]; [|discriminate].
  intros E. injection E as <-.
  apply all_ok_firstn, all_ok_skipn, H.
Qed.

(** A replacer that builds its text from the match and from characters
    that are [ok]. *)
Definition ok_replacer (f : replacer) : Prop :=
  forall m g,
    all_ok m -> (forall i t, g i = Some t -> all_ok t) -> all_ok (f m g).

Lemma replace_from_ok ic r f :
  ok_replacer f ->
  forall fuel prev rest,
    all_ok rest -> all_ok (replace_from ic r f fuel prev rest).
Proof.
  intros Hf. induction fuel as [|fuel IH]; intros prev rest H;
    [exact H|].
  simpl. destruct (exec ic r prev rest) as [st|].
  - assert (Ho : all_ok (f (firstn (m_pos st) rest) (group st rest))).
    { apply Hf; [apply all_ok_firstn, H|].
      intros i t. apply group_ok, H. }
    destruct (m_pos st) as [|n] eqn:E.
    + destruct rest as [|c tl]; [exact Ho|].
      destruct (all_ok_inv c tl H) as [Hc Ht].
      apply all_ok_app; [exact Ho|].
      apply all_ok_cons; [exact Hc | apply IH, Ht].
    + apply all_ok_app; [exact Ho|]. apply IH, all_ok_skipn, H.
  - destruct rest as [|c tl]; [reflexivity|].
    destruct (all_ok_inv c tl H) as [Hc Ht].
    apply all_ok_cons; [exact Hc | apply IH, Ht].
Qed.

(** [replace] keeps a property of characters that its replacer keeps. *)
Lemma replace_ok ic r f s :
  ok_replacer f -> all_ok s -> all_ok (replace ic r f s).
Proof. intros Hf H. apply replace_from_ok; assumption. Qed.

Lemma constant_ok v : all_ok v -> ok_replacer (constant v).
Proof. intros H m g _ _. exact H. Qed.

End Preservation.

(** *** Patterns of one character *)

Lemma replace_from_class p d fuel prev rest :
  List.length rest < fuel ->
  replace_from false (Class p) (constant [d]) fuel prev rest =
  map (fun c => if p c then d else c) rest.
Proof.
  revert prev rest. induction fuel as [|fuel IH]; intros prev rest H;
    [lia|].
  destruct rest as [|c tl]; [reflexivity|].
  simpl in H. cbn [replace_from exec matcher m_rest].
  destruct (p c) eqn:E.
  - cbn. rewrite E. f_equal. apply IH. lia.
  - cbn. rewrite E. f_equal. apply IH. lia.
Qed.

(** A global replacement of the characters of a class by one character
    is a map over the string. *)
Lemma replace_class p d s :
  replace false (Class p) (constant [d]) s =
  map (fun c => if p c then d else c) s.
Proof. apply replace_from_class. lia. Qed.

Lemma replace_char c0 d s :
  replace false (Char c0) (constant [d]) s =
  map (fun c => if Ascii.eqb c c0 then d else c) s.
Proof.
  unfold replace. generalize (Nat.lt_succ_diag_r (List.length s)).
  generalize (S (List.length s)) as fuel. generalize (@None ascii) as prev.
  intros prev fuel. revert prev s.
  induction fuel as [|fuel IH]; intros prev s H; [lia|].
  destruct s as [|c tl]; [reflexivity|].
  simpl in H. cbn [replace_from exec matcher m_rest].
  destruct (Ascii.eqb c c0) eqn:E; cbn; rewrite E; f_equal; apply IH; lia.
Qed.

(** *** [\s+] and the like: one or more characters of a class *)

Fixpoint run_length (p : ascii -> bool) (s : str) : nat :=
  match s with
  | c :: tl => if p c then S (run_length p tl) else 0
  | [] => 0
  end.

Fixpoint drop_run (p : ascii -> bool) (s : str) : str :=
  match s with
  | c :: tl => if p c then drop_run p tl else s
  | [] => []
  end.

Lemma skipn_run_length p s : skipn (run_length p s) s = drop_run p s.
Proof.
  induction s as [|c tl IH]; [reflexivity|]. simpl.
  destruct (p c); [exact IH | reflexivity].
Qed.

Lemma drop_run_length p s : List.length (drop_run p s) <= List.length s.
Proof.
  induction s as [|c tl IH]; [reflexivity|]. simpl.
  destruct (p c); simpl; lia.
Qed.

Definition class_step (p : ascii -> bool) (k : cont) (s : mstate)
  : option mstate :=
  match m_rest s with
  | x :: tl => if p x then k (advance x tl s) else None
  | [] => None
  end.

Lemma star_loop_class p step :
  (forall k s, step k s = class_step p k s) ->
  forall fuel s,
    List.length (m_rest s) <= fuel ->
    exists st,
      star_loop step fuel Some s = Some st
      /\ m_pos st = m_pos s + run_length p (m_rest s).
Proof.
  intros Hstep.
  induction fuel as [|fuel IH]; intros [prev rest pos caps] H;
    simpl in H.
  - destruct rest; [|simpl in H; lia].
    eexists. split; [reflexivity | simpl; lia].
  - cbn [star_loop]. rewrite Hstep. unfold class_step.
    cbn [m_rest m_pos].
    destruct rest as [|c tl].
    + eexists. split; [reflexivity | simpl; lia].
    + cbn [run_length]. destruct (p c) eqn:Ec.
      * unfold advance. cbn [m_pos m_caps m_rest m_prev].
        assert (N : (S pos =? pos) = false) by (apply Nat.eqb_neq; lia).
        rewrite N.
        destruct (IH {| m_prev := Some c; m_rest := tl; m_pos := S pos;
                        m_caps := caps |}) as [st [H1 H2]].
        { simpl. simpl in H. lia. }
        exists st. rewrite H1.
        split; [reflexivity|]. rewrite H2. simpl. lia.
      * eexists. split; [reflexivity | simpl; lia].
Qed.

Lemma star_class ic p fuel s :
  List.length (m_rest s) <= fuel ->
  exists st,
    star_loop (matcher ic (Class p)) fuel Some s = Some st
    /\ m_pos st = m_pos s + run_length p (m_rest s).
Proof. apply star_loop_class. reflexivity. Qed.

Lemma exec_plus_class ic p prev rest :
  match rest with
  | c :: tl =>
      if p c then
        exists st, exec ic (Plus (Class p)) prev rest = Some st
                   /\ m_pos st = S (run_length p tl)
      else exec ic (Plus (Class p)) prev rest = None
  | [] => exec ic (Plus (Class p)) prev rest = None
  end.
Proof.
  destruct rest as [|c tl]; [reflexivity|].
  unfold exec, Plus. cbn [matcher m_rest].
  destruct (p c) eqn:E; [|reflexivity].
  destruct (star_class ic p (List.length tl)
              (advance c tl {| m_prev := prev; m_rest := c :: tl;
                               m_pos := 0; m_caps := [] |}))
    as [st [H1 H2]]; [simpl; lia|].
  exists st. split; [exact H1 | exact H2].
Qed.

(** *** What a match is

    The texts a pattern matches, by the structure of the pattern:
    [lang ic r prev t after] says that [r] matches the text [t] when the
    character before it is [prev] and the input goes on with [after]. *)

(** The comparison of a character of the input with one of the pattern. *)
Definition char_eq (ic : bool) (x c : ascii) : bool :=
  if ic then Ascii.eqb (canonicalize x) (canonicalize c) else Ascii.eqb x c.

(** The character before the position that is reached from a position
    after [prev] by reading [t]. *)
Definition before (prev : option ascii) (t : str) : option ascii :=
  fold_left (fun _ c => Some c) t prev.

Definition boundary (prev next : option ascii) : bool :=
  negb (Bool.eqb (word_at prev) (word_at next)).

Inductive iter (L : option ascii -> str -> str -> Prop)
  : option ascii -> str -> str -> Prop :=
| iter_done prev after : iter L prev [] after
| iter_more prev t1 t2 after :
    L prev t1 (t2 ++ after) -> iter L (before prev t1) t2 after ->
    iter L prev (t1 ++ t2) after.

Fixpoint lang (ic : bool) (r : re) (prev : option ascii) (t after : str)
  {struct r} : Prop :=
  match r with
  | Empty => t = []
  | Char c => exists x, t = [x] /\ char_eq ic x c = true
  | Class p => exists x, t = [x] /\ p x = true
  | Seq a b =>
      exists t1 t2,
        t = t1 ++ t2 /\ lang ic a prev t1 (t2 ++ after)
        /\ lang ic b (before prev t1) t2 after
  | Alt a b => lang ic a prev t after \/ lang ic b prev t after
  | Star a => iter (lang ic a) prev t after
  | Opt a => t = [] \/ lang ic a prev t after
  | WordBoundary => t = [] /\ boundary prev (hd_error after) = true
  | Group _ a => lang ic a prev t after
  end.

Lemma before_app prev a b : before prev (a ++ b) = before (before prev a) b.
Proof. apply fold_left_app. Qed.

Lemma before_last prev c t : before prev (c :: t) = Some (last (c :: t) " "%char).
Proof.
  revert prev c. induction t as [|d t IH]; intros prev c; [reflexivity|].
  change (before prev (c :: d :: t)) with (before (Some c) (d :: t)).
  rewrite IH. reflexivity.
Qed.

(** The state a continuation is called with: [t] has been read. *)
Definition reached (s s' : mstate) (t : str) : Prop :=
  m_rest s = t ++ m_rest s' /\ m_prev s' = before (m_prev s) t
  /\ m_pos s' = m_pos s + List.length t.

Definition sound (L : option ascii -> str -> str -> Prop)
  (step : cont -> cont) : Prop :=
  forall k s st,
    step k s = Some st ->
    exists t s', reached s s' t /\ L (m_prev s) t (m_rest s')
                 /\ k s' = Some st.

Lemma reached_refl s : reached s s [].
Proof. repeat split. simpl. lia. Qed.

Lemma reached_trans s s1 s2 t1 t2 :
  reached s s1 t1 -> reached s1 s2 t2 -> reached s s2 (t1 ++ t2).
Proof.
  intros [A1 [A2 A3]] [B1 [B2 B3]]. split; [|split].
  - rewrite A1, B1, app_assoc. reflexivity.
  - rewrite B2, A2, before_app. reflexivity.
  - rewrite B3, A3, length_app. lia.
Qed.

Lemma star_loop_sound L step :
  sound L step -> forall fuel, sound (iter L) (fun k => star_loop step fuel k).
Proof.
  intros H. induction fuel as [|fuel IH]; intros k s st E.
  - exists [], s. split; [apply reached_refl|]. split; [constructor|exact E].
  - cbn [star_loop] in E. unfold or_try in E.
    match type of E with
    | match ?a with _ => _ end = _ => destruct a as [r|] eqn:E1
    end.
    + injection E as ->.
      destruct (H _ _ _ E1) as [t1 [s1 [R1 [L1 K1]]]].
      destruct (m_pos s1 =? m_pos s); [discriminate|].
      destruct (IH _ _ _ K1) as [t2 [s2 [R2 [L2 K2]]]].
      exists (t1 ++ t2), s2. split; [apply (reached_trans s s1); assumption|].
      split; [|exact K2].
      constructor.
      * destruct R2 as [R2 _]. rewrite <- R2. exact L1.
      * destruct R1 as [_ [R1 _]]. rewrite <- R1. exact L2.
    + exists [], s. split; [apply reached_refl|].
      split; [constructor|exact E].
Qed.

(** Whatever the matcher finds is a text of the pattern. *)
Lemma matcher_sound ic r : sound (lang ic r) (matcher ic r).
Proof.
  induction r as [|c|p|a IHa b IHb|a IHa b IHb|a IHa|a IHa| |i a IHa];
    intros k s st E; cbn [matcher] in E.
  - exists [], s. split; [apply reached_refl|]. split; [reflexivity|exact E].
  - destruct (m_rest s) as [|x tl] eqn:R; [discriminate|].
    fold (char_eq ic x c) in E.
    destruct (char_eq ic x c) eqn:C; [|discriminate].
    exists [x], (advance x tl s). split.
    + split; [exact R|]. split; [reflexivity|]. simpl. lia.
    + split; [exists x; auto | exact E].
  - destruct (m_rest s) as [|x tl] eqn:R; [discriminate|].
    destruct (p x) eqn:C; [|discriminate].
    exists [x], (advance x tl s). split.
    + split; [exact R|]. split; [reflexivity|]. simpl. lia.
    + split; [exists x; auto | exact E].
  - destruct (IHa _ _ _ E) as [t1 [s1 [R1 [L1 K1]]]].
    destruct (IHb _ _ _ K1) as [t2 [s2 [R2 [L2 K2]]]].
    exists (t1 ++ t2), s2. split; [apply (reached_trans s s1); assumption|].
    split; [|exact K2].
    exists t1, t2. split; [reflexivity|]. split.
    + destruct R2 as [R2 _]. rewrite <- R2. exact L1.
    + destruct R1 as [_ [R1 _]]. rewrite <- R1. exact L2.
  - unfold or_try in E.
    destruct (matcher ic a k s) as [r|] eqn:E1.
    + injection E as ->.
      destruct (IHa _ _ _ E1) as [t [s' [R [L K]]]].
      exists t, s'. split; [exact R|]. split; [left; exact L | exact K].
    + destruct (IHb _ _ _ E) as [t [s' [R [L K]]]].
      exists t, s'. split; [exact R|]. split; [right; exact L | exact K].
  - exact (star_loop_sound (lang ic a) (matcher ic a) IHa _ k s st E).
  - unfold or_try in E.
    match type of E with
    | match ?m with _ => _ end = _ => destruct m as [r|] eqn:E1
    end.
    + injection E as ->.
      destruct (IHa _ _ _ E1) as [t [s' [R [L K]]]].
      destruct (m_pos s' =? m_pos s); [discriminate|].
      exists t, s'. split; [exact R|]. split; [right; exact L | exact K].
    + exists [], s. split; [apply reached_refl|].
      split; [left; reflexivity | exact E].
  - destruct (at_boundary s) eqn:B; [|discriminate].
    exists [], s. split; [apply reached_refl|].
    split; [split; [reflexivity | exact B] | exact E].
  - destruct (IHa _ _ _ E) as [t [s' [R [L K]]]].
    exists t, (set_cap i (m_pos s) (m_pos s' - m_pos s) s').
    split; [exact R|]. split; [exact L | exact K].
Qed.

(** A match found at a position: the matched text is a text of the
    pattern, and the length of the match is its length. *)
Lemma exec_sound ic r prev rest st :
  exec ic r prev rest = Some st ->
  exists t after,
    rest = t ++ after /\ m_pos st = List.length t /\ lang ic r prev t after.
Proof.
  intros E. destruct (matcher_sound ic r _ _ _ E) as [t [s' [R [L K]]]].
  injection K as <-. destruct R as [R1 [R2 R3]]. simpl in *.
  exists t, (m_rest s'). auto.
Qed.

Lemma exec_firstn ic r prev rest st :
  exec ic r prev rest = Some st ->
  exists after,
    rest = firstn (m_pos st) rest ++ after
    /\ lang ic r prev (firstn (m_pos st) rest) after
    /\ skipn (m_pos st) rest = after
    /\ m_pos st <= List.length rest.
Proof.
  intros E. destruct (exec_sound _ _ _ _ _ E) as [t [after [R [P L]]]].
  assert (F : firstn (m_pos st) rest = t).
  { rewrite P, R, firstn_app, Nat.sub_diag, firstn_all. simpl.
    apply app_nil_r. }
  exists after. rewrite F. split; [exact R|]. split; [exact L|]. split.
  - rewrite P, R, skipn_app, Nat.sub_diag, skipn_all. reflexivity.
  - rewrite P, R, length_app. lia.
Qed.

(** *** Replacements that change nothing *)

(** Wherever the pattern matches in [text], the replacer gives back the
    matched text. *)
Definition fixes (ic : bool) (r : re) (f : replacer)
  (prev : option ascii) (text : str) : Prop :=
  forall a b st,
    text = a ++ b -> exec ic r (before prev a) b = Some st ->
    f (firstn (m_pos st) b) (group st b) = firstn (m_pos st) b.

Lemma fixes_later ic r f prev a text :
  fixes ic r f prev (a ++ text) -> fixes ic r f (before prev a) text.
Proof.
  intros H a' b st E X. apply (H (a ++ a') b st).
  - rewrite E, app_assoc. reflexivity.
  - rewrite before_app. exact X.
Qed.

Lemma replace_from_fixed ic r f fuel :
  forall prev text,
    fixes ic r f prev text -> List.length text < fuel ->
    replace_from ic r f fuel prev text = text.
Proof.
  induction fuel as [|fuel IH]; intros prev text H F; [lia|].
  cbn [replace_from].
  destruct (exec ic r prev text) as [st|] eqn:E.
  - pose proof (H [] text st eq_refl E) as Out. rewrite Out.
    destruct (exec_firstn _ _ _ _ _ E) as [after [R [_ [Sk Le]]]].
    destruct (m_pos st) as [|n] eqn:P.
    + destruct text as [|c tl]; [reflexivity|]. simpl. f_equal.
      apply IH; [|simpl in F; lia].
      apply (fixes_later ic r f prev [c] tl). exact H.
    + destruct (firstn (S n) text) as [|c m] eqn:Fm.
      { destruct text; [simpl in Le; lia | discriminate Fm]. }
      rewrite Sk. rewrite IH.
      * symmetry. exact R.
      * rewrite <- before_last with (prev := prev).
        apply fixes_later. rewrite <- R. exact H.
      * rewrite R, length_app in F. simpl in F. lia.
  - destruct text as [|c tl]; [reflexivity|]. f_equal.
    apply IH; [|simpl in F; lia].
    apply (fixes_later ic r f prev [c] tl). exact H.
Qed.

Lemma replace_fixed ic r f text :
  fixes ic r f None text -> replace ic r f text = text.
Proof. intros H. apply replace_from_fixed; [exact H | lia]. Qed.

End JsRegExpProps.

(** ** Whitespace: [replace(/\s+/g, ' ')] and [trim] *)

Module WhitespaceProps.

Import JsString JsRegExp JsRegExpProps RadioNormalize.

(** Every run of whitespace becomes one space; [in_run] says that the
    character before was whitespace. *)
Fixpoint squeeze (in_run : bool) (s : str) : str :=
  match s with
  | [] => []
  | c :: tl =>
      if is_space c then
        if in_run then squeeze true tl else " "%char :: squeeze true tl
      else c :: squeeze false tl
  end.

Lemma squeeze_drop_run s :
  squeeze true s = squeeze false (drop_run is_space s).
Proof.
  induction s as [|c tl IH]; [reflexivity|]. simpl.
  destruct (is_space c) eqn:E; [exact IH|]. simpl. rewrite E. reflexivity.
Qed.

Lemma replace_from_spaces fuel prev rest :
  List.length rest < fuel ->
  replace_from false s_plus (constant (L " ")) fuel prev rest =
  squeeze false rest.
Proof.
  revert prev rest. induction fuel as [|fuel IH]; intros prev rest H;
    [lia|].
  pose proof (exec_plus_class false is_space prev rest) as X.
  cbn [replace_from]. fold s_plus in X.
  destruct rest as [|c tl]; [rewrite X; reflexivity|].
  simpl in H. cbn [squeeze].
  destruct (is_space c) eqn:E.
  - destruct X as [st [X1 X2]]. rewrite X1, X2.
    cbn [skipn]. rewrite skipn_run_length.
    rewrite IH.
    + rewrite squeeze_drop_run. reflexivity.
    + pose proof (drop_run_length is_space tl). lia.
  - rewrite X. f_equal. apply IH. lia.
Qed.

(** [collapseSpaces] squeezes every run of whitespace into one space. *)
Lemma collapseSpaces_squeeze s : collapseSpaces s = squeeze false s.
Proof. apply replace_from_spaces. lia. Qed.

(** *** Strings with single spaces *)

(** Whitespace is the space character, and never follows whitespace. *)
Fixpoint single (after_space : bool) (s : str) : bool :=
  match s with
  | [] => true
  | c :: tl =>
      if is_space c
      then Ascii.eqb c " " && negb after_space && single true tl
      else single false tl
  end.

Lemma single_squeeze b s : single b (squeeze b s) = true.
Proof.
  revert b. induction s as [|c tl IH]; intros b; [reflexivity|]. simpl.
  destruct (is_space c) eqn:E.
  - destruct b; [apply IH|]. simpl. apply IH.
  - simpl. rewrite E. apply IH.
Qed.

Lemma single_weaken b s : single b s = true -> single false s = true.
Proof.
  destruct s as [|c tl]; [reflexivity|]. simpl.
  destruct (is_space c); [|auto]. destruct b; simpl.
  - rewrite andb_false_r. discriminate.
  - auto.
Qed.

Lemma squeeze_single b s : single b s = true -> squeeze b s = s.
Proof.
  revert b. induction s as [|c tl IH]; intros b H; [reflexivity|].
  simpl in *. destruct (is_space c) eqn:E.
  - apply andb_true_iff in H. destruct H as [H H2].
    apply andb_true_iff in H. destruct H as [H1 Hb].
    apply Ascii.eqb_eq in H1. subst c.
    destruct b; [discriminate|]. f_equal. apply IH, H2.
  - f_equal. apply IH, H.
Qed.

Lemma single_trimStart b s :
  single b s = true -> single false (trimStart s) = true.
Proof.
  revert b. induction s as [|c tl IH]; intros b H; [reflexivity|].
  simpl. destruct (is_space c) eqn:E.
  - simpl in H. rewrite E in H.
    apply andb_true_iff in H. destruct H as [_ H]. apply (IH true H).
  - apply (single_weaken b). exact H.
Qed.

(** *** [trimEnd], one character at a time *)

Definition blank (s : str) : bool := forallb is_space s.

Lemma trimStart_app a b :
  trimStart (a ++ b) = if blank a then trimStart b else trimStart a ++ b.
Proof.
  induction a as [|c a IH]; [reflexivity|]. simpl.
  destruct (is_space c); [exact IH | reflexivity].
Qed.

Lemma blank_rev s : blank (rev s) = blank s.
Proof.
  unfold blank. induction s as [|c s IH]; [reflexivity|]. simpl.
  rewrite forallb_app, IH. simpl. rewrite andb_true_r. apply andb_comm.
Qed.

Lemma trimStart_blank s : blank s = true -> trimStart s = [].
Proof.
  induction s as [|c s IH]; [reflexivity|]. unfold blank. simpl.
  intros H. apply andb_true_iff in H. destruct H as [-> H]. apply IH, H.
Qed.

Lemma trimEnd_cons c s :
  trimEnd (c :: s) = if blank (c :: s) then [] else c :: trimEnd s.
Proof.
  unfold trimEnd. simpl rev. rewrite trimStart_app, blank_rev.
  unfold blank at 2. simpl forallb. fold (blank s).
  destruct (blank s) eqn:B.
  - simpl. rewrite andb_true_r.
    rewrite (trimStart_blank (rev s)) by (rewrite blank_rev; exact B).
    destruct (is_space c); reflexivity.
  - rewrite andb_false_r, rev_app_distr. reflexivity.
Qed.

Lemma blank_trimEnd s : blank (trimEnd s) = blank s.
Proof.
  induction s as [|c s IH]; [reflexivity|].
  rewrite trimEnd_cons. destruct (blank (c :: s)) eqn:B; [reflexivity|].
  unfold blank in *. simpl in *. rewrite IH. exact B.
Qed.

Lemma trimEnd_trimEnd s : trimEnd (trimEnd s) = trimEnd s.
Proof.
  induction s as [|c s IH]; [reflexivity|].
  rewrite trimEnd_cons. destruct (blank (c :: s)) eqn:B; [reflexivity|].
  rewrite trimEnd_cons.
  assert (B' : blank (c :: trimEnd s) = false).
  { unfold blank in *. simpl in *. fold (blank (trimEnd s)).
    rewrite blank_trimEnd. exact B. }
  rewrite B', IH. reflexivity.
Qed.

Lemma trimStart_trimStart s : trimStart (trimStart s) = trimStart s.
Proof.
  induction s as [|c s IH]; [reflexivity|]. simpl.
  destruct (is_space c) eqn:E; [exact IH|]. simpl. rewrite E. reflexivity.
Qed.

Lemma trimStart_trimEnd s :
  trimStart s = s -> trimStart (trimEnd s) = trimEnd s.
Proof.
  destruct s as [|c s]; [reflexivity|]. intros H.
  assert (E : is_space c = false).
  { simpl in H. destruct (is_space c) eqn:E; [|reflexivity].
    exfalso. clear E.
    assert (List.length (trimStart s) <= List.length s).
    { clear H. induction s as [|d s IH]; [reflexivity|]. simpl.
      destruct (is_space d); simpl; lia. }
    rewrite H in H0. simpl in H0. lia. }
  rewrite trimEnd_cons. unfold blank. simpl. rewrite E. simpl.
  rewrite E. reflexivity.
Qed.

Lemma single_trimEnd b s :
  single b s = true -> single b (trimEnd s) = true.
Proof.
  revert b. induction s as [|c s IH]; intros b H; [reflexivity|].
  rewrite trimEnd_cons. destruct (blank (c :: s)); [reflexivity|].
  simpl in *. destruct (is_space c).
  - apply andb_true_iff in H. destruct H as [H1 H2].
    rewrite H1. apply IH, H2.
  - apply IH, H.
Qed.

(** *** Tidy strings: the fixed points of [trim] after [collapseSpaces] *)

Definition tidy (s : str) : Prop :=
  single false s = true /\ trimStart s = s /\ trimEnd s = s.

Definition squish (s : str) : str := trim (collapseSpaces s).

Lemma tidy_squish s : tidy (squish s).
Proof.
  unfold squish, trim. rewrite collapseSpaces_squeeze.
  split; [|split].
  - apply single_trimEnd. apply (single_trimStart false).
    apply single_squeeze.
  - apply trimStart_trimEnd, trimStart_trimStart.
  - apply trimEnd_trimEnd.
Qed.

Lemma squish_tidy s : tidy s -> squish s = s.
Proof.
  intros [H1 [H2 H3]]. unfold squish, trim.
  rewrite collapseSpaces_squeeze, (squeeze_single false s H1), H2, H3.
  reflexivity.
Qed.

(** Collapsing and trimming twice is collapsing and trimming once. *)
Lemma squish_idempotent s : squish (squish s) = squish s.
Proof. apply squish_tidy, tidy_squish. Qed.

(** *** Collapsing and trimming keep a property of characters *)

Section Preservation.

Variable ok : ascii -> bool.
Hypothesis ok_space : ok " " = true.

Lemma squeeze_ok b s : all_ok ok s -> all_ok ok (squeeze b s).
Proof.
  revert b. induction s as [|c s IH]; intros b H; [reflexivity|].
  destruct (all_ok_inv ok c s H) as [Hc Hs]. simpl.
  destruct (is_space c).
  - destruct b; [apply IH, Hs|].
    apply all_ok_cons; [exact ok_space | apply IH, Hs].
  - apply all_ok_cons; [exact Hc | apply IH, Hs].
Qed.

Lemma trimStart_ok s : all_ok ok s -> all_ok ok (trimStart s).
Proof.
  induction s as [|c s IH]; intros H; [reflexivity|]. simpl.
  destruct (is_space c); [|exact H].
  apply IH. apply (all_ok_inv ok c s H).
Qed.

Lemma trimEnd_ok s : all_ok ok s -> all_ok ok (trimEnd s).
Proof.
  induction s as [|c s IH]; intros H; [reflexivity|].
  rewrite trimEnd_cons. destruct (blank (c :: s)); [reflexivity|].
  destruct (all_ok_inv ok c s H) as [Hc Hs].
  apply all_ok_cons; [exact Hc | apply IH, Hs].
Qed.

Lemma squish_ok s : all_ok ok s -> all_ok ok (squish s).
Proof.
  intros H. unfold squish, trim. rewrite collapseSpaces_squeeze.
  apply trimEnd_ok, trimStart_ok, squeeze_ok, H.
Qed.

End Preservation.

End WhitespaceProps.

(** ** Transcript normalization *)

Module RadioNormalizeProps.

Import JsString JsRegExp JsRegExpProps WhitespaceProps RadioNormalize.

(** *** The tests of radioNormalize.test.ts *)

Definition normalizes (input expected : string) : bool :=
  if list_eq_dec ascii_dec (normalizeRadioTranscript (L input)) (L expected)
  then true else false.

Example test_basic_normalization :
  forallb (fun t => normalizes (fst t) (snd t))
    [ ("ATC", "atc"); ("Bowser One", "bowser one");
      ("ATC, hello.", "atc hello"); ("It's working!", "it s working");
      ("hello   world", "hello world");
      ("  leading and trailing  ", "leading and trailing");
      ("seven-zero", "seven zero"); ("x-ray", "x ray") ]%string = true.
Proof. vm_compute. reflexivity. Qed.

Example test_digit_to_word :
  forallb (fun t => normalizes (fst t) (snd t))
    [ ("Bowser 1", "bowser one"); ("Hotel 70", "hotel seven zero");
      ("Echo 6", "echo six"); ("runway 27", "runway two seven");
      ("runway 09", "runway zero nine");
      ("taxiway Alpha 3", "taxiway alpha three");
      ("heading 270", "heading two seven zero");
      ("altitude 5000", "altitude five zero zero zero");
      ("squawk 1234", "squawk one two three four");
      ("niner", "nine"); ("Bowser niner", "bowser nine") ]%string = true.
Proof. vm_compute. reflexivity. Qed.

Example test_compound_numbers :
  forallb (fun t => normalizes (fst t) (snd t))
    [ ("ten", "one zero"); ("eleven", "one one"); ("fifteen", "one five");
      ("nineteen", "one nine"); ("twenty", "two zero");
      ("thirty", "three zero"); ("ninety", "nine zero");
      ("twenty seven", "two seven"); ("thirty five", "three five");
      ("forty two", "four two");
      ("runway twenty seven", "runway two seven") ]%string = true.
Proof. vm_compute. reflexivity. Qed.

Example test_radio_phrases :
  forallb (fun t => normalizes (fst t) (snd t))
    [ ("roger that", "roger"); ("Roger That", "roger");
      ("copy that", "copy"); ("ground control", "ground") ]%string = true.
Proof. vm_compute. reflexivity. Qed.

Example test_full_transmission :
  areTranscriptsEquivalent
    (L "ATC, Bowser One, request permission to taxi to runway two seven, over.")
    (L "ATC Bowser 1, request permission to taxi to runway 27, over") = true
  /\ areTranscriptsEquivalent
       (L "ATC, Bowser One, request permission to taxi to runway two seven, over.")
       (L "ATC Bowser 1, request permission to taxi to runway 25, over")
     = false.
Proof. split; vm_compute; reflexivity. Qed.

(** C4. Normalization equates the digit and the spoken form of a number
    (Bowser 1 and Bowser One; runway 27, runway two seven and runway
    twenty seven) and keeps different numbers apart (runway 27 and
    runway 25; Bowser One and Bowser Two). *)
Theorem digit_and_word_forms_agree :
  normalizeRadioTranscript (L "Bowser 1")
    = normalizeRadioTranscript (L "Bowser One")
  /\ normalizeRadioTranscript (L "runway 27")
     = normalizeRadioTranscript (L "runway two seven")
  /\ normalizeRadioTranscript (L "runway twenty seven")
     = normalizeRadioTranscript (L "runway two seven")
  /\ normalizeRadioTranscript (L "runway 27")
     <> normalizeRadioTranscript (L "runway 25")
  /\ normalizeRadioTranscript (L "Bowser One")
     <> normalizeRadioTranscript (L "Bowser Two").
Proof.
  split; [vm_compute; reflexivity|].
  split; [vm_compute; reflexivity|].
  split; [vm_compute; reflexivity|].
  split; vm_compute; discriminate.
Qed.

(** *** Characters of a normalized transcript *)

(** Unchanged by [toLowerCase]. *)
Definition lowfix (c : ascii) : bool := Ascii.eqb (lower_char c) c.

(** Lower case, and not a hyphen. *)
Definition plain (c : ascii) : bool :=
  lowfix c && negb (Ascii.eqb c "-").

(** Plain, and not one of the punctuation marks. *)
Definition clean (c : ascii) : bool := plain c && negb (is_punct c).

Lemma lower_char_lowfix c : lowfix (lower_char c) = true.
Proof.
  destruct c as [[|] [|] [|] [|] [|] [|] [|] [|]]; vm_compute; reflexivity.
Qed.

Lemma toLowerCase_lowfix s : all_ok lowfix (toLowerCase s).
Proof.
  induction s as [|c s IH]; [reflexivity|].
  apply all_ok_cons; [apply lower_char_lowfix | exact IH].
Qed.

Lemma map_fixed (ok : ascii -> bool) (f : ascii -> ascii) s :
  (forall c, ok c = true -> f c = c) -> all_ok ok s -> map f s = s.
Proof.
  intros Hf. induction s as [|c s IH]; intros H; [reflexivity|].
  destruct (all_ok_inv ok c s H) as [Hc Hs]. simpl.
  rewrite (Hf c Hc), (IH Hs). reflexivity.
Qed.

Lemma all_ok_weaken (ok ok' : ascii -> bool) s :
  (forall c, ok c = true -> ok' c = true) -> all_ok ok s -> all_ok ok' s.
Proof.
  intros Hw. induction s as [|c s IH]; intros H; [reflexivity|].
  destruct (all_ok_inv ok c s H) as [Hc Hs].
  apply all_ok_cons; [apply Hw, Hc | apply IH, Hs].
Qed.

Lemma plain_lowfix c : plain c = true -> lowfix c = true.
Proof. unfold plain. intros H. apply andb_true_iff in H. apply H. Qed.

Lemma clean_plain c : clean c = true -> plain c = true.
Proof. unfold clean. intros H. apply andb_true_iff in H. apply H. Qed.

Lemma toLowerCase_fixed s : all_ok lowfix s -> toLowerCase s = s.
Proof.
  apply map_fixed. intros c H. apply Ascii.eqb_eq. exact H.
Qed.

(** *** Hyphens and punctuation *)

Definition unhyphen (c : ascii) : ascii :=
  if Ascii.eqb c "-" then " "%char else c.

Definition unpunct (c : ascii) : ascii :=
  if is_punct c then " "%char else c.

Lemma normalizeHyphens_squish s :
  normalizeHyphens s = squish (map unhyphen s).
Proof.
  unfold normalizeHyphens, squish.
  change (L " ") with [" "%char]. rewrite replace_char. reflexivity.
Qed.

Lemma removePunctuation_squish s :
  removePunctuation s = squish (map unpunct s).
Proof.
  unfold removePunctuation, squish.
  change (L " ") with [" "%char]. rewrite replace_class. reflexivity.
Qed.

Lemma unhyphen_plain s : all_ok lowfix s -> all_ok plain (map unhyphen s).
Proof.
  induction s as [|c s IH]; intros H; [reflexivity|].
  destruct (all_ok_inv lowfix c s H) as [Hc Hs]. simpl.
  apply all_ok_cons; [|apply IH, Hs].
  unfold unhyphen, plain. destruct (Ascii.eqb c "-") eqn:E;
    [reflexivity|]. rewrite Hc, E. reflexivity.
Qed.

Lemma unpunct_clean s : all_ok plain s -> all_ok clean (map unpunct s).
Proof.
  induction s as [|c s IH]; intros H; [reflexivity|].
  destruct (all_ok_inv plain c s H) as [Hc Hs]. simpl.
  apply all_ok_cons; [|apply IH, Hs].
  unfold unpunct, clean. destruct (is_punct c) eqn:E;
    [reflexivity|]. rewrite Hc, E. reflexivity.
Qed.

Lemma unhyphen_fixed s : all_ok plain s -> map unhyphen s = s.
Proof.
  apply map_fixed. intros c H. unfold plain in H.
  apply andb_true_iff in H. destruct H as [_ H].
  unfold unhyphen. destruct (Ascii.eqb c "-"); [discriminate|reflexivity].
Qed.

Lemma unpunct_fixed s : all_ok clean s -> map unpunct s = s.
Proof.
  apply map_fixed. intros c H. unfold clean in H.
  apply andb_true_iff in H. destruct H as [_ H].
  unfold unpunct. destruct (is_punct c); [discriminate|reflexivity].
Qed.

(** *** The number and phrase rewrites keep a transcript plain *)

Definition table_ok (ok : ascii -> bool) (table : list (str * str)) : bool :=
  forallb (fun e => forallb ok (snd e)) table.

Lemma lookup_ok ok table key v :
  table_ok ok table = true -> lookup table key = Some v -> all_ok ok v.
Proof.
  induction table as [|[k w] table IH]; intros H E; [discriminate|].
  simpl in H. apply andb_true_iff in H. destruct H as [Hw Ht].
  simpl in E. destruct (list_eq_dec ascii_dec k key).
  - injection E as <-. exact Hw.
  - apply IH; assumption.
Qed.

Lemma or_else_ok ok a b :
  (forall v, a = Some v -> all_ok ok v) -> all_ok ok b ->
  all_ok ok (or_else a b).
Proof.
  intros Ha Hb. destruct a as [[|c tl]|]; simpl; auto.
Qed.

Lemma text_of_ok ok (g : nat -> option str) i :
  (forall i t, g i = Some t -> all_ok ok t) -> all_ok ok (text_of (g i)).
Proof.
  intros H. destruct (g i) eqn:E; [apply (H i), E | reflexivity].
Qed.

Lemma split_first_ok ok sep s : all_ok ok s -> all_ok ok (split_first sep s).
Proof.
  induction s as [|c s IH]; intros H; [reflexivity|]. simpl.
  destruct (Ascii.eqb c sep); [reflexivity|].
  destruct (all_ok_inv ok c s H) as [Hc Hs].
  apply all_ok_cons; [exact Hc | apply IH, Hs].
Qed.

Lemma join_ok ok sep parts :
  all_ok ok sep -> Forall (all_ok ok) parts -> all_ok ok (join sep parts).
Proof.
  intros Hsep H. induction H as [|p parts Hp Hps IH]; [reflexivity|].
  simpl. destruct parts as [|q parts]; [exact Hp|].
  apply all_ok_app; [exact Hp|]. apply all_ok_app; [exact Hsep | exact IH].
Qed.

Lemma toLowerCase_plain s : all_ok plain s -> toLowerCase s = s.
Proof.
  intros H. apply toLowerCase_fixed.
  apply (all_ok_weaken plain lowfix); [exact plain_lowfix | exact H].
Qed.

Lemma digitsToSpoken_plain digits :
  all_ok plain digits -> all_ok plain (digitsToSpoken digits).
Proof.
  intros H. unfold digitsToSpoken. apply join_ok; [reflexivity|].
  induction digits as [|d digits IH]; [constructor|].
  destruct (all_ok_inv plain d digits H) as [Hd Hs].
  constructor; [|apply IH, Hs].
  apply or_else_ok.
  - intros v. apply lookup_ok. reflexivity.
  - apply all_ok_cons; [exact Hd | reflexivity].
Qed.

Lemma tensReplacer_plain : ok_replacer plain tensReplacer.
Proof.
  intros m g Hm Hg. unfold tensReplacer.
  assert (H1 : all_ok plain (text_of (g 1))) by (apply text_of_ok, Hg).
  assert (Ht : all_ok plain
                 (or_else (lookup COMPOUND_NUMBERS (toLowerCase (text_of (g 1))))
                    (text_of (g 1)))).
  { apply or_else_ok; [|exact H1].
    intros v. apply lookup_ok. reflexivity. }
  destruct (g 2) as [[|c ones]|] eqn:E2; try exact Ht.
  assert (H2 : all_ok plain (c :: ones)) by (apply (Hg 2), E2).
  apply all_ok_app; [apply split_first_ok, Ht|].
  apply all_ok_app; [reflexivity|].
  apply or_else_ok.
  - intros v. apply lookup_ok. reflexivity.
  - apply or_else_ok; [|exact H2].
    intros v. apply lookup_ok. reflexivity.
Qed.

Lemma replaceWord_plain word by_ s :
  all_ok plain by_ -> all_ok plain s -> all_ok plain (replaceWord word by_ s).
Proof.
  intros Hb H. apply replace_ok; [apply constant_ok, Hb | exact H].
Qed.

Lemma fold_replaceWord_plain (value : str * str -> str) table s :
  (forall e, In e table -> all_ok plain (value e)) ->
  all_ok plain s ->
  all_ok plain
    (fold_left (fun result entry => replaceWord (fst entry) (value entry) result)
       table s).
Proof.
  revert s. induction table as [|e table IH]; intros s Hv H; [exact H|].
  simpl. apply IH.
  - intros e' He'. apply Hv. right. exact He'.
  - apply replaceWord_plain; [apply Hv; left; reflexivity | exact H].
Qed.

Lemma table_values_plain (value : str * str -> str) table :
  forallb (fun e => forallb plain (value e)) table = true ->
  forall e, In e table -> all_ok plain (value e).
Proof.
  intros H e He. rewrite forallb_forall in H. apply H, He.
Qed.

Lemma expandCompoundNumbers_plain s :
  all_ok plain s -> all_ok plain (expandCompoundNumbers s).
Proof.
  intros H. unfold expandCompoundNumbers. rewrite (toLowerCase_plain s H).
  apply (fold_replaceWord_plain snd).
  - apply table_values_plain. reflexivity.
  - apply replace_ok; [exact tensReplacer_plain | exact H].
Qed.

Lemma prefix_digits_plain (head : (nat -> option str) -> str) :
  (forall g, (forall i t, g i = Some t -> all_ok plain t) ->
             all_ok plain (head g)) ->
  forall i,
    ok_replacer plain
      (fun _match g => head g ++ L " " ++ digitsToSpoken (text_of (g i))).
Proof.
  intros Hh i m g Hm Hg.
  apply all_ok_app; [apply Hh, Hg|].
  apply all_ok_app; [reflexivity|].
  apply digitsToSpoken_plain, text_of_ok, Hg.
Qed.

Lemma normalizeRadioNumbers_plain s :
  all_ok plain s -> all_ok plain (normalizeRadioNumbers s).
Proof.
  intros H. unfold normalizeRadioNumbers.
  apply replace_ok.
  { apply (prefix_digits_plain (fun g => text_of (g 1))).
    intros g Hg. apply text_of_ok, Hg. }
  apply replace_ok.
  { intros m g Hm Hg.
    apply all_ok_app; [reflexivity|].
    apply all_ok_app; [apply text_of_ok, Hg|].
    apply all_ok_app; [reflexivity|].
    apply digitsToSpoken_plain, text_of_ok, Hg. }
  apply replace_ok.
  { intros m g Hm Hg. apply all_ok_app; [reflexivity|].
    apply digitsToSpoken_plain, text_of_ok, Hg. }
  apply replace_ok.
  { apply (prefix_digits_plain (fun g => text_of (g 1))).
    intros g Hg. apply text_of_ok, Hg. }
  apply (fold_replaceWord_plain
           (fun entry => text_of (lookup DIGIT_TO_WORD (snd entry)))).
  - apply table_values_plain. reflexivity.
  - apply expandCompoundNumbers_plain, H.
Qed.

Lemma normalizeRadioPhrases_plain s :
  all_ok plain s -> all_ok plain (normalizeRadioPhrases s).
Proof.
  intros H. unfold normalizeRadioPhrases.
  repeat (apply replace_ok; [apply constant_ok; reflexivity|]).
  exact H.
Qed.

(** *** A normalized transcript *)

(** Lower case, no hyphen, no punctuation, words separated by single
    spaces. *)
Definition normal (s : str) : Prop := all_ok clean s /\ tidy s.

Lemma squish_clean s : all_ok clean s -> all_ok clean (squish s).
Proof. apply squish_ok. reflexivity. Qed.

Lemma squish_plain s : all_ok plain s -> all_ok plain (squish s).
Proof. apply squish_ok. reflexivity. Qed.

(** The steps of [normalizeRadioTranscript] on a non-empty text. *)
Lemma normalizeRadioTranscript_steps c x :
  normalizeRadioTranscript (c :: x) =
  squish (removePunctuation
            (normalizeRadioPhrases
               (normalizeRadioNumbers
                  (normalizeHyphens (toLowerCase (c :: x)))))).
Proof.
  unfold normalizeRadioTranscript, squish. cbv beta iota zeta. reflexivity.
Qed.

(** Whatever the input, the result of normalization is [normal]. *)
Lemma normalizeRadioTranscript_normal x : normal (normalizeRadioTranscript x).
Proof.
  destruct x as [|c x].
  - unfold normalizeRadioTranscript, normal, tidy. cbv beta iota.
    repeat split.
  - rewrite normalizeRadioTranscript_steps.
    split; [|apply tidy_squish].
    apply squish_clean. rewrite removePunctuation_squish.
    apply squish_clean, unpunct_clean.
    apply normalizeRadioPhrases_plain, normalizeRadioNumbers_plain.
    rewrite normalizeHyphens_squish.
    apply squish_plain, unhyphen_plain, toLowerCase_lowfix.
Qed.

(** On a normal string, lower-casing, the hyphen step, the punctuation
    step and the final whitespace step do nothing. *)
Lemma normal_cleanup_stable y :
  normal y ->
  toLowerCase y = y /\ normalizeHyphens y = y /\ removePunctuation y = y
  /\ squish y = y.
Proof.
  intros [Hc Ht].
  assert (Hp : all_ok plain y)
    by (apply (all_ok_weaken clean plain); [exact clean_plain | exact Hc]).
  split; [apply toLowerCase_plain, Hp|].
  split; [rewrite normalizeHyphens_squish, (unhyphen_fixed y Hp);
          apply squish_tidy, Ht|].
  split; [rewrite removePunctuation_squish, (unpunct_fixed y Hc);
          apply squish_tidy, Ht|].
  apply squish_tidy, Ht.
Qed.

(** *** Words of a text *)

(** [t] is [w], letter case apart. *)
Fixpoint spells (w t : str) : bool :=
  match w, t with
  | [], [] => true
  | c :: w', x :: t' => char_eq true x c && spells w' t'
  | _, _ => false
  end.

(** [x] begins with [w], letter case apart. *)
Fixpoint begins (w x : str) : bool :=
  match w, x with
  | [], _ => true
  | c :: w', d :: x' => char_eq true d c && begins w' x'
  | _ :: _, [] => false
  end.

(** A word of [x] begins with [w]: [w] occurs in [x], letter case apart,
    after a character that is no word character, or at the start;
    [prev] is the character before [x]. *)
Fixpoint word_begins (w : str) (prev : option ascii) (x : str) : bool :=
  (negb (word_at prev) && begins w x)
  || match x with
     | [] => false
     | c :: tl => word_begins w (Some c) tl
     end.

(** A lower-case letter of [a-z]. *)
Definition is_lower (c : ascii) : bool := in_range 97 122 c.

(** A non-empty word of lower-case letters. *)
Definition wordy (w : str) : bool :=
  match w with [] => false | _ => forallb is_lower w end.

Definition is_upper (c : ascii) : bool := in_range 65 90 c.

Ltac each_char c :=
  destruct c as [[|] [|] [|] [|] [|] [|] [|] [|]]; vm_compute;
  try reflexivity; try discriminate; auto.

Lemma canonicalize_lower c : is_lower c = true -> is_upper (canonicalize c) = true.
Proof. each_char c. Qed.

Lemma canonicalize_upper_word c :
  is_upper (canonicalize c) = true -> is_word c = true.
Proof. each_char c. Qed.

(** Only a word character compares equal to a letter. *)
Lemma char_eq_letter_word x c :
  is_lower c = true -> char_eq true x c = true -> is_word x = true.
Proof.
  intros Hc E. unfold char_eq in E. apply Ascii.eqb_eq in E.
  apply canonicalize_upper_word. rewrite E. apply canonicalize_lower, Hc.
Qed.

Lemma lower_canonicalize c : lowfix c = true -> lower_char (canonicalize c) = c.
Proof. each_char c. Qed.

(** On lower-case text, the comparison that ignores case is equality. *)
Lemma char_eq_lowfix x c :
  lowfix x = true -> lowfix c = true -> char_eq true x c = true -> x = c.
Proof.
  intros Hx Hc E. unfold char_eq in E. apply Ascii.eqb_eq in E.
  rewrite <- (lower_canonicalize x Hx), <- (lower_canonicalize c Hc), E.
  reflexivity.
Qed.

Lemma spells_lowfix w t :
  all_ok lowfix w -> all_ok lowfix t -> spells w t = true -> t = w.
Proof.
  revert t. induction w as [|c w IH]; intros [|x t] Hw Ht E;
    try reflexivity; try discriminate.
  simpl in E. apply andb_true_iff in E. destruct E as [E1 E2].
  destruct (all_ok_inv lowfix c w Hw) as [Hc Hw'].
  destruct (all_ok_inv lowfix x t Ht) as [Hx Ht'].
  rewrite (char_eq_lowfix x c Hx Hc E1), (IH t Hw' Ht' E2). reflexivity.
Qed.

Lemma spells_begins w t after : spells w t = true -> begins w (t ++ after) = true.
Proof.
  revert t. induction w as [|c w IH]; intros [|x t] E;
    try reflexivity; try discriminate.
  simpl in *. apply andb_true_iff in E. destruct E as [-> E].
  apply IH, E.
Qed.

Lemma begins_app w x t : begins w x = true -> begins w (x ++ t) = true.
Proof.
  revert x. induction w as [|c w IH]; intros [|d x] E;
    try reflexivity; try discriminate.
  simpl in *. apply andb_true_iff in E. destruct E as [-> E].
  apply IH, E.
Qed.

Lemma begins_word w x :
  wordy w = true -> begins w x = true -> word_at (hd_error x) = true.
Proof.
  destruct w as [|c w]; [discriminate|]. intros W.
  destruct x as [|d x]; [discriminate|]. simpl.
  intros E. apply andb_true_iff in E. destruct E as [E _].
  simpl in W. apply andb_true_iff in W. destruct W as [W _].
  apply (char_eq_letter_word d c W E).
Qed.

(** [word_begins] looks at the character before through [word_at] only. *)
Lemma word_begins_prev w p p' x :
  word_at p = word_at p' -> word_begins w p x = word_begins w p' x.
Proof. intros E. destruct x; simpl; rewrite E; reflexivity. Qed.

(** No word begins with [w] anywhere: then none does at any position. *)
Lemma no_word_here w p a b :
  word_begins w p (a ++ b) = false ->
  negb (word_at (before p a)) && begins w b = false
  /\ word_begins w (before p a) b = false.
Proof.
  revert p. induction a as [|c a IH]; intros p H.
  - simpl in *. split; [|exact H].
    destruct b; simpl in H; apply orb_false_iff in H; apply H.
  - simpl in H. apply orb_false_iff in H. destruct H as [_ H].
    apply (IH (Some c) H).
Qed.

Lemma word_begins_cons w p c x :
  word_begins w p (c :: x)
  = (negb (word_at p) && begins w (c :: x)) || word_begins w (Some c) x.
Proof. reflexivity. Qed.

Lemma word_begins_app w p a t :
  word_begins w p (a ++ t) = false -> word_begins w p a = false.
Proof.
  revert p. induction a as [|c a IH]; intros p H.
  - simpl. destruct (negb (word_at p)) eqn:E; [|reflexivity]. simpl.
    destruct w; [|reflexivity].
    destruct t; simpl in H; rewrite E in H; discriminate H.
  - change ((c :: a) ++ t) with (c :: (a ++ t)) in H.
    rewrite word_begins_cons in *.
    apply orb_false_iff in H. destruct H as [H1 H2].
    apply orb_false_iff. split; [|apply IH, H2].
    destruct (negb (word_at p)); [|reflexivity].
    rewrite andb_true_l in *.
    destruct (begins w (c :: a)) eqn:B; [|reflexivity].
    pose proof (begins_app w (c :: a) t B) as B'.
    change ((c :: a) ++ t) with (c :: (a ++ t)) in B'.
    rewrite B' in H1. discriminate.
Qed.

(** *** Texts of the patterns *)

Lemma lang_lit ic w prev t after :
  lang ic (lit w) prev t after ->
  ic = true -> spells w t = true.
Proof.
  intros H ->. revert prev t after H.
  induction w as [|c w IH]; intros prev t after H.
  - cbn [lit lang] in H. subst t. reflexivity.
  - destruct w as [|c' w].
    + cbn [lit lang] in H. destruct H as [x [-> E]].
      cbn [spells]. rewrite E. reflexivity.
    + change (lit (c :: c' :: w)) with (Seq (Char c) (lit (c' :: w))) in H.
      cbn [lang] in H.
      destruct H as [t1 [t2 [-> [[x [-> E]] H2]]]].
      cbn [spells app]. rewrite E. rewrite andb_true_l.
      apply (IH _ _ _ H2).
Qed.

Lemma lang_alts ws prev t after :
  lang true (alts ws) prev t after ->
  exists w, In w ws /\ spells w t = true.
Proof.
  induction ws as [|w ws IH]; intros H.
  - simpl in H. destruct H as [x [_ H]]. discriminate.
  - destruct ws as [|w' ws].
    + exists w. split; [left; reflexivity|].
      apply (lang_lit true w prev t after H eq_refl).
    + change (alts (w :: w' :: ws)) with (Alt (lit w) (alts (w' :: ws))) in H.
      cbn [lang] in H. destruct H as [H | H].
      * exists w. split; [left; reflexivity|].
        apply (lang_lit true w prev t after H eq_refl).
      * destruct (IH H) as [v [Hv E]]. exists v. split; [right; exact Hv | exact E].
Qed.

(** A pattern [\b X ...] whose [X] spells one of the words [ws]: where
    it matches, a word of the text begins with one of them. *)
Lemma lang_word_start X R ws prev t after :
  (forall p t a, lang true X p t a -> exists w, In w ws /\ spells w t = true) ->
  (forall w, In w ws -> wordy w = true) ->
  lang true (Seq WordBoundary (Seq X R)) prev t after ->
  exists w, In w ws
            /\ negb (word_at prev) && begins w (t ++ after) = true.
Proof.
  intros HX HW H. cbn [lang] in H.
  destruct H as [t0 [t' [-> [[-> B] [t1 [t2 [-> [H1 _]]]]]]]].
  destruct (HX _ _ _ H1) as [w [Hw E]].
  exists w. split; [exact Hw|].
  simpl in *. rewrite <- app_assoc.
  assert (Bg : begins w (t1 ++ t2 ++ after) = true)
    by (apply spells_begins, E).
  rewrite Bg, andb_true_r.
  rewrite <- app_assoc in B.
  pose proof (begins_word w _ (HW w Hw) Bg) as Wd.
  unfold boundary in B. rewrite Wd in B.
  destruct (word_at prev); [discriminate B | reflexivity].
Qed.

(** Such a pattern matches nowhere in a text none of whose words begins
    with one of [ws]. *)
Lemma word_start_unmatched X R ws f text :
  (forall p t a, lang true X p t a -> exists w, In w ws /\ spells w t = true) ->
  (forall w, In w ws -> wordy w = true) ->
  (forall w, In w ws -> word_begins w None text = false) ->
  replace true (Seq WordBoundary (Seq X R)) f text = text.
Proof.
  intros HX HW HN. apply replace_fixed. intros a b st -> E. exfalso.
  destruct (exec_sound _ _ _ _ _ E) as [t [after [-> [_ L]]]].
  destruct (lang_word_start X R ws _ _ _ HX HW L) as [w [Hw B]].
  destruct (no_word_here w None a (t ++ after) (HN w Hw)) as [N _].
  rewrite N in B. discriminate.
Qed.

Lemma lang_lit_one w p t a :
  lang true (lit w) p t a -> exists v, In v [w] /\ spells v t = true.
Proof.
  intros H. exists w. split; [left; reflexivity|].
  apply (lang_lit true w p t a H eq_refl).
Qed.

(** [\bw\b] by a text [v], where no word begins with [w]. *)
Lemma replaceWord_unmatched w v text :
  wordy w = true -> word_begins w None text = false ->
  replaceWord w v text = text.
Proof.
  intros W N. unfold replaceWord.
  change (seqs [b; lit w; b]) with (Seq WordBoundary (Seq (lit w) b)).
  apply (word_start_unmatched (lit w) b [w]).
  - apply lang_lit_one.
  - intros ? [<- | []]. exact W.
  - intros ? [<- | []]. exact N.
Qed.

(** [\bw\b] by [w] itself, on lower-case text. *)
Lemma replaceWord_same w text :
  all_ok lowfix w -> all_ok lowfix text -> replaceWord w w text = text.
Proof.
  intros W T. unfold replaceWord. apply replace_fixed.
  intros a b' st -> E. unfold constant.
  destruct (exec_firstn _ _ _ _ _ E) as [after [R [L _]]].
  change (seqs [b; lit w; b]) with (Seq WordBoundary (Seq (lit w) b)) in L.
  cbn [lang] in L.
  destruct L as [t0 [t' [Et [[-> _] [t1 [t2 [-> [H1 [-> _]]]]]]]]].
  simpl in Et. rewrite app_nil_r in Et. rewrite Et.
  symmetry. apply spells_lowfix.
  - exact W.
  - rewrite <- Et. apply all_ok_firstn.
    unfold all_ok in *. rewrite forallb_app in T.
    apply andb_true_iff in T. apply T.
  - apply (lang_lit true w _ _ _ H1 eq_refl).
Qed.

(** *** Patterns that need a digit *)

Definition no_digit (c : ascii) : bool := negb (is_digit c).

Definition has_digit (t : str) : Prop := exists c, In c t /\ is_digit c = true.

Lemma lang_digits i ic prev t after :
  lang ic (Group i d_plus) prev t after -> has_digit t.
Proof.
  cbn [lang]. unfold d_plus, Plus. cbn [lang].
  intros [t1 [t2 [-> [[x [-> D]] _]]]].
  exists x. split; [left; reflexivity | exact D].
Qed.

Lemma lang_seq_left ic a b' prev t after :
  (forall p t a', lang ic a p t a' -> has_digit t) ->
  lang ic (Seq a b') prev t after -> has_digit t.
Proof.
  intros H L. cbn [lang] in L. destruct L as [t1 [t2 [-> [L1 _]]]].
  destruct (H _ _ _ L1) as [c [Hc D]].
  exists c. split; [apply in_or_app; left; exact Hc | exact D].
Qed.

Lemma lang_seq_right ic a b' prev t after :
  (forall p t a', lang ic b' p t a' -> has_digit t) ->
  lang ic (Seq a b') prev t after -> has_digit t.
Proof.
  intros H L. cbn [lang] in L. destruct L as [t1 [t2 [-> [_ L2]]]].
  destruct (H _ _ _ L2) as [c [Hc D]].
  exists c. split; [apply in_or_app; right; exact Hc | exact D].
Qed.

(** A pattern whose matches hold a digit matches nowhere in a text
    without digits. *)
Lemma digits_unmatched r f text :
  (forall p t a, lang true r p t a -> has_digit t) ->
  all_ok no_digit text ->
  replace true r f text = text.
Proof.
  intros H T. apply replace_fixed. intros a b' st -> E. exfalso.
  destruct (exec_sound _ _ _ _ _ E) as [t [after [-> [_ L]]]].
  destruct (H _ _ _ L) as [c [Hc D]].
  unfold all_ok in T. rewrite forallb_forall in T.
  assert (I : In c (a ++ t ++ after)).
  { apply in_or_app. right. apply in_or_app. left. exact Hc. }
  specialize (T c I). unfold no_digit in T. rewrite D in T. discriminate.
Qed.

(** *** Cleaning keeps the words of a text *)

(** A change of characters that keeps word characters, and keeps what a
    character is when compared with a letter. *)
Definition keeps_words (f : ascii -> ascii) : Prop :=
  forall c,
    is_word (f c) = is_word c
    /\ forall l, is_lower l = true -> char_eq true (f c) l = char_eq true c l.

Lemma canonicalize_lower_char c : canonicalize (lower_char c) = canonicalize c.
Proof. each_char c. Qed.

Lemma is_word_lower_char c : is_word (lower_char c) = is_word c.
Proof. each_char c. Qed.

Lemma lower_char_keeps : keeps_words lower_char.
Proof.
  intros c. split; [apply is_word_lower_char|].
  intros l _. unfold char_eq. rewrite canonicalize_lower_char. reflexivity.
Qed.

(** Replacing characters that are no word characters by spaces. *)
Lemma blanking_keeps (p : ascii -> bool) :
  (forall c, p c = true -> is_word c = false) ->
  keeps_words (fun c => if p c then " "%char else c).
Proof.
  intros H c. destruct (p c) eqn:E; [|split; reflexivity].
  split; [rewrite (H c E); reflexivity|].
  intros l Hl.
  destruct (char_eq true " " l) eqn:E1.
  { apply (char_eq_letter_word _ _ Hl) in E1. discriminate. }
  destruct (char_eq true c l) eqn:E2; [|reflexivity].
  apply (char_eq_letter_word _ _ Hl) in E2. rewrite (H c E) in E2.
  discriminate.
Qed.

Lemma unhyphen_keeps : keeps_words unhyphen.
Proof.
  apply (blanking_keeps (fun c => Ascii.eqb c "-")).
  intros c E. apply Ascii.eqb_eq in E. subst c. reflexivity.
Qed.

Lemma is_punct_not_word c : is_punct c = true -> is_word c = false.
Proof. each_char c. Qed.

Lemma unpunct_keeps : keeps_words unpunct.
Proof. apply (blanking_keeps is_punct). exact is_punct_not_word. Qed.

Lemma begins_map f w x :
  keeps_words f -> forallb is_lower w = true ->
  begins w (map f x) = begins w x.
Proof.
  intros K. revert x. induction w as [|l w IH]; intros x W; [reflexivity|].
  destruct x as [|c x]; [reflexivity|].
  simpl in W. apply andb_true_iff in W. destruct W as [Wl W].
  cbn [map begins]. rewrite (proj2 (K c) l Wl), (IH x W). reflexivity.
Qed.

Lemma word_begins_map f w p p' x :
  keeps_words f -> wordy w = true -> word_at p = word_at p' ->
  word_begins w p (map f x) = word_begins w p' x.
Proof.
  intros K W. assert (W' : forallb is_lower w = true).
  { destruct w; [discriminate | exact W]. }
  revert p p'. induction x as [|c x IH]; intros p p' E.
  - simpl. rewrite E. reflexivity.
  - cbn [map]. rewrite !word_begins_cons.
    change (f c :: map f x) with (map f (c :: x)).
    rewrite (begins_map f w (c :: x) K W'), E.
    rewrite (IH (Some (f c)) (Some c)); [reflexivity|].
    simpl. apply (K c).
Qed.

Lemma is_space_not_word c : is_space c = true -> is_word c = false.
Proof. each_char c. Qed.

Lemma begins_space w c x :
  wordy w = true -> is_space c = true -> begins w (c :: x) = false.
Proof.
  destruct w as [|l w]; [discriminate|]. intros W S.
  simpl in W. apply andb_true_iff in W. destruct W as [Wl _].
  cbn [begins]. destruct (char_eq true c l) eqn:E; [|reflexivity].
  apply (char_eq_letter_word _ _ Wl) in E.
  rewrite (is_space_not_word c S) in E. discriminate.
Qed.

Lemma begins_squeeze w x :
  wordy w = true -> begins w (squeeze false x) = begins w x.
Proof.
  intros W. assert (W' : forallb is_lower w = true).
  { destruct w; [discriminate | exact W]. }
  clear W. revert x. induction w as [|l w IH]; intros x; [reflexivity|].
  simpl in W'. apply andb_true_iff in W'. destruct W' as [Wl W'].
  destruct x as [|c x]; [reflexivity|].
  cbn [squeeze]. destruct (is_space c) eqn:S.
  - cbn [begins].
    assert (E1 : char_eq true " " l = false).
    { destruct (char_eq true " " l) eqn:E; [|reflexivity].
      apply (char_eq_letter_word _ _ Wl) in E. discriminate. }
    assert (E2 : char_eq true c l = false).
    { destruct (char_eq true c l) eqn:E; [|reflexivity].
      apply (char_eq_letter_word _ _ Wl) in E.
      rewrite (is_space_not_word c S) in E. discriminate. }
    rewrite E1, E2. reflexivity.
  - cbn [begins]. rewrite (IH W' x). reflexivity.
Qed.

Lemma word_begins_squeeze w :
  wordy w = true ->
  forall x p p' (in_run : bool),
    word_begins w p x = false -> word_at p = word_at p' ->
    (in_run = true -> word_at p = false) ->
    word_begins w p' (squeeze in_run x) = false.
Proof.
  intros W. induction x as [|c x IH]; intros p p' in_run H E R.
  - simpl in *. rewrite <- E. exact H.
  - rewrite word_begins_cons in H. apply orb_false_iff in H.
    destruct H as [H1 H2].
    cbn [squeeze]. destruct (is_space c) eqn:S.
    + assert (Sc : word_at (Some c) = false)
        by (apply is_space_not_word, S).
      destruct in_run.
      * apply (IH (Some c) p' true H2); [|auto].
        rewrite Sc, <- E. symmetry. apply R. reflexivity.
      * rewrite word_begins_cons. apply orb_false_iff. split.
        -- rewrite (begins_space w " " _ W eq_refl). apply andb_false_r.
        -- apply (IH (Some c) (Some " "%char) true H2); [|auto].
           rewrite Sc. reflexivity.
    + rewrite word_begins_cons. apply orb_false_iff. split.
      * rewrite <- E.
        assert (Q : squeeze false (c :: x) = c :: squeeze false x)
          by (cbn [squeeze]; rewrite S; reflexivity).
        rewrite <- Q, begins_squeeze by exact W. exact H1.
      * apply (IH (Some c) (Some c) false H2); [reflexivity | discriminate].
Qed.

Lemma word_begins_trimStart w x :
  word_begins w None x = false -> word_begins w None (trimStart x) = false.
Proof.
  induction x as [|c x IH]; intros H; [exact H|].
  cbn [trimStart]. destruct (is_space c) eqn:S; [|exact H].
  apply IH. rewrite word_begins_cons in H. apply orb_false_iff in H.
  destruct H as [_ H].
  rewrite (word_begins_prev w None (Some c)); [exact H|].
  simpl. symmetry. apply is_space_not_word, S.
Qed.

Lemma trimEnd_prefix x : exists t, x = trimEnd x ++ t.
Proof.
  induction x as [|c x [t IH]]; [exists []; reflexivity|].
  rewrite trimEnd_cons. destruct (blank (c :: x)).
  - exists (c :: x). reflexivity.
  - exists t. simpl. rewrite <- IH. reflexivity.
Qed.

Lemma word_begins_trimEnd w p x :
  word_begins w p x = false -> word_begins w p (trimEnd x) = false.
Proof.
  intros H. destruct (trimEnd_prefix x) as [t E]. rewrite E in H.
  apply (word_begins_app w p _ t H).
Qed.

(** Who begins no word of [x] begins no word of [x] tidied. *)
Lemma word_begins_squish w x :
  wordy w = true ->
  word_begins w None x = false -> word_begins w None (squish x) = false.
Proof.
  intros W H. unfold squish, trim. rewrite collapseSpaces_squeeze.
  apply word_begins_trimEnd, word_begins_trimStart.
  apply (word_begins_squeeze w W x None None false H);
    [reflexivity | discriminate].
Qed.

(** *** Texts without digits *)

Lemma no_digit_lower_char c : no_digit (lower_char c) = no_digit c.
Proof. each_char c. Qed.

Lemma no_digit_map f x :
  (forall c, no_digit c = true -> no_digit (f c) = true) ->
  all_ok no_digit x -> all_ok no_digit (map f x).
Proof.
  intros Hf. induction x as [|c x IH]; intros H; [reflexivity|].
  destruct (all_ok_inv no_digit c x H) as [Hc Hx].
  apply all_ok_cons; [apply Hf, Hc | apply IH, Hx].
Qed.

Lemma no_digit_toLowerCase x :
  all_ok no_digit x -> all_ok no_digit (toLowerCase x).
Proof.
  apply no_digit_map. intros c. rewrite no_digit_lower_char. auto.
Qed.

Lemma no_digit_unhyphen x :
  all_ok no_digit x -> all_ok no_digit (map unhyphen x).
Proof.
  apply no_digit_map. intros c H. unfold unhyphen.
  destruct (Ascii.eqb c "-"); [reflexivity | exact H].
Qed.

Lemma no_digit_unpunct x :
  all_ok no_digit x -> all_ok no_digit (map unpunct x).
Proof.
  apply no_digit_map. intros c H. unfold unpunct.
  destruct (is_punct c); [reflexivity | exact H].
Qed.

Lemma no_digit_squish x : all_ok no_digit x -> all_ok no_digit (squish x).
Proof. apply squish_ok. reflexivity. Qed.

(** *** The words the rewrites change *)

(** The number words that are expanded, the aviation form of nine, and
    the first words of the phrases that are shortened. *)
Definition rewritten : list str :=
  map fst COMPOUND_NUMBERS ++ map L ["niner"; "roger"; "copy"; "ground"]%string.

(** Speech the rewrites leave alone: no digit, and no word that begins,
    in whatever letter case, with one of the [rewritten] words. *)
Definition plain_speech (x : str) : bool :=
  forallb no_digit x
  && forallb (fun w => negb (word_begins w None x)) rewritten.

Lemma rewritten_wordy w : In w rewritten -> wordy w = true.
Proof.
  assert (H : forallb wordy rewritten = true) by (vm_compute; reflexivity).
  rewrite forallb_forall in H. apply H.
Qed.

Definition no_rewritten (x : str) : Prop :=
  forall w, In w rewritten -> word_begins w None x = false.

Lemma plain_speech_spec x :
  plain_speech x = true <-> all_ok no_digit x /\ no_rewritten x.
Proof.
  unfold plain_speech, no_rewritten, all_ok.
  rewrite andb_true_iff. split.
  - intros [D N]. split; [exact D|]. intros w Hw.
    rewrite forallb_forall in N. apply negb_true_iff, N, Hw.
  - intros [D N]. split; [exact D|]. apply forallb_forall. intros w Hw.
    apply negb_true_iff, N, Hw.
Qed.

Lemma no_rewritten_map f x :
  keeps_words f -> no_rewritten x -> no_rewritten (map f x).
Proof.
  intros K N w Hw.
  rewrite (word_begins_map f w None None x K (rewritten_wordy w Hw) eq_refl).
  apply N, Hw.
Qed.

Lemma no_rewritten_squish x : no_rewritten x -> no_rewritten (squish x).
Proof.
  intros N w Hw. apply word_begins_squish; [apply rewritten_wordy, Hw|].
  apply N, Hw.
Qed.

(** *** Single spaces between the words of a phrase *)

Lemma single_app b p q :
  single b (p ++ q) = true -> exists b', single b' q = true.
Proof.
  revert b. induction p as [|c p IH]; intros b H; [exists b; exact H|].
  simpl in H. destruct (is_space c).
  - apply andb_true_iff in H. destruct H as [_ H]. apply (IH true H).
  - apply (IH false H).
Qed.

(** In a text with single spaces, what [\s+] matches is one space. *)
Lemma lang_spaces_single ic prev t after pre :
  lang ic s_plus prev t after ->
  single false (pre ++ t ++ after) = true ->
  t = [" "%char].
Proof.
  unfold s_plus, Plus. cbn [lang].
  intros [t1 [t2 [-> [[x [-> Sx]] It]]]] S.
  destruct (single_app _ _ _ S) as [b' S'].
  simpl in S'. rewrite Sx in S'.
  apply andb_true_iff in S'. destruct S' as [S1 S2].
  apply andb_true_iff in S1. destruct S1 as [S1 _].
  apply Ascii.eqb_eq in S1. subst x. simpl. f_equal.
  inversion It as [|p' u1 u2 a' L1 _ Eu]; [reflexivity|]. exfalso.
  cbn [lang] in L1. destruct L1 as [y [-> Sy]].
  subst t2. simpl in S2. rewrite Sy in S2. simpl in S2.
  rewrite andb_false_r in S2. discriminate.
Qed.

(** *** The rewrites on plain speech *)

Definition mem (w : str) (ws : list str) : bool :=
  existsb (fun v => if list_eq_dec ascii_dec v w then true else false) ws.

Lemma mem_In w ws : mem w ws = true -> In w ws.
Proof.
  unfold mem. rewrite existsb_exists. intros [v [Hv E]].
  destruct (list_eq_dec ascii_dec v w) as [<-|]; [exact Hv | discriminate].
Qed.

Lemma all_ok_app_inv (ok : ascii -> bool) a b' :
  all_ok ok (a ++ b') -> all_ok ok a /\ all_ok ok b'.
Proof.
  unfold all_ok. rewrite forallb_app. intros H.
  apply andb_true_iff in H. exact H.
Qed.

Section OnPlainSpeech.

Variable h : str.
Hypothesis h_lower : all_ok lowfix h.
Hypothesis h_tidy : tidy h.
Hypothesis h_no_digit : all_ok no_digit h.
Hypothesis h_no_rewritten : no_rewritten h.

Lemma tens_fixed : replace true tensPattern tensReplacer h = h.
Proof.
  unfold tensPattern. cbn [seqs].
  match goal with
  | |- replace true (Seq _ (Seq (Group 1 (alts ?ws)) _)) _ _ = _ =>
      apply (word_start_unmatched _ _ ws)
  end.
  - intros p t a H. cbn [lang] in H. apply (lang_alts _ _ _ _ H).
  - intros w Hw. apply rewritten_wordy, mem_In.
    revert w Hw. apply Forall_forall.
    repeat (constructor; [vm_compute; reflexivity|]). constructor.
  - intros w Hw. apply h_no_rewritten, mem_In.
    revert w Hw. apply Forall_forall.
    repeat (constructor; [vm_compute; reflexivity|]). constructor.
Qed.

Lemma fold_replaceWord_fixed (value : str * str -> str) table :
  (forall e, In e table -> replaceWord (fst e) (value e) h = h) ->
  fold_left (fun result entry => replaceWord (fst entry) (value entry) result)
    table h = h.
Proof.
  induction table as [|e table IH]; intros H; [reflexivity|].
  cbn [fold_left]. rewrite (H e (or_introl eq_refl)).
  apply IH. intros e' He'. apply H. right. exact He'.
Qed.

(** An entry of a table of words: its word is one of the [rewritten]
    words, or it is replaced by itself. *)
Definition entry_fixed (value : str * str -> str) (e : str * str) : bool :=
  mem (fst e) rewritten
  || ((if list_eq_dec ascii_dec (value e) (fst e) then true else false)
      && forallb lowfix (fst e)).

Lemma table_fixed (value : str * str -> str) table :
  forallb (entry_fixed value) table = true ->
  fold_left (fun result entry => replaceWord (fst entry) (value entry) result)
    table h = h.
Proof.
  intros H. apply fold_replaceWord_fixed. intros e He.
  rewrite forallb_forall in H. specialize (H e He).
  unfold entry_fixed in H. apply orb_true_iff in H. destruct H as [H | H].
  - apply mem_In in H. apply replaceWord_unmatched.
    + apply rewritten_wordy, H.
    + apply h_no_rewritten, H.
  - apply andb_true_iff in H. destruct H as [H1 H2].
    destruct (list_eq_dec ascii_dec (value e) (fst e)) as [->|];
      [|discriminate].
    apply replaceWord_same; [exact H2 | exact h_lower].
Qed.

Lemma expandCompoundNumbers_fixed : expandCompoundNumbers h = h.
Proof.
  unfold expandCompoundNumbers. cbv zeta.
  rewrite (toLowerCase_fixed h h_lower), tens_fixed.
  apply (table_fixed snd). vm_compute. reflexivity.
Qed.

Ltac needs_digit :=
  repeat (intros ? ? ?;
          first [ apply lang_digits
                | apply lang_seq_left; intros ? ? ?; apply lang_digits
                | apply lang_seq_right ]).

Lemma normalizeRadioNumbers_fixed : normalizeRadioNumbers h = h.
Proof.
  unfold normalizeRadioNumbers. cbv zeta.
  rewrite expandCompoundNumbers_fixed.
  rewrite (table_fixed
             (fun entry => text_of (lookup DIGIT_TO_WORD (snd entry))))
    by (vm_compute; reflexivity).
  rewrite (digits_unmatched callsignPrefixPattern);
    [|unfold callsignPrefixPattern; cbn [seqs]; needs_digit | exact h_no_digit].
  rewrite (digits_unmatched runwayPattern);
    [|unfold runwayPattern; cbn [seqs]; needs_digit | exact h_no_digit].
  rewrite (digits_unmatched taxiwayPattern);
    [|unfold taxiwayPattern; cbn [seqs]; needs_digit | exact h_no_digit].
  apply (digits_unmatched headingPattern);
    [unfold headingPattern; cbn [seqs]; needs_digit | exact h_no_digit].
Qed.

(** [\bw\s+...] by anything, where [w] is one of the [rewritten] words. *)
Lemma phrase_unmatched w R v :
  mem w rewritten = true ->
  replace true (Seq WordBoundary (Seq (lit w) R)) (constant v) h = h.
Proof.
  intros M. apply mem_In in M.
  apply (word_start_unmatched (lit w) R [w]).
  - apply lang_lit_one.
  - intros ? [<- | []]. apply rewritten_wordy, M.
  - intros ? [<- | []]. apply h_no_rewritten, M.
Qed.

Lemma over_and_out_fixed :
  replace true
    (seqs [b; lit (L "over"); s_plus; lit (L "and"); s_plus;
           lit (L "out"); b])
    (constant (L "over and out")) h = h.
Proof.
  apply replace_fixed. intros a rest st E X. unfold constant.
  destruct (exec_firstn _ _ _ _ _ X) as [after [R [Lg _]]].
  set (t := firstn (m_pos st) rest) in *. clearbody t. subst rest.
  cbn [seqs] in Lg. cbn [lang] in Lg.
  destruct Lg as [t0 [u0 [-> [[-> _] Lg]]]].
  destruct Lg as [t1 [u1 [-> [L1 Lg]]]].
  destruct Lg as [s1 [u2 [-> [S1 Lg]]]].
  destruct Lg as [t2 [u3 [-> [L2 Lg]]]].
  destruct Lg as [s2 [u4 [-> [S2 Lg]]]].
  destruct Lg as [t3 [u5 [-> [L3 [-> _]]]]].
  cbn [app] in *. rewrite app_nil_r in *.
  pose proof h_lower as Hl. rewrite E in Hl.
  apply all_ok_app_inv in Hl. destruct Hl as [_ Hl].
  apply all_ok_app_inv in Hl. destruct Hl as [Hl _].
  apply all_ok_app_inv in Hl. destruct Hl as [H1 Hl].
  apply all_ok_app_inv in Hl. destruct Hl as [_ Hl].
  apply all_ok_app_inv in Hl. destruct Hl as [H2 Hl].
  apply all_ok_app_inv in Hl. destruct Hl as [_ H3].
  apply (fun L => lang_lit true _ _ _ _ L eq_refl) in L1, L2, L3.
  apply spells_lowfix in L1; [|reflexivity | exact H1].
  apply spells_lowfix in L2; [|reflexivity | exact H2].
  apply spells_lowfix in L3; [|reflexivity | exact H3].
  destruct h_tidy as [Sg _]. rewrite E in Sg.
  assert (Q1 : s1 = [" "%char]).
  { apply (lang_spaces_single _ _ _ _ (a ++ t1) S1).
    rewrite <- Sg. rewrite <- !app_assoc. reflexivity. }
  assert (Q2 : s2 = [" "%char]).
  { apply (lang_spaces_single _ _ _ _ (a ++ t1 ++ s1 ++ t2) S2).
    rewrite <- Sg. rewrite <- !app_assoc. reflexivity. }
  rewrite L1, Q1, L2, Q2, L3. reflexivity.
Qed.

Lemma normalizeRadioPhrases_fixed : normalizeRadioPhrases h = h.
Proof.
  unfold normalizeRadioPhrases. cbv zeta.
  rewrite over_and_out_fixed.
  cbn [seqs].
  rewrite (phrase_unmatched (L "roger")) by (vm_compute; reflexivity).
  rewrite (phrase_unmatched (L "copy")) by (vm_compute; reflexivity).
  rewrite (phrase_unmatched (L "ground")) by (vm_compute; reflexivity).
  apply (replaceWord_same (L "atc")); [reflexivity | exact h_lower].
Qed.

End OnPlainSpeech.

Lemma clean_lowfix y : all_ok clean y -> all_ok lowfix y.
Proof.
  intros H. apply (all_ok_weaken plain lowfix); [exact plain_lowfix|].
  apply (all_ok_weaken clean plain); [exact clean_plain | exact H].
Qed.

(** A normalized transcript of plain speech is left as it is. *)
Lemma normalize_fixed y :
  normal y -> all_ok no_digit y -> no_rewritten y ->
  normalizeRadioTranscript y = y.
Proof.
  intros Hn Hd Hr.
  destruct (normal_cleanup_stable y Hn) as [H1 [H2 [H3 H4]]].
  destruct Hn as [Hc Ht].
  destruct y as [|c y]; [reflexivity|].
  rewrite normalizeRadioTranscript_steps, H1, H2.
  rewrite (normalizeRadioNumbers_fixed _ (clean_lowfix _ Hc) Hd Hr).
  rewrite (normalizeRadioPhrases_fixed _ (clean_lowfix _ Hc) Ht Hr).
  rewrite H3. exact H4.
Qed.

(** What normalization makes of plain speech: lower case, hyphens and
    punctuation replaced by spaces, whitespace tidied. *)
Lemma normalize_plain_speech x :
  plain_speech x = true ->
  normalizeRadioTranscript x
  = squish (map unpunct (squish (map unhyphen (toLowerCase x))))
  /\ all_ok no_digit (normalizeRadioTranscript x)
  /\ no_rewritten (normalizeRadioTranscript x).
Proof.
  intros H. apply plain_speech_spec in H. destruct H as [Hd Hr].
  destruct x as [|c x].
  { split; [reflexivity|]. split; [reflexivity|]. exact Hr. }
  set (h := squish (map unhyphen (toLowerCase (c :: x)))).
  assert (Hp : all_ok plain h)
    by (apply squish_plain, unhyphen_plain, toLowerCase_lowfix).
  assert (Hl : all_ok lowfix h)
    by (apply (all_ok_weaken plain lowfix); [exact plain_lowfix | exact Hp]).
  assert (Ht : tidy h) by apply tidy_squish.
  assert (Hd' : all_ok no_digit h)
    by (apply no_digit_squish, no_digit_unhyphen, no_digit_toLowerCase, Hd).
  assert (Hr' : no_rewritten h).
  { apply no_rewritten_squish, no_rewritten_map; [exact unhyphen_keeps|].
    apply no_rewritten_map; [exact lower_char_keeps | exact Hr]. }
  assert (E : normalizeRadioTranscript (c :: x) = squish (map unpunct h)).
  { rewrite normalizeRadioTranscript_steps, normalizeHyphens_squish.
    fold h.
    rewrite (normalizeRadioNumbers_fixed h Hl Hd' Hr').
    rewrite (normalizeRadioPhrases_fixed h Hl Ht Hr').
    rewrite removePunctuation_squish. apply squish_idempotent. }
  rewrite E. split; [reflexivity|]. split.
  - apply no_digit_squish, no_digit_unpunct, Hd'.
  - apply no_rewritten_squish, no_rewritten_map;
      [exact unpunct_keeps | exact Hr'].
Qed.



(** The inputs of the counterexamples are no plain speech. *)
Example not_plain_speech :
  plain_speech (L "roger that that") = false
  /\ plain_speech (L "runway, 27") = false
  /\ plain_speech (L "Twentyone") = false
  /\ plain_speech (L "We often listen") = true.
Proof. repeat split; vm_compute; reflexivity. Qed.


(** Punctuation is removed after the number and phrase rewrites have
    run, so a keyword that a punctuation mark separates from its number,
    or from the rest of its phrase, is rewritten on the second pass only.
    The theorem above is about plain speech, which has no digit and none
    of these phrases, and says nothing about such inputs. *)
Example normalize_after_punctuation :
  normalizeRadioTranscript (L "runway, 27") = L "runway 27"
  /\ normalizeRadioTranscript (L "runway 27") = L "runway two seven"
  /\ normalizeRadioTranscript (L "roger, that") = L "roger that"
  /\ normalizeRadioTranscript (L "roger that") = L "roger".
Proof. repeat split; vm_compute; reflexivity. Qed.

End RadioNormalizeProps.

(** ** The connection pool *)

Module ConnectionPoolProps.

Import ConnectionPool.
Open Scope Z_scope.

(** A call of [initialize] passes both guards. *)
Definition starts (env : Env) (state : ConnectionPoolState) : Prop :=
  isInitializing state = false
  /\ (isReady state = false
      \/ isTokenExpired (Date_now env) (openaiToken state) = true
      \/ isTokenExpired (Date_now env) (elevenlabsToken state) = true).

Lemma starts_enter env state :
  starts env state ->
  snd (initialize_enter env state) = AwaitingTokens.
Proof.
  intros [Hi H]. unfold initialize_enter. rewrite Hi.
  destruct H as [H | [H | H]]; rewrite H; simpl;
    rewrite ?andb_false_r; reflexivity.
Qed.

Lemma initialize_run env state :
  starts env state ->
  let state' := fst (initialize env state) in
  isInitializing state' = false
  /\ isReady state' = connects env openai || connects env elevenlabs
  /\ error state' =
       (if connects env openai || connects env elevenlabs then None
        else Some "Failed to establish any connections"%string)
  /\ (openaiAdapter state' <> None <-> connects env openai = true)
  /\ (elevenlabsAdapter state' <> None <-> connects env elevenlabs = true).
Proof.
  intros Hs. pose proof (starts_enter env state Hs) as He.
  unfold initialize. destruct (initialize_enter env state) as [[s1 r1] e].
  simpl in He. subst e.
  unfold connects, initialize_tokens, initialize_connected,
    createOpenAIAdapter, createElevenLabsAdapter.
  destruct (fetchOpenAIToken env) as [t1|]; destruct (fetchElevenLabsToken env) as [t2|];
    simpl;
    try destruct (connect env openai t1);
    try destruct (connect env elevenlabs t2); simpl;
    repeat split; intros; try congruence; try discriminate.
Qed.

(** C6. After an initialization has run, the pool is ready if and only
    if at least one provider connected; a provider whose token fetch or
    connection failed does not prevent readiness when the other one
    connected; and the error is set exactly when no provider
    connected. *)
Theorem initialize_ready_iff_some_connection (env : Env)
  (state : ConnectionPoolState) :
  starts env state ->
  let state' := fst (initialize env state) in
  (isReady state' = true <->
     connects env openai = true \/ connects env elevenlabs = true)
  /\ (connects env openai = false -> connects env elevenlabs = true ->
      isReady state' = true /\ error state' = None)
  /\ (connects env elevenlabs = false -> connects env openai = true ->
      isReady state' = true /\ error state' = None)
  /\ (error state' <> None <->
        connects env openai = false /\ connects env elevenlabs = false).
Proof.
  intros Hs state'.
  destruct (initialize_run env state Hs) as [_ [Hr [He _]]].
  fold state' in Hr, He. rewrite Hr, He.
  destruct (connects env openai), (connects env elevenlabs); simpl;
    repeat split; intros; try tauto; try congruence; try discriminate;
    intuition congruence.
Qed.

(** An environment in which the OpenAI token fetch is rejected and
    ElevenLabs connects. *)
Definition sampleToken : TokenInfo :=
  {| token := "tok"; websocketUrl := "wss://example"; expiresAt := 900000 |}.

Definition openaiDown : Env :=
  {| Date_now := 1000;
     fetchOpenAIToken := rejected "Failed to fetch OpenAI token: 500";
     fetchElevenLabsToken := fulfilled sampleToken;
     connect := fun _ _ => fulfilled tt |}.

Lemma initialize_ready_iff_some_connection_witness :
  isReady (fst (initialize openaiDown initialState)) = true
  /\ error (fst (initialize openaiDown initialState)) = None.
Proof.
  assert (Hs : starts openaiDown initialState).
  { split; [reflexivity | left; reflexivity]. }
  destruct (initialize_ready_iff_some_connection openaiDown initialState Hs)
    as [_ [H _]].
  apply H; reflexivity.
Defined.

(** The pool state while an initialization is suspended: after its first
    piece, and after its token fetches have settled. *)
Definition inFlight (state : ConnectionPoolState) : Prop :=
  exists env0 state0,
    starts env0 state0
    /\ (state = fst (fst (initialize_enter env0 state0))
        \/ exists r1 r2,
             state = fst (initialize_tokens r1 r2
                            (fst (fst (initialize_enter env0 state0))))).

Lemma inFlight_isInitializing state : inFlight state -> isInitializing state = true.
Proof.
  intros [env0 [state0 [[Hi Hg] H]]].
  assert (E : fst (fst (initialize_enter env0 state0)) =
              {| openaiToken := openaiToken state0;
                 elevenlabsToken := elevenlabsToken state0;
                 openaiAdapter := openaiAdapter state0;
                 elevenlabsAdapter := elevenlabsAdapter state0;
                 isInitializing := true;
                 isReady := isReady state0;
                 error := None;
                 reconnectAttempts := reconnectAttempts state0 |}).
  { unfold initialize_enter. rewrite Hi.
    destruct Hg as [H0 | [H0 | H0]]; rewrite H0; simpl;
      rewrite ?andb_false_r; reflexivity. }
  destruct H as [H | [r1 [r2 H]]]; subst state; rewrite E; reflexivity.
Qed.

Lemma skip_when_initializing env state :
  isInitializing state = true -> initialize env state = (state, []).
Proof.
  intros H. unfold initialize, initialize_enter. rewrite H. reflexivity.
Qed.

(** C7. [initialize] is idempotent and safe to re-enter: a call made
    while [isInitializing] is set returns without a request and without
    a change of state, and so does a call made while the pool is ready
    and both stored tokens are outside the refresh buffer of their
    expiry.  In particular a call that arrives while another one is
    suspended at either of its awaits does nothing, so the token fetches
    are made once. *)
Theorem initialize_idempotent (env : Env) (state : ConnectionPoolState) :
  (isInitializing state = true -> initialize env state = (state, []))
  /\ (isReady state = true ->
      isTokenExpired (Date_now env) (openaiToken state) = false ->
      isTokenExpired (Date_now env) (elevenlabsToken state) = false ->
      initialize env state = (state, []))
  /\ (inFlight state -> initialize env state = (state, [])).
Proof.
  split; [apply skip_when_initializing|]. split.
  - intros Hr H1 H2. unfold initialize, initialize_enter.
    rewrite Hr, H1, H2. simpl. destruct (isInitializing state); reflexivity.
  - intros H. apply skip_when_initializing, inFlight_isInitializing, H.
Qed.

(** A ready pool with fresh tokens, and a pool in the middle of an
    initialization. *)
Definition readyPool : ConnectionPoolState :=
  fst (initialize
         {| Date_now := 1000;
            fetchOpenAIToken := fulfilled sampleToken;
            fetchElevenLabsToken := fulfilled sampleToken;
            connect := fun _ _ => fulfilled tt |}
         initialState).

Definition busyPool : ConnectionPoolState :=
  fst (fst (initialize_enter openaiDown initialState)).

Lemma initialize_idempotent_witness :
  initialize openaiDown busyPool = (busyPool, [])
  /\ initialize openaiDown readyPool = (readyPool, []).
Proof.
  split.
  - destruct (initialize_idempotent openaiDown busyPool) as [H _].
    apply H. reflexivity.
  - destruct (initialize_idempotent openaiDown readyPool) as [_ [H _]].
    apply H; reflexivity.
Defined.

End ConnectionPoolProps.

(** ** The session store *)

Module SessionStoreProps.

Import JsString SessionStore.
Open Scope Z_scope.

Lemma resultOf_set_result p q r s :
  resultOf p (set_result q r s) =
  match p, q with
  | openai, openai | elevenlabs, elevenlabs => r
  | _, _ => resultOf p s
  end.
Proof. destruct p, q; reflexivity. Qed.

Lemma getCurrentQuestion_set_result p r s :
  getCurrentQuestion (set_result p r s) = getCurrentQuestion s.
Proof. reflexivity. Qed.

Lemma status_eqb_completed (x : ProviderStatus.t) :
  ProviderStatus.eqb x ProviderStatus.completed = true
  <-> x = ProviderStatus.completed.
Proof. destruct x; simpl; split; congruence. Qed.

Section Scoring.

Variable calculateSimilarity : str -> str -> float.
Variable detectFillers : str -> list Fluency.FillerCount.
Variable countTotalFillers : list Fluency.FillerCount -> Z.
Variable calculateStructure :
  str -> StructureMode -> option (list str) -> float * StructureBreakdown.
Variable costRates : ProviderId -> float.

Let computeScores :=
  SessionStore.computeScores calculateSimilarity detectFillers
    countTotalFillers calculateStructure costRates.

(** Scoring one provider leaves the other provider's result alone. *)
Lemma computeScores_other p q s :
  p <> q -> resultOf q (computeScores p s) = resultOf q s.
Proof.
  intros Hpq. unfold computeScores, SessionStore.computeScores.
  destruct (getCurrentQuestion s); [|reflexivity].
  destruct (first_nonempty _ _ _); [reflexivity|].
  match goal with
  | |- context [if ?c then _ else _] => destruct c
  end; destruct p, q; try congruence; reflexivity.
Qed.

Lemma computeScores_question p s :
  getCurrentQuestion (computeScores p s) = getCurrentQuestion s.
Proof.
  unfold computeScores, SessionStore.computeScores.
  destruct (getCurrentQuestion s) eqn:E; [|exact E].
  destruct (first_nonempty _ _ _); [exact E|].
  match goal with
  | |- context [if ?c then _ else _] => destruct c
  end; exact E.
Qed.

(** With a current question and a final text, scoring completes the
    provider: its status is [completed], its metrics are set, and its
    transcript is kept. *)
Lemma computeScores_completes p s q :
  getCurrentQuestion s = Some q ->
  finalText (transcript (resultOf p s)) <> [] ->
  let r := resultOf p (computeScores p s) in
  status r = ProviderStatus.completed
  /\ metrics r <> None
  /\ transcript r = transcript (resultOf p s).
Proof.
  intros Hq Hf. unfold computeScores, SessionStore.computeScores.
  rewrite Hq.
  destruct (finalText (transcript (resultOf p s))) as [|c tl] eqn:E;
    [congruence|].
  unfold first_nonempty.
  match goal with
  | |- context [if ?c then _ else _] => destruct c
  end; destruct p; simpl; repeat split; discriminate.
Qed.

End Scoring.

End SessionStoreProps.

(** ** The timeouts of the recording hook *)

Module DualSTTProps.

Import JsString SessionStore DualSTT.
Open Scope Z_scope.

Lemma with_store_same w : with_store (store w) w = w.
Proof. destruct w; reflexivity. Qed.

Section WithConfig.

Variable finalizationMs : Z.
Variable maxRecordingMs : Z.
Variable calculateSimilarity : str -> str -> float.
Variable detectFillers : str -> list Fluency.FillerCount.
Variable countTotalFillers : list Fluency.FillerCount -> Z.
Variable calculateStructure :
  str -> StructureMode -> option (list str) -> float * StructureBreakdown.
Variable costRates : ProviderId -> float.

Let onFinalizationTimeout :=
  DualSTT.onFinalizationTimeout calculateSimilarity detectFillers
    countTotalFillers calculateStructure costRates.
Let onMaxRecordingTimeout :=
  DualSTT.onMaxRecordingTimeout finalizationMs.
Let fire :=
  DualSTT.fire finalizationMs calculateSimilarity detectFillers
    countTotalFillers calculateStructure costRates.
Let stopRecording := DualSTT.stopRecording finalizationMs.
Let forceCompletion :=
  DualSTT.forceCompletion calculateSimilarity detectFillers
    countTotalFillers calculateStructure costRates.
Let computeScores :=
  SessionStore.computeScores calculateSimilarity detectFillers
    countTotalFillers calculateStructure costRates.

(** The cycle a timeout is stamped with. *)
Definition stamp (t : Timeout) : Z :=
  match t with
  | FinalizationTimeout c => c
  | MaxRecordingTimeout c => c
  end.

(** [startRecording] mints the next cycle before anything else. *)
Lemma startRecording_enter_cycle w :
  recordingCycleRef (fst (startRecording_enter w)) = recordingCycleRef w + 1
  /\ snd (startRecording_enter w) = recordingCycleRef w + 1.
Proof.
  unfold startRecording_enter, cleanup. simpl.
  split; [|reflexivity].
  match goal with
  | |- context [if ?c then _ else _] => destruct c
  end; reflexivity.
Qed.

(** [stopRecording] stamps its timeout with the cycle it runs in, and
    does not change the cycle. *)
Lemma stopRecording_stamp now w :
  recordingCycleRef (stopRecording now w) = recordingCycleRef w
  /\ exists es,
       effects (stopRecording now w) =
       es ++ [SetTimeout (FinalizationTimeout (recordingCycleRef w))
                finalizationMs].
Proof.
  unfold stopRecording, DualSTT.stopRecording, endAudioIfConnected.
  destruct (poolOpenAI w) as [[|]|] eqn:E1;
    destruct (poolElevenLabs w) as [[|]|] eqn:E2;
    simpl; rewrite ?E1, ?E2; simpl; rewrite ?E2; simpl;
    (split; [reflexivity | eexists; reflexivity]).
Qed.

(** C5. A timeout callback stamped with a recording cycle older than
    the current one leaves the whole state of the hook unchanged: the
    session store, the hook's references, and the effects performed.
    This holds for the finalization timeout set by [stopRecording] and
    for the maximal-duration timeout set by [startRecording]. *)
Theorem stale_timeout_changes_nothing (now cycle : Z) (w : Hook) :
  cycle < recordingCycleRef w ->
  onFinalizationTimeout cycle w = w
  /\ onMaxRecordingTimeout now cycle w = w
  /\ (forall t, stamp t = cycle -> fire now t w = w).
Proof.
  intros H.
  assert (E : (recordingCycleRef w =? cycle) = false)
    by (apply Z.eqb_neq; lia).
  assert (H1 : onFinalizationTimeout cycle w = w).
  { unfold onFinalizationTimeout, DualSTT.onFinalizationTimeout.
    rewrite E. reflexivity. }
  assert (H2 : onMaxRecordingTimeout now cycle w = w).
  { unfold onMaxRecordingTimeout, DualSTT.onMaxRecordingTimeout.
    rewrite E. reflexivity. }
  repeat split; auto.
  intros [c|c] Hc; simpl in Hc; subst c; assumption.
Qed.

(** *** The finalization fallback *)

Lemma forceCompletion_store p state w :
  store (forceCompletion p state w) =
  if ProviderStatus.eqb (status (resultOf p state)) ProviderStatus.completed
  then store w
  else match bestKnown (transcript (resultOf p state)) with
       | [] => store w
       | (_ :: _) as text =>
           computeScores p
             (updateProviderTranscript p
                {| patch_interimText := None; patch_committedText := None;
                   patch_finalText := Some text |} (store w))
       end.
Proof.
  unfold forceCompletion, DualSTT.forceCompletion.
  destruct (ProviderStatus.eqb _ _); [reflexivity|].
  destruct (bestKnown _); reflexivity.
Qed.

Lemma forceCompletion_other p q state w :
  p <> q ->
  resultOf q (store (forceCompletion p state w)) = resultOf q (store w).
Proof.
  intros Hpq. rewrite forceCompletion_store.
  destruct (ProviderStatus.eqb _ _); [reflexivity|].
  destruct (bestKnown _); [reflexivity|].
  unfold computeScores.
  rewrite SessionStoreProps.computeScores_other by assumption.
  unfold updateProviderTranscript.
  rewrite SessionStoreProps.resultOf_set_result.
  destruct q, p; try congruence; reflexivity.
Qed.

Lemma forceCompletion_question p state w :
  getCurrentQuestion (store (forceCompletion p state w)) =
  getCurrentQuestion (store w).
Proof.
  rewrite forceCompletion_store.
  destruct (ProviderStatus.eqb _ _); [reflexivity|].
  destruct (bestKnown _); [reflexivity|].
  unfold computeScores.
  rewrite SessionStoreProps.computeScores_question. reflexivity.
Qed.

(** Forcing the completion of a provider that has a fragment; [state]
    is the snapshot the callback took. *)
Lemma forceCompletion_scores p state w q :
  getCurrentQuestion (store w) = Some q ->
  status (resultOf p state) <> ProviderStatus.completed ->
  bestKnown (transcript (resultOf p state)) <> [] ->
  let r := resultOf p (store (forceCompletion p state w)) in
  finalText (transcript r) = bestKnown (transcript (resultOf p state))
  /\ status r = ProviderStatus.completed
  /\ metrics r <> None.
Proof.
  intros Hq Hs Hb. rewrite forceCompletion_store.
  destruct (ProviderStatus.eqb _ _) eqn:E.
  { apply SessionStoreProps.status_eqb_completed in E. contradiction. }
  destruct (bestKnown (transcript (resultOf p state))) as [|c tl] eqn:B;
    [congruence|].
  set (s1 := updateProviderTranscript p _ (store w)).
  assert (F : finalText (transcript (resultOf p s1)) = c :: tl).
  { unfold s1, updateProviderTranscript.
    rewrite SessionStoreProps.resultOf_set_result.
    destruct p; reflexivity. }
  destruct (SessionStoreProps.computeScores_completes calculateSimilarity
              detectFillers countTotalFillers calculateStructure costRates
              p s1 q) as [H1 [H2 H3]].
  - unfold s1, updateProviderTranscript. exact Hq.
  - rewrite F. discriminate.
  - unfold computeScores. simpl. rewrite H3, F. auto.
Qed.

Lemma forceCompletion_nothing p state w :
  bestKnown (transcript (resultOf p state)) = [] ->
  forceCompletion p state w = w.
Proof.
  intros Hb. unfold forceCompletion, DualSTT.forceCompletion.
  destruct (ProviderStatus.eqb _ _) eqn:E; [reflexivity|].
  rewrite Hb. reflexivity.
Qed.

Lemma after_timeout_store w :
  store (onFinalizationTimeout (recordingCycleRef w) w) =
  setRecordingCompleted
    (store (forceCompletion elevenlabs (store w)
              (forceCompletion openai (store w) w))).
Proof.
  unfold onFinalizationTimeout, DualSTT.onFinalizationTimeout.
  rewrite Z.eqb_refl. reflexivity.
Qed.

(** What the specification says of a provider [p] when the
    finalization timeout of the current cycle fires in state [w]: its
    best-known fragment has become the final transcript and has been
    scored. *)
Definition fellBack (p : ProviderId) (w : Hook) : Prop :=
  let w' := onFinalizationTimeout (recordingCycleRef w) w in
  let r' := resultOf p (store w') in
  finalText (transcript r') = bestKnown (transcript (resultOf p (store w)))
  /\ status r' = ProviderStatus.completed
  /\ metrics r' <> None.

(** C8, amended. When the finalization timeout of the current cycle
    fires, each provider that has not completed and has a non-empty
    committed or interim text falls back to it (committed text if
    non-empty, otherwise interim text): with a current question
    loaded, that text becomes the final transcript and is scored.  A
    provider with neither text is left as it is, without a score.  In
    either case the recording is marked completed. *)
Theorem finalization_timeout_falls_back (p : ProviderId) (w : Hook) :
  status (resultOf p (store w)) <> ProviderStatus.completed ->
  let w' := onFinalizationTimeout (recordingCycleRef w) w in
  (bestKnown (transcript (resultOf p (store w))) <> [] ->
   getCurrentQuestion (store w) <> None ->
   fellBack p w)
  /\ (bestKnown (transcript (resultOf p (store w))) = [] ->
      resultOf p (store w') = resultOf p (store w))
  /\ recordingState (store w') = RecordingState.completed.
Proof.
  intros Hs w'.
  assert (Hw : store w' =
               setRecordingCompleted
                 (store (forceCompletion elevenlabs (store w)
                           (forceCompletion openai (store w) w))))
    by apply after_timeout_store.
  split; [|split].
  - intros Hb Hq. unfold fellBack. fold w'. rewrite Hw.
    destruct (getCurrentQuestion (store w)) as [q|] eqn:Q; [|congruence].
    destruct p.
    + change (resultOf openai (setRecordingCompleted ?s))
        with (resultOf openai s).
      rewrite forceCompletion_other by discriminate.
      apply (forceCompletion_scores openai (store w) w q); assumption.
    + change (resultOf elevenlabs (setRecordingCompleted ?s))
        with (resultOf elevenlabs s).
      apply (forceCompletion_scores elevenlabs (store w) _ q);
        try assumption.
      rewrite forceCompletion_question. exact Q.
  - intros Hb. rewrite Hw.
    destruct p.
    + change (resultOf openai (setRecordingCompleted ?s))
        with (resultOf openai s).
      rewrite forceCompletion_other by discriminate.
      rewrite (forceCompletion_nothing openai) by assumption.
      reflexivity.
    + change (resultOf elevenlabs (setRecordingCompleted ?s))
        with (resultOf elevenlabs s).
      rewrite (forceCompletion_nothing elevenlabs) by assumption.
      apply forceCompletion_other. discriminate.
  - rewrite Hw. reflexivity.
Qed.

End WithConfig.

(** *** An attempt in which one provider heard nothing

    One question, first option chosen; recording has stopped.  OpenAI
    is still listening and has no text at all; ElevenLabs has an interim
    text.  The scoring stages outside the model are fixed to simple
    functions. *)

Definition sampleQuestion : Question :=
  {| prompt := L "Request taxi to runway 27.";
     options := [L "ATC, Bowser One, request taxi to runway two seven, over."];
     correctIndex := 0;
     expectedSpokenAnswer := None;
     structureMode := full;
     expectedKeywords := None |}.

Definition heardNothing : ProviderResult :=
  with_status ProviderStatus.listening createInitialProviderResult.

Definition heardInterim : ProviderResult :=
  with_transcript
    {| interimText := L "ATC Bowser 1 request taxi to runway 27 over";
       committedText := []; finalText := [] |}
    (with_status ProviderStatus.listening createInitialProviderResult).

Definition stoppedStore : SessionState :=
  {| questionBank := Some {| questions := [sampleQuestion] |};
     currentQuestionIndex := 0;
     selectedChoiceIndex := Some 0;
     recordingState := RecordingState.processing;
     recordingDurationMs := 4000;
     recordingStartTime := None;
     openaiResult := heardNothing;
     elevenlabsResult := heardInterim;
     testMode := read_aloud;
     openEndedResult := None;
     isAIScoring := false |}.

Definition stoppedHook : Hook :=
  {| store := stoppedStore; recordingCycleRef := 3;
     audioChunkerRef := None; mediaStreamRef := None; errorRef := None;
     eventCleanupRef := [1; 2]%nat;
     fallbackOpenAIRef := None; fallbackElevenLabsRef := None;
     usingFallbackRef := false;
     poolOpenAI := Some true; poolElevenLabs := Some true;
     effects := [] |}.

Definition sameText (a b : str) : float :=
  if list_eq_dec ascii_dec a b then 1%float else 0%float.

Definition noStructure (t : str) (m : StructureMode) (k : option (list str))
  : float * StructureBreakdown :=
  (100%float, {| violations := [] |}).

Definition flatRate (p : ProviderId) : float := 0%float.

Definition timeoutFires (w : Hook) : Hook :=
  onFinalizationTimeout sameText FluencyProps.exampleDetect
    FluencyProps.exampleCount noStructure flatRate (recordingCycleRef w) w.

(** The hook is in cycle 3: a timeout of cycle 2 is stale. *)
Lemma stale_timeout_changes_nothing_witness :
  DualSTT.onFinalizationTimeout sameText FluencyProps.exampleDetect
    FluencyProps.exampleCount noStructure flatRate 2 stoppedHook
  = stoppedHook
  /\ DualSTT.onMaxRecordingTimeout 3000 9000 2 stoppedHook = stoppedHook.
Proof.
  destruct (stale_timeout_changes_nothing 3000 sameText
              FluencyProps.exampleDetect FluencyProps.exampleCount
              noStructure flatRate 9000 2 stoppedHook) as [H1 [H2 _]].
  - simpl. lia.
  - split; assumption.
Defined.

Lemma finalization_timeout_falls_back_witness :
  fellBack sameText FluencyProps.exampleDetect FluencyProps.exampleCount
    noStructure flatRate elevenlabs stoppedHook.
Proof.
  apply (finalization_timeout_falls_back sameText FluencyProps.exampleDetect
           FluencyProps.exampleCount noStructure flatRate
           elevenlabs stoppedHook);
    simpl; discriminate.
Defined.

(** C8 as stated fails for a provider that has no text: OpenAI has not
    completed when the timeout of the current cycle fires, and afterwards
    it is neither completed nor scored. *)
Lemma finalization_timeout_without_text :
  status (resultOf openai (store stoppedHook)) <> ProviderStatus.completed
  /\ ~ fellBack sameText FluencyProps.exampleDetect FluencyProps.exampleCount
        noStructure flatRate openai stoppedHook.
Proof.
  split; [discriminate|].
  unfold fellBack. intros [_ [H _]]. vm_compute in H. discriminate.
Qed.

End DualSTTProps.

(** ** The transcript state of the ElevenLabs adapter *)

Module ElevenLabsProps.

Import JsString ElevenLabs.
Open Scope Z_scope.

Lemma processWordTimings_transcript ws a :
  transcript (fst (processWordTimings ws a)) = transcript a.
Proof.
  revert a. induction ws as [|w ws IH]; intros a; simpl; [reflexivity|].
  destruct (existsb _ _); [apply IH|].
  specialize (IH (addWordTiming
                    {| word := wi_word w;
                       startMs := JsNumber.Math_round (wi_start w * 1000)%float;
                       endMs := JsNumber.Math_round (wi_end w * 1000)%float;
                       confidence := wi_confidence w |} a)).
  destruct (processWordTimings ws _) as [a' es]. exact IH.
Qed.

(** Every handler changes the transcript by the write recorded for its
    message, and by nothing else. *)
Lemma handleMessage_transcript now m a :
  transcript (fst (handleMessage now m a)) =
  match transcriptWrite m a with
  | Some u => transcript (updateTranscript u a)
  | None => transcript a
  end.
Proof.
  destruct m as [| |[sid|text|text|text ws|k c msg e|ty]]; try reflexivity.
  simpl. unfold handleCommittedTranscriptWithTimestamps.
  destruct ws as [[|w ws]|]; try reflexivity.
  pose proof (processWordTimings_transcript (w :: ws) a) as H.
  destruct (processWordTimings (w :: ws) a) as [a' es].
  simpl in H. simpl. unfold committedUpdate. rewrite H. reflexivity.
Qed.

(** One message: the committed text is kept as a prefix. *)
Lemma handleMessage_appends now m a :
  exists suffix,
    committedText (transcript (fst (handleMessage now m a))) =
    committedText (transcript a) ++ suffix.
Proof.
  rewrite handleMessage_transcript.
  destruct m as [| |[sid|text|text|text ws|k c msg e|ty]]; simpl;
    try (exists []; rewrite app_nil_r; reflexivity);
    exists (text ++ L " "); reflexivity.
Qed.

Lemma run_appends now msgs a :
  exists suffix,
    committedText (transcript (run now msgs a)) =
    committedText (transcript a) ++ suffix.
Proof.
  revert now a. induction msgs as [|m msgs IH]; intros now a; simpl.
  - exists []. rewrite app_nil_r. reflexivity.
  - destruct (IH (now + 1) (fst (handleMessage now m a))) as [s2 H2].
    destruct (handleMessage_appends now m a) as [s1 H1].
    exists (s1 ++ s2). rewrite H2, H1, app_assoc. reflexivity.
Qed.

Lemma finalTextWrites_count now msgs a :
  finalTextWrites now msgs a = List.length (filter isCommitted msgs).
Proof.
  revert now a. induction msgs as [|m msgs IH]; intros now a; simpl;
    [reflexivity|].
  rewrite IH.
  destruct m as [| |[sid|text|text|text ws|k c msg e|ty]]; reflexivity.
Qed.

(** C9, amended. Within one recording cycle, whatever messages arrive:
    the committed text only grows by appending; and [finalText] is
    written by the committed-transcript handlers only, once for every
    committed transcript received, so it is set at most once in a cycle
    with at most one committed transcript. *)
Theorem transcript_state_invariant (now : Z) (msgs : list Incoming)
  (a : Adapter) :
  (exists suffix,
     committedText (transcript (run now msgs a)) =
     committedText (transcript a) ++ suffix)
  /\ finalTextWrites now msgs a = List.length (filter isCommitted msgs)
  /\ (List.length (filter isCommitted msgs) <= 1 ->
      finalTextWrites now msgs a <= 1)%nat.
Proof.
  split; [apply run_appends|].
  split; [apply finalTextWrites_count|].
  rewrite finalTextWrites_count. auto.
Qed.

(** A cycle with one interim and one committed transcript. *)
Definition oneCommit : list Incoming :=
  [ Json (partial_transcript (L "atc bowser"));
    Json (committed_transcript (L "ATC Bowser One over")) ].

Lemma transcript_state_invariant_witness :
  (finalTextWrites 0 oneCommit fresh <= 1)%nat.
Proof.
  destruct (transcript_state_invariant 0 oneCommit fresh) as [_ [_ H]].
  apply H. simpl. lia.
Defined.

(** A cycle in which the vendor commits twice. *)
Definition twoCommits : list Incoming :=
  [ Json (committed_transcript (L "request taxi"));
    Json (committed_transcript (L "over")) ].

(** C9 as stated fails: in a cycle with two committed transcripts
    [finalText] is set twice, the second write replacing the first. *)
Lemma finalText_set_twice :
  ~ (finalTextWrites 0 twoCommits fresh <= 1)%nat
  /\ finalText (transcript (run 0 (firstn 1 twoCommits) fresh))
     = L "request taxi"
  /\ finalText (transcript (run 0 twoCommits fresh)) = L "over".
Proof.
  split; [simpl; lia|]. split; reflexivity.
Qed.

End ElevenLabsProps.

(** ** Scoring a request without speech *)

Module OpenAIChatScoringProps.

Import JsString JsNumber OpenAIChatScoring.
Open Scope Z_scope.

Lemma trimStart_spaces s : forallb is_space s = true -> trimStart s = [].
Proof.
  induction s as [|c s IH]; simpl; [reflexivity|].
  intros H. apply andb_true_iff in H. destruct H as [Hc Hs].
  rewrite Hc. apply IH, Hs.
Qed.

Lemma trim_spaces s : forallb is_space s = true -> trim s = [].
Proof.
  intros H. unfold trim. rewrite (trimStart_spaces s H). reflexivity.
Qed.

(** C10. For every request whose transcript is empty or only
    whitespace, [scoreWithOpenAI] resolves at once, without a call of the
    chat endpoint, to accuracy 0, fluency 100, structure 0, overall 15,
    no filler words and the fixed feedback; and the overall score 15 is
    not the weighted combination of these components, which is 30. *)
Theorem scoreWithOpenAI_without_speech (systemPrompt : str)
  (request : OpenAIScoreRequest) :
  forallb is_space (transcript request) = true ->
  scoreWithOpenAI systemPrompt request =
    Resolved
      {| SessionStore.ai_accuracy := 0;
         SessionStore.ai_fluency := 100;
         SessionStore.ai_structure := 0;
         SessionStore.ai_overall := 15;
         SessionStore.feedback :=
           "No response was detected. Please speak your answer clearly.";
         SessionStore.fillerWords := [];
         SessionStore.fillerCount := 0;
         SessionStore.radioProtocolNotes :=
           Some "No response provided."%string |}
  /\ (forall messages,
        scoreWithOpenAI systemPrompt request <> CallChatAPI messages)
  /\ strict_eq
       (Overall.calculateOverall (of_Z 0) (of_Z 100) (of_Z 0)) (of_Z 30)
     = true
  /\ strict_eq
       (Overall.calculateOverall (of_Z 0) (of_Z 100) (of_Z 0)) (of_Z 15)
     = false.
Proof.
  intros H.
  assert (E : scoreWithOpenAI systemPrompt request = Resolved noResponse).
  { unfold scoreWithOpenAI. destruct (transcript request) as [|c tl] eqn:T;
      [reflexivity|].
    rewrite (trim_spaces _ H). reflexivity. }
  rewrite E. split; [reflexivity|]. split; [discriminate|].
  split; vm_compute; reflexivity.
Qed.

Lemma scoreWithOpenAI_without_speech_witness :
  scoreWithOpenAI (L "You are an R/T examiner.")
    {| transcript := L "   ";
       expectedAnswer := L "ATC, Bowser One, over.";
       scenarioPrompt := L "Call ATC.";
       structureMode := SessionStore.full |}
  = Resolved noResponse.
Proof.
  apply (scoreWithOpenAI_without_speech (L "You are an R/T examiner.")
           {| transcript := L "   ";
              expectedAnswer := L "ATC, Bowser One, over.";
              scenarioPrompt := L "Call ATC.";
              structureMode := SessionStore.full |}).
  reflexivity.
Defined.

End OpenAIChatScoringProps.

(** ** The recording state machine and navigation of the session store *)

Module SessionFlowProps.

Import JsString SessionStore.
Open Scope Z_scope.

Lemma recording_eqb_spec (a b : RecordingState.t) :
  RecordingState.eqb a b = true <-> a = b.
Proof. destruct a, b; simpl; split; congruence. Qed.

(** *** Talking *)

Lemma startRecording_talking now state :
  canTalk state = true ->
  recordingState (startRecording now state) = RecordingState.listening
  /\ recordingStartTime (startRecording now state) = Some now.
Proof.
  unfold canTalk, startRecording, notNull.
  destruct (questionBank state) as [bank|];
    destruct (testMode state);
    destruct (selectedChoiceIndex state) as [c|];
    destruct (recordingState state); simpl;
    intros H; try discriminate; split; reflexivity.
Qed.

(** X1. [startRecording] starts a recording exactly when [canTalk] says
    so: then the recording is listening from [now] on, with both provider
    results reset to connecting, and the question and choice kept;
    otherwise the state is left as it is. *)
Theorem startRecording_iff_canTalk (now : Z) (state : SessionState) :
  (canTalk state = true ->
   let state' := startRecording now state in
   recordingState state' = RecordingState.listening
   /\ recordingStartTime state' = Some now
   /\ recordingDurationMs state' = 0
   /\ openaiResult state' =
      with_status ProviderStatus.connecting createInitialProviderResult
   /\ elevenlabsResult state' =
      with_status ProviderStatus.connecting createInitialProviderResult
   /\ questionBank state' = questionBank state
   /\ currentQuestionIndex state' = currentQuestionIndex state
   /\ selectedChoiceIndex state' = selectedChoiceIndex state)
  /\ (canTalk state = false -> startRecording now state = state).
Proof.
  unfold canTalk, startRecording, notNull.
  destruct (questionBank state) as [bank|] eqn:B;
    destruct (testMode state) eqn:T;
    destruct (selectedChoiceIndex state) as [c|] eqn:C;
    destruct (recordingState state) eqn:R; simpl;
    split; intros H; try discriminate; try reflexivity;
    rewrite ?B, ?C; repeat split.
Qed.

Definition bankOfOne : QuestionBank :=
  {| questions :=
       [ {| prompt := L "Request taxi.";
            options := [L "ATC, Bowser One, request taxi, over."];
            correctIndex := 0;
            expectedSpokenAnswer := None;
            structureMode := full;
            expectedKeywords := None |} ] |}.

(** A bank is loaded and the first option chosen. *)
Definition readyToTalk : SessionState :=
  set_selectedChoiceIndex (Some 0) (loadBank bankOfOne initialState).

Example selectChoice_first_option :
  selectChoice true 0 (loadBank bankOfOne initialState) = Some readyToTalk.
Proof. vm_compute. reflexivity. Qed.

Lemma startRecording_iff_canTalk_witness :
  recordingState (startRecording 1000 readyToTalk) = RecordingState.listening.
Proof.
  destruct (startRecording_iff_canTalk 1000 readyToTalk) as [H _].
  apply H. reflexivity.
Defined.

(** X2. [stopRecording] acts on a listening recording only: a recording
    started at [t1] (not 0) and stopped at [t2] is processing with
    duration [t2 - t1]; in any other state [stopRecording] changes
    nothing, so stopping twice is stopping once. *)
Theorem stopRecording_after_start (t1 t2 t3 : Z) (state : SessionState) :
  (canTalk state = true -> t1 <> 0 ->
   let state' := stopRecording t2 (startRecording t1 state) in
   recordingState state' = RecordingState.processing
   /\ recordingDurationMs state' = t2 - t1
   /\ recordingStartTime state' = None)
  /\ (recordingState state <> RecordingState.listening ->
      stopRecording t2 state = state)
  /\ stopRecording t3 (stopRecording t2 state) = stopRecording t2 state.
Proof.
  split; [|split].
  - intros H Ht.
    destruct (startRecording_talking t1 state H) as [H1 H2].
    unfold stopRecording. rewrite H1, H2. simpl.
    destruct (t1 =? 0) eqn:E; [apply Z.eqb_eq in E; contradiction|].
    repeat split.
  - intros H. unfold stopRecording.
    destruct (recordingState state); try reflexivity. contradiction.
  - unfold stopRecording.
    destruct (recordingState state) eqn:R; rewrite ?R; reflexivity.
Qed.

Lemma stopRecording_after_start_witness :
  recordingDurationMs (stopRecording 4500 (startRecording 1000 readyToTalk))
  = 3500.
Proof.
  destruct (stopRecording_after_start 1000 4500 0 readyToTalk) as [H _].
  apply H; [reflexivity | discriminate].
Defined.

(** *** Navigation *)

(** The current index points into the loaded bank. *)
Definition validIndex (state : SessionState) : Prop :=
  exists bank,
    questionBank state = Some bank
    /\ 0 <= currentQuestionIndex state
         < Z.of_nat (List.length (questions bank)).

Lemma validIndex_question state :
  validIndex state <-> getCurrentQuestion state <> None.
Proof.
  unfold validIndex, getCurrentQuestion, nth_Z. split.
  - intros [bank [B [H0 H1]]]. rewrite B.
    destruct (_ >=? _) eqn:E; [lia|].
    destruct (_ <? 0) eqn:E0; [lia|].
    apply nth_error_Some. lia.
  - destruct (questionBank state) as [bank|]; [|congruence].
    destruct (_ >=? _) eqn:E; [congruence|].
    destruct (_ <? 0) eqn:E0; [congruence|].
    intros _. exists bank. split; [reflexivity | lia].
Qed.

Lemma asIndex_in_range bound index i :
  asIndex bound index = Some i -> 0 <= i < Z.of_nat bound.
Proof.
  unfold asIndex. intros H. apply find_some in H. destruct H as [H _].
  apply in_map_iff in H. destruct H as [n [<- H]].
  apply in_seq in H. lia.
Qed.

Lemma goToQuestion_valid index state state' :
  validIndex state -> goToQuestion index state = Some state' ->
  validIndex state'.
Proof.
  intros [bank [B H]]. unfold goToQuestion. rewrite B. cbv zeta.
  destruct (_ && _).
  - destruct (asIndex _ index) as [i|] eqn:E; [|discriminate].
    intros [= <-]. apply asIndex_in_range in E.
    exists bank. simpl. split; [exact B | exact E].
  - intros [= <-]. exists bank. auto.
Qed.

(** X3. Navigation never leaves the bank: from a state whose index is
    valid, [nextQuestion] and [previousQuestion] lead to a state whose
    index is valid, and so does [goToQuestion], with any number as its
    target, whenever the index it leaves in the store is an integer (a
    target such as 0.5 passes its guard and is stored as it is: the
    model has no state for that); the current question then stays
    defined.  At the last question [nextQuestion] does nothing, and at
    the first [previousQuestion] does nothing. *)
Theorem navigation_stays_in_bank (index : float) (state : SessionState) :
  validIndex state ->
  (validIndex (nextQuestion state)
   /\ validIndex (previousQuestion state)
   /\ (forall state', goToQuestion index state = Some state' ->
       validIndex state'))
  /\ getCurrentQuestion (nextQuestion state) <> None
  /\ getCurrentQuestion (previousQuestion state) <> None
  /\ (forall state', goToQuestion index state = Some state' ->
      getCurrentQuestion state' <> None)
  /\ (forall bank,
        questionBank state = Some bank ->
        currentQuestionIndex state
          = Z.of_nat (List.length (questions bank)) - 1 ->
        nextQuestion state = state)
  /\ (currentQuestionIndex state = 0 -> previousQuestion state = state).
Proof.
  intros V.
  assert (N : validIndex (nextQuestion state)).
  { destruct V as [bank [B H]]. unfold nextQuestion. rewrite B.
    destruct (_ <? _) eqn:E; [|exists bank; auto].
    exists bank. simpl. split; [exact B | lia]. }
  assert (P : validIndex (previousQuestion state)).
  { destruct V as [bank [B H]]. unfold previousQuestion.
    destruct (_ >? 0) eqn:E; [|exists bank; auto].
    exists bank. simpl. split; [exact B | lia]. }
  pose proof (goToQuestion_valid index state) as G.
  split; [auto|].
  split; [apply validIndex_question, N|].
  split; [apply validIndex_question, P|].
  split; [intros state' E; apply validIndex_question, (G state' V E)|].
  split.
  - intros bank B H. unfold nextQuestion. rewrite B.
    destruct (_ <? _) eqn:E; [lia | reflexivity].
  - intros H. unfold previousQuestion. rewrite H. reflexivity.
Qed.

Definition bankOfThree : QuestionBank :=
  {| questions :=
       map (fun option =>
              {| prompt := L "Request taxi.";
                 options := [option];
                 correctIndex := 0;
                 expectedSpokenAnswer := None;
                 structureMode := full;
                 expectedKeywords := None |})
         [L "ATC, Bowser One, request taxi, over.";
          L "ATC, Bowser Two, request taxi, over.";
          L "ATC, Bowser Three, request taxi, over."] |}.

Lemma navigation_stays_in_bank_witness :
  getCurrentQuestion (nextQuestion readyToTalk) <> None
  /\ exists state',
       goToQuestion 2 (loadBank bankOfThree initialState) = Some state'
       /\ currentQuestionIndex state' = 2
       /\ getCurrentQuestion state' <> None.
Proof.
  split.
  - destruct (navigation_stays_in_bank 7 readyToTalk) as [_ [H _]];
      [|exact H].
    exists bankOfOne. split; [reflexivity | simpl; lia].
  - exists (showQuestion 2 (loadBank bankOfThree initialState)).
    split; [vm_compute; reflexivity|]. split; [reflexivity|].
    destruct (navigation_stays_in_bank 2 (loadBank bankOfThree initialState))
      as [_ [_ [_ [H _]]]].
    + exists bankOfThree. split; [reflexivity | simpl; lia].
    + apply H. vm_compute. reflexivity.
Defined.

(** Targets outside the bank change nothing; a target between two
    indices passes the guard of the source and has no state here. *)
Example goToQuestion_targets :
  let state := loadBank bankOfThree initialState in
  goToQuestion 3 state = Some state
  /\ goToQuestion (-1) state = Some state
  /\ goToQuestion PrimFloat.nan state = Some state
  /\ goToQuestion 0.5 state = None
  /\ selectChoice true 1.5 state = None
  /\ selectChoice true 4 state = Some state.
Proof. repeat split; vm_compute; reflexivity. Qed.

(** X4. [canNext] and [isSessionComplete] exclude each other; when
    [canNext] holds, [nextQuestion] moves to the next index and makes the
    store idle with no choice and fresh provider results; when the session
    is complete, [nextQuestion] does nothing. *)
Theorem canNext_and_session_complete (state : SessionState) :
  (canNext state = true -> isSessionComplete state = false)
  /\ (canNext state = true ->
      let state' := nextQuestion state in
      currentQuestionIndex state' = currentQuestionIndex state + 1
      /\ recordingState state' = RecordingState.idle
      /\ selectedChoiceIndex state' = None
      /\ openaiResult state' = createInitialProviderResult
      /\ elevenlabsResult state' = createInitialProviderResult)
  /\ (isSessionComplete state = true -> nextQuestion state = state).
Proof.
  unfold canNext, isSessionComplete, nextQuestion.
  destruct (questionBank state) as [bank|]; [|repeat split; discriminate].
  destruct (RecordingState.eqb _ _); simpl.
  - split; [|split].
    + intros H. rewrite andb_true_r. apply Z.eqb_neq. lia.
    + intros H. destruct (_ + 1 <? _) eqn:E; [repeat split | lia].
    + intros H. rewrite andb_true_r in H.
      destruct (_ + 1 <? _) eqn:E; [lia | reflexivity].
  - repeat split; try discriminate. rewrite andb_false_r. discriminate.
Qed.

(** X5. [repeatQuestion] makes the same question talkable again: it
    keeps the bank, the question and the choice, clears every result, and
    afterwards [canTalk] holds exactly when a bank is loaded and, in
    read-aloud mode, a choice is selected, whatever the recording state
    was. *)
Theorem repeatQuestion_talkable (state : SessionState) :
  let state' := repeatQuestion state in
  getCurrentQuestion state' = getCurrentQuestion state
  /\ selectedChoiceIndex state' = selectedChoiceIndex state
  /\ openaiResult state' = createInitialProviderResult
  /\ elevenlabsResult state' = createInitialProviderResult
  /\ openEndedResult state' = None
  /\ canTalk state' =
     notNull (questionBank state)
     && match testMode state with
        | read_aloud => notNull (selectedChoiceIndex state)
        | open_ended => true
        end.
Proof.
  repeat split. unfold canTalk, repeatQuestion. simpl.
  destruct (testMode state); simpl; rewrite ?andb_true_r; reflexivity.
Qed.

End SessionFlowProps.

(** ** Invariants of the session store *)

Module SessionInvariantProps.

Import JsString SessionStore SessionActions.
Open Scope Z_scope.

(** The selected choice is one of the four options, or none. *)
Definition choiceInRange (state : SessionState) : Prop :=
  match selectedChoiceIndex state with
  | Some i => 0 <= i <= 3
  | None => True
  end.

(** The question index is 0, or points into the loaded bank. *)
Definition indexInRange (state : SessionState) : Prop :=
  currentQuestionIndex state = 0
  \/ exists bank,
       questionBank state = Some bank
       /\ 0 < currentQuestionIndex state
            < Z.of_nat (List.length (questions bank)).

(** A listening recording has its start time. *)
Definition listeningHasStart (state : SessionState) : Prop :=
  recordingState state = RecordingState.listening ->
  recordingStartTime state <> None.

Definition invariant (state : SessionState) : Prop :=
  choiceInRange state /\ indexInRange state /\ listeningHasStart state.

Section WithConfig.

Variable lockSelection : bool.
Variable calculateSimilarity : str -> str -> float.
Variable detectFillers : str -> list Fluency.FillerCount.
Variable countTotalFillers : list Fluency.FillerCount -> Z.
Variable calculateStructure :
  str -> StructureMode -> option (list str) -> float * StructureBreakdown.
Variable costRates : ProviderId -> float.

Let step :=
  SessionActions.step lockSelection calculateSimilarity detectFillers
    countTotalFillers calculateStructure costRates.
Let run :=
  SessionActions.run lockSelection calculateSimilarity detectFillers
    countTotalFillers calculateStructure costRates.
Let computeScores :=
  SessionStore.computeScores calculateSimilarity detectFillers
    countTotalFillers calculateStructure costRates.

(** The keys an action on one provider's result leaves alone. *)
Lemma set_result_frame p r state :
  questionBank (set_result p r state) = questionBank state
  /\ currentQuestionIndex (set_result p r state) = currentQuestionIndex state
  /\ selectedChoiceIndex (set_result p r state) = selectedChoiceIndex state
  /\ recordingState (set_result p r state) = recordingState state
  /\ recordingStartTime (set_result p r state) = recordingStartTime state.
Proof. repeat split. Qed.

Lemma invariant_frame state state' :
  questionBank state' = questionBank state ->
  currentQuestionIndex state' = currentQuestionIndex state ->
  selectedChoiceIndex state' = selectedChoiceIndex state ->
  (recordingState state' = RecordingState.listening ->
   recordingState state = RecordingState.listening
   /\ recordingStartTime state' = recordingStartTime state) ->
  invariant state -> invariant state'.
Proof.
  intros B I C R [H1 [H2 H3]]. unfold invariant, choiceInRange, indexInRange,
    listeningHasStart in *.
  rewrite B, I, C. repeat split; auto.
  intros L. destruct (R L) as [L' E]. rewrite E. auto.
Qed.

Lemma computeScores_frame p state :
  questionBank (computeScores p state) = questionBank state
  /\ currentQuestionIndex (computeScores p state) = currentQuestionIndex state
  /\ selectedChoiceIndex (computeScores p state) = selectedChoiceIndex state
  /\ recordingStartTime (computeScores p state) = recordingStartTime state
  /\ (recordingState (computeScores p state) = recordingState state
      \/ recordingState (computeScores p state) = RecordingState.completed).
Proof.
  unfold computeScores, SessionStore.computeScores.
  destruct (getCurrentQuestion state); [|repeat split; auto].
  destruct (first_nonempty _ _ _); [repeat split; auto|].
  match goal with
  | |- context [if ?c then _ else _] => destruct c
  end; repeat split; auto.
Qed.

Lemma showQuestion_invariant i bank state :
  questionBank state = Some bank ->
  0 <= i < Z.of_nat (List.length (questions bank)) ->
  invariant (showQuestion i state).
Proof.
  intros B H. split; [exact I|]. split; [|discriminate].
  unfold indexInRange. simpl.
  destruct (Z.eq_dec i 0) as [E|E]; [left; exact E|].
  right. exists bank. split; [exact B | lia].
Qed.

Lemma step_invariant state a state' :
  invariant state -> step state a = Some state' -> invariant state'.
Proof.
  intros Inv. pose proof Inv as [HC [HI HL]].
  destruct a; simpl; intros Step;
    try (injection Step as <-).
  - (* loadBank *)
    split; [exact I|]. split; [left; reflexivity | discriminate].
  - (* selectChoice *)
    revert Step. unfold selectChoice.
    destruct (_ && negb _); [intros [= <-]; exact Inv|].
    destruct (_ && _) eqn:E; [|intros [= <-]; exact Inv].
    destruct (asIndex 4 index) as [i|] eqn:A; [|discriminate].
    intros [= <-]. apply SessionFlowProps.asIndex_in_range in A.
    split; [|split; assumption]. unfold choiceInRange. simpl. lia.
  - (* clearChoice *)
    split; [exact I | split; assumption].
  - (* startRecording *)
    unfold startRecording.
    destruct (questionBank state) eqn:B; [|exact Inv].
    destruct (testMode state), (selectedChoiceIndex state) eqn:C;
      try exact Inv;
      destruct (recordingState state); try exact Inv;
      (split; [unfold choiceInRange; simpl; rewrite ?C; auto;
               unfold choiceInRange in HC; rewrite C in HC; exact HC|];
       split; [unfold indexInRange; simpl; rewrite ?B; unfold indexInRange in HI;
               rewrite B in HI; exact HI|];
       intros _; discriminate).
  - (* stopRecording *)
    unfold stopRecording.
    destruct (recordingState state); try exact Inv.
    split; [exact HC|]. split; [exact HI | discriminate].
  - (* setRecordingCompleted *)
    split; [exact HC|]. split; [exact HI | discriminate].
  - (* updateRecordingDuration *)
    split; [exact HC|]. split; [exact HI | exact HL].
  - apply (invariant_frame state); auto.
  - apply (invariant_frame state); auto.
  - apply (invariant_frame state); auto.
  - apply (invariant_frame state); auto.
  - apply (invariant_frame state); auto.
  - apply (invariant_frame state); auto.
  - (* computeScores *)
    destruct (computeScores_frame provider state) as [B [Ix [C [S R]]]].
    fold computeScores.
    apply (invariant_frame state); auto.
    intros L. destruct R as [R|R]; rewrite R in L; [auto | discriminate].
  - (* nextQuestion *)
    unfold nextQuestion. destruct (questionBank state) as [bank|] eqn:B;
      [|exact Inv].
    destruct (_ <? _) eqn:E; [|exact Inv].
    apply (showQuestion_invariant _ bank); [exact B|].
    destruct HI as [HI | [bank' [B' HI]]]; [lia|].
    rewrite B in B'. injection B' as <-. lia.
  - (* previousQuestion *)
    unfold previousQuestion. destruct (_ >? 0) eqn:E; [|exact Inv].
    destruct HI as [HI | [bank [B HI]]]; [lia|].
    apply (showQuestion_invariant _ bank); [exact B | lia].
  - (* goToQuestion *)
    revert Step. unfold goToQuestion.
    destruct (questionBank state) as [bank|] eqn:B;
      [|intros [= <-]; exact Inv].
    cbv zeta. destruct (_ && _) eqn:E; [|intros [= <-]; exact Inv].
    destruct (asIndex _ index) as [i|] eqn:A; [|discriminate].
    intros [= <-]. apply SessionFlowProps.asIndex_in_range in A.
    apply (showQuestion_invariant _ bank); [exact B | exact A].
  - (* repeatQuestion *)
    split; [exact HC|]. split; [exact HI | discriminate].
  - (* resetSession *)
    split; [exact I|]. split; [left; reflexivity | discriminate].
  - (* clearAll *)
    split; [exact I|]. split; [left; reflexivity | discriminate].
  - (* setTestMode *)
    unfold setTestMode. destruct (testMode_eqb _ _); [exact Inv|].
    split; [exact I|]. split; [exact HI | discriminate].
Qed.

Lemma runFrom_invariant actions state state' :
  invariant state ->
  SessionActions.runFrom lockSelection calculateSimilarity detectFillers
    countTotalFillers calculateStructure costRates state actions
  = Some state' ->
  invariant state'.
Proof.
  revert state. induction actions as [|a actions IH]; intros state H;
    simpl.
  - intros [= <-]. exact H.
  - fold step. destruct (step state a) as [next|] eqn:E; [|discriminate].
    apply IH, (step_invariant state a next H E).
Qed.

(** X6. Whatever sequence of store actions is applied to a new store,
    with any arguments, as long as every index that [selectChoice] and
    [goToQuestion] leave in the store is an integer ([run] gives a state
    of the model): the selected choice is none or one of 0..3; the
    question index is 0 or a valid index of the loaded bank, so that with
    a non-empty bank loaded the current question is always defined; and a
    listening recording always has its start time. *)
Theorem store_invariant (actions : list Action) (state : SessionState) :
  run actions = Some state ->
  choiceInRange state
  /\ indexInRange state
  /\ listeningHasStart state
  /\ (forall bank,
        questionBank state = Some bank -> questions bank <> [] ->
        getCurrentQuestion state <> None).
Proof.
  intros Run.
  assert (Inv : invariant state).
  { apply (runFrom_invariant actions initialState state); [|exact Run].
    split; [exact I|]. split; [left; reflexivity | discriminate]. }
  destruct Inv as [HC [HI HL]]. repeat split; auto.
  intros bank B Hq. apply SessionFlowProps.validIndex_question.
  exists bank. split; [exact B|].
  destruct HI as [HI | [bank' [B' HI]]].
  - rewrite HI. destruct (questions bank); [congruence | simpl; lia].
  - rewrite B in B'. injection B' as <-. lia.
Qed.

End WithConfig.

(** A session: a bank of three questions is loaded, the third question
    is shown, its second option chosen and the recording started. *)
Definition session : list Action :=
  [ LoadBank SessionFlowProps.bankOfThree; GoToQuestion 2; SelectChoice 1;
    StartRecording 1000 ].

Lemma store_invariant_witness :
  exists state,
    SessionActions.run true DualSTTProps.sameText FluencyProps.exampleDetect
      FluencyProps.exampleCount DualSTTProps.noStructure DualSTTProps.flatRate
      session = Some state
    /\ selectedChoiceIndex state = Some 1
    /\ currentQuestionIndex state = 2
    /\ choiceInRange state
    /\ getCurrentQuestion state <> None.
Proof.
  eexists. split; [vm_compute; reflexivity|].
  split; [reflexivity|]. split; [reflexivity|].
  match goal with
  | |- choiceInRange ?s /\ _ =>
      destruct (store_invariant true DualSTTProps.sameText
                  FluencyProps.exampleDetect FluencyProps.exampleCount
                  DualSTTProps.noStructure DualSTTProps.flatRate session s)
        as [H1 [_ [_ H4]]];
        [vm_compute; reflexivity|]
  end.
  split; [exact H1|].
  apply (H4 SessionFlowProps.bankOfThree); [reflexivity | discriminate].
Defined.

End SessionInvariantProps.

(** ** Scoring a provider in the session store *)

Module ComputeScoresProps.

Import JsString JsNumber SessionStore.
Open Scope Z_scope.

Section Scoring.

Variable calculateSimilarity : str -> str -> float.
Variable detectFillers : str -> list Fluency.FillerCount.
Variable countTotalFillers : list Fluency.FillerCount -> Z.
Variable calculateStructure :
  str -> StructureMode -> option (list str) -> float * StructureBreakdown.
Variable costRates : ProviderId -> float.

Let computeScores :=
  SessionStore.computeScores calculateSimilarity detectFillers
    countTotalFillers calculateStructure costRates.

(** The text [computeScores] scores: the final text, else the committed
    text, else the interim text. *)
Definition scoredText (r : ProviderResult) : str :=
  first_nonempty (finalText (transcript r)) (committedText (transcript r))
    (interimText (transcript r)).

Definition other (p : ProviderId) : ProviderId :=
  match p with openai => elevenlabs | elevenlabs => openai end.

(** X7. [computeScores] never scores nothing: without a current
    question, or when the provider has no final, committed or interim
    text, the whole state is left unchanged. *)
Theorem computeScores_needs_question_and_text (p : ProviderId)
  (state : SessionState) :
  getCurrentQuestion state = None \/ scoredText (resultOf p state) = [] ->
  computeScores p state = state.
Proof.
  unfold computeScores, SessionStore.computeScores, scoredText.
  intros [H | H].
  - rewrite H. reflexivity.
  - destruct (getCurrentQuestion state); [|reflexivity].
    rewrite H. reflexivity.
Qed.

(** X8. With a current question and some text, [computeScores] completes
    the provider: its metrics are set, the fluency is
    100 - min(50, 5 * fillers) of the scored text, the overall score is
    [calculateOverall] of the three stored components, and the list of
    fillers is the one detected in the scored text.  The recording is
    marked completed exactly when the other provider is completed as
    well; otherwise its state is kept. *)
Theorem computeScores_completes_provider (p : ProviderId)
  (state : SessionState) :
  getCurrentQuestion state <> None ->
  scoredText (resultOf p state) <> [] ->
  let state' := computeScores p state in
  let r' := resultOf p state' in
  let text := scoredText (resultOf p state) in
  status r' = ProviderStatus.completed
  /\ (exists m,
        metrics r' = Some m
        /\ fluency m =
           of_Z (100 - Z.min 50 (countTotalFillers (detectFillers text) * 5))
        /\ overall m =
           Overall.calculateOverall (accuracy m) (fluency m) (structure m))
  /\ fillers r' = detectFillers text
  /\ transcript r' = transcript (resultOf p state)
  /\ resultOf (other p) state' = resultOf (other p) state
  /\ recordingState state' =
     (if ProviderStatus.eqb (status (resultOf (other p) state))
           ProviderStatus.completed
      then RecordingState.completed
      else recordingState state).
Proof.
  intros Hq Ht. unfold computeScores, SessionStore.computeScores, scoredText in *.
  destruct (getCurrentQuestion state) as [q|]; [|congruence].
  destruct (first_nonempty _ _ _) as [|c text] eqn:E; [congruence|].
  destruct p; simpl;
    destruct (ProviderStatus.eqb (status (elevenlabsResult state))
                ProviderStatus.completed) eqn:E1;
    destruct (ProviderStatus.eqb (status (openaiResult state))
                ProviderStatus.completed) eqn:E2;
    simpl; repeat split; eexists; repeat split.
Qed.

End Scoring.

(** Two providers with an interim text each; the first to be scored keeps
    the recording in its state, the second completes it. *)
Lemma computeScores_completes_provider_witness :
  let state :=
    set_result openai DualSTTProps.heardInterim DualSTTProps.stoppedStore in
  let score :=
    SessionStore.computeScores DualSTTProps.sameText
      FluencyProps.exampleDetect FluencyProps.exampleCount
      DualSTTProps.noStructure DualSTTProps.flatRate in
  recordingState (score openai state) = RecordingState.processing
  /\ recordingState (score elevenlabs (score openai state))
     = RecordingState.completed.
Proof.
  intros state score. split.
  - destruct (computeScores_completes_provider DualSTTProps.sameText
                FluencyProps.exampleDetect FluencyProps.exampleCount
                DualSTTProps.noStructure DualSTTProps.flatRate openai state)
      as [_ [_ [_ [_ [_ H]]]]]; [discriminate | discriminate |].
    exact H.
  - destruct (computeScores_completes_provider DualSTTProps.sameText
                FluencyProps.exampleDetect FluencyProps.exampleCount
                DualSTTProps.noStructure DualSTTProps.flatRate elevenlabs
                (score openai state))
      as [_ [_ [_ [_ [_ H]]]]]; [discriminate | discriminate |].
    exact H.
Defined.

Lemma computeScores_needs_question_and_text_witness :
  SessionStore.computeScores DualSTTProps.sameText
    FluencyProps.exampleDetect FluencyProps.exampleCount
    DualSTTProps.noStructure DualSTTProps.flatRate openai
    DualSTTProps.stoppedStore
  = DualSTTProps.stoppedStore.
Proof.
  apply (computeScores_needs_question_and_text DualSTTProps.sameText
           FluencyProps.exampleDetect FluencyProps.exampleCount
           DualSTTProps.noStructure DualSTTProps.flatRate openai
           DualSTTProps.stoppedStore).
  right. reflexivity.
Defined.

End ComputeScoresProps.

(** ** Requests and adapters of the connection pool *)

Module ConnectionPoolRunProps.

Import ConnectionPool.
Open Scope Z_scope.

Definition fetchToken (env : Env) (p : Provider) : Settled TokenInfo :=
  match p with
  | openai => fetchOpenAIToken env
  | elevenlabs => fetchElevenLabsToken env
  end.

Definition tokenOf (state : ConnectionPoolState) (p : Provider)
  : option TokenInfo :=
  match p with
  | openai => openaiToken state
  | elevenlabs => elevenlabsToken state
  end.

(** The providers whose token a list of requests fetches, in order. *)
Definition fetches (requests : list Request) : list Provider :=
  flat_map (fun r => match r with
                     | FetchToken p => [p]
                     | Connect _ _ => []
                     end) requests.

Lemma initialize_enter_starts env state :
  ConnectionPoolProps.starts env state ->
  initialize_enter env state =
    (fst (fst (initialize_enter env state)),
     [FetchToken openai; FetchToken elevenlabs], AwaitingTokens).
Proof.
  intros [Hi Hg]. unfold initialize_enter. rewrite Hi.
  destruct Hg as [H0 | [H0 | H0]]; rewrite H0; simpl;
    rewrite ?andb_false_r; reflexivity.
Qed.

Lemma initialize_tokens_stored env state :
  ConnectionPoolProps.starts env state ->
  let state' := fst (initialize env state) in
  openaiToken state' = value_of (fetchOpenAIToken env)
  /\ elevenlabsToken state' = value_of (fetchElevenLabsToken env).
Proof.
  intros Hs. unfold initialize. rewrite (initialize_enter_starts env state Hs).
  split; reflexivity.
Qed.

(** X9. A run of [initialize] that passes the guards fetches each token
    once, stores exactly the tokens whose fetch was fulfilled, and starts
    a connection for a provider exactly with the token fetched for it.
    An adapter found in the pool afterwards belongs to its slot's
    provider and was configured with the token and the URL stored for
    that provider. *)
Theorem initialize_requests_and_adapters (env : Env)
  (state : ConnectionPoolState) :
  ConnectionPoolProps.starts env state ->
  let state' := fst (initialize env state) in
  let requests := snd (initialize env state) in
  fetches requests = [openai; elevenlabs]
  /\ (forall p, tokenOf state' p = value_of (fetchToken env p))
  /\ (forall p t, In (Connect p t) requests <-> fetchToken env p = fulfilled t)
  /\ (forall p a, getAdapter state' p = Some a ->
        exists t, tokenOf state' p = Some t
                  /\ connect env p t = fulfilled tt
                  /\ providerId a = p
                  /\ config_token a = token t
                  /\ config_websocketUrl a = websocketUrl t).
Proof.
  intros Hs. unfold initialize.
  rewrite (initialize_enter_starts env state Hs).
  unfold initialize_tokens, initialize_connected, createOpenAIAdapter,
    createElevenLabsAdapter, fetchToken, tokenOf, getAdapter.
  destruct (fetchOpenAIToken env) as [t1|r1];
    destruct (fetchElevenLabsToken env) as [t2|r2]; simpl.
  all: split; [reflexivity|].
  all: split; [intros [|]; reflexivity|].
  all: split.
  all: try (intros p t; split;
            [ intros H;
              repeat (destruct H as [H|H];
                      [try discriminate H; inversion H; subst; reflexivity|]);
              contradiction H
            | destruct p; intros H; try discriminate H; inversion H; subst;
              simpl; auto 6 ]).
  all: intros [|] a; simpl;
    try destruct (connect env openai t1) as [[]|] eqn:C1;
    try destruct (connect env elevenlabs t2) as [[]|] eqn:C2;
    simpl; intros H; inversion H; subst; simpl;
    eexists; repeat split; eauto.
Qed.

(** A run of [initialize] from the initial state, ElevenLabs alone
    connecting. *)
Lemma initialize_requests_and_adapters_witness :
  snd (initialize ConnectionPoolProps.openaiDown initialState) =
    [FetchToken openai; FetchToken elevenlabs;
     Connect elevenlabs ConnectionPoolProps.sampleToken]
  /\ forall a,
       getAdapter (fst (initialize ConnectionPoolProps.openaiDown
                          initialState)) elevenlabs = Some a ->
       config_token a = "tok"%string.
Proof.
  split; [reflexivity|].
  intros a Ha.
  destruct (initialize_requests_and_adapters ConnectionPoolProps.openaiDown
              initialState) as [_ [_ [_ H]]].
  { split; [reflexivity | left; reflexivity]. }
  destruct (H elevenlabs a Ha) as [t [Ht [_ [_ [Hk _]]]]].
  rewrite Hk. inversion Ht. reflexivity.
Defined.

(** X10. The call of [initialize] that follows a run takes the fast
    path, issuing no request and changing nothing, exactly when the run
    connected some provider, both token fetches were fulfilled, and both
    tokens are still more than the refresh buffer away from their expiry.
    In particular a ready pool one of whose token fetches was rejected
    starts over at every call. *)
Theorem second_initialize_skips_iff (env env' : Env)
  (state : ConnectionPoolState) :
  ConnectionPoolProps.starts env state ->
  let state' := fst (initialize env state) in
  (initialize env' state' = (state', []) <->
   (connects env openai = true \/ connects env elevenlabs = true)
   /\ exists t1 t2,
        fetchOpenAIToken env = fulfilled t1
        /\ fetchElevenLabsToken env = fulfilled t2
        /\ Date_now env' < expiresAt t1 - TOKEN_REFRESH_BUFFER_MS
        /\ Date_now env' < expiresAt t2 - TOKEN_REFRESH_BUFFER_MS)
  /\ ((exists r, fetchOpenAIToken env = rejected r)
      \/ (exists r, fetchElevenLabsToken env = rejected r) ->
      ConnectionPoolProps.starts env' state').
Proof.
  intros Hs state'.
  destruct (ConnectionPoolProps.initialize_run env state Hs)
    as [Hi [Hr _]].
  destruct (initialize_tokens_stored env state Hs) as [T1 T2].
  fold state' in Hi, Hr, T1, T2.
  assert (Skip : initialize env' state' = (state', []) <->
                 isReady state'
                 && negb (isTokenExpired (Date_now env') (openaiToken state'))
                 && negb (isTokenExpired (Date_now env')
                            (elevenlabsToken state')) = true).
  { unfold initialize, initialize_enter. rewrite Hi.
    destruct (isReady state'
              && negb (isTokenExpired (Date_now env') (openaiToken state'))
              && negb (isTokenExpired (Date_now env')
                         (elevenlabsToken state'))); simpl.
    - split; reflexivity || auto.
    - split; [|discriminate]. intros H. inversion H. }
  split.
  - rewrite Skip, Hr, T1, T2. unfold isTokenExpired.
    destruct (fetchOpenAIToken env) as [t1|r1];
      destruct (fetchElevenLabsToken env) as [t2|r2]; simpl;
      rewrite ?andb_false_r.
    + rewrite !andb_true_iff, !negb_true_iff, !Z.geb_leb, !Z.leb_gt,
        orb_true_iff.
      split.
      * intros [[H0 H1] H2]. split; [exact H0|]. exists t1, t2. auto.
      * intros [H0 [u1 [u2 [E1 [E2 [H1 H2]]]]]].
        inversion E1; inversion E2; subst. auto.
    + split; [discriminate|]. intros [_ [u1 [u2 [_ [E _]]]]]. discriminate E.
    + split; [discriminate|]. intros [_ [u1 [u2 [E _]]]]. discriminate E.
    + split; [discriminate|]. intros [_ [u1 [u2 [E _]]]]. discriminate E.
  - intros H. split; [exact Hi|]. right. rewrite T1, T2.
    destruct H as [[r E] | [r E]]; rewrite E; simpl; auto.
Qed.

Lemma second_initialize_skips_iff_witness :
  ConnectionPoolProps.starts ConnectionPoolProps.openaiDown
    (fst (initialize ConnectionPoolProps.openaiDown initialState)).
Proof.
  assert (Hs : ConnectionPoolProps.starts ConnectionPoolProps.openaiDown
                 initialState).
  { split; [reflexivity | left; reflexivity]. }
  destruct (second_initialize_skips_iff ConnectionPoolProps.openaiDown
              ConnectionPoolProps.openaiDown initialState Hs) as [_ H].
  apply H. left. eexists. reflexivity.
Defined.

(** The [catch] block after a first and after a third failure. *)
Example initialize_catch_retries :
  let first := initialize_catch "offline" initialState in
  let third :=
    initialize_catch "offline"
      (fst (initialize_catch "offline" (fst first))) in
  error (fst first) = Some "Connection failed, retrying (1/3)..."%string
  /\ snd first = Some 1000
  /\ reconnectAttempts (fst first) = 1
  /\ error (fst third)
     = Some "Failed to initialize after 3 attempts: offline"%string
  /\ snd third = None.
Proof. repeat split; vm_compute; reflexivity. Qed.

End ConnectionPoolRunProps.

(** ** The hook's listeners and resources *)

Module DualSTTEventProps.

Import JsString JsNumber SessionStore DualSTT.
Open Scope Z_scope.

Definition otherProvider (p : ProviderId) : ProviderId :=
  match p with openai => elevenlabs | elevenlabs => openai end.

Definition isFinalEvent (e : AdapterEvent) : bool :=
  match e with transcript_final _ _ _ => true | _ => false end.

Section Listeners.

Variable calculateSimilarity : str -> str -> float.
Variable detectFillers : str -> list Fluency.FillerCount.
Variable countTotalFillers : list Fluency.FillerCount -> Z.
Variable calculateStructure :
  str -> StructureMode -> option (list str) -> float * StructureBreakdown.
Variable costRates : ProviderId -> float.

Let listener :=
  setupProviderEvents calculateSimilarity detectFillers countTotalFillers
    calculateStructure costRates.

Let computeScores :=
  SessionStore.computeScores calculateSimilarity detectFillers
    countTotalFillers calculateStructure costRates.

(** What [computeScores] leaves alone. *)
Lemma computeScores_leaves p s :
  let s' := computeScores p s in
  resultOf (otherProvider p) s' = resultOf (otherProvider p) s
  /\ questionBank s' = questionBank s
  /\ currentQuestionIndex s' = currentQuestionIndex s
  /\ selectedChoiceIndex s' = selectedChoiceIndex s
  /\ testMode s' = testMode s
  /\ openEndedResult s' = openEndedResult s
  /\ isAIScoring s' = isAIScoring s
  /\ (recordingState s' = recordingState s
      \/ recordingState s' = RecordingState.completed
         /\ status (resultOf (otherProvider p) s) = ProviderStatus.completed).
Proof.
  unfold computeScores, SessionStore.computeScores.
  destruct (getCurrentQuestion s) as [q|]; [|simpl; tauto].
  destruct (first_nonempty _ _ _) as [|c text]; [simpl; tauto|].
  destruct p; simpl.
  - destruct (status (elevenlabsResult s)) eqn:E; simpl; tauto.
  - destruct (status (openaiResult s)) eqn:E; simpl; tauto.
Qed.

(** X11. The listeners of one provider's adapter never touch the other
    provider's result, the question bank, the question index, the
    selected choice or the test mode.  The recording state changes only
    when a final transcript is scored while the other provider is
    already completed, and then to [completed].  Metrics are written by
    the final-transcript listener alone. *)
Theorem provider_events_are_isolated (start : Z) (p : ProviderId)
  (event : AdapterEvent) (state : SessionState) :
  let state' := listener start p event state in
  resultOf (otherProvider p) state' = resultOf (otherProvider p) state
  /\ questionBank state' = questionBank state
  /\ currentQuestionIndex state' = currentQuestionIndex state
  /\ selectedChoiceIndex state' = selectedChoiceIndex state
  /\ testMode state' = testMode state
  /\ (recordingState state' = recordingState state
      \/ isFinalEvent event = true
         /\ recordingState state' = RecordingState.completed
         /\ status (resultOf (otherProvider p) state) = ProviderStatus.completed)
  /\ (isFinalEvent event = false ->
      metrics (resultOf p state') = metrics (resultOf p state)
      /\ recordingState state' = recordingState state).
Proof.
  destruct event as [cs|text|text|text now ws|ws|msg];
    unfold listener, setupProviderEvents.
  - destruct (String.eqb cs "connected");
      [destruct p; simpl; tauto|].
    destruct (String.eqb cs "error"); [destruct p; simpl; tauto|].
    destruct (String.eqb cs "disconnected" || String.eqb cs "closed");
      [|simpl; tauto].
    cbv zeta.
    destruct (ProviderStatus.eqb (status (resultOf p state))
                ProviderStatus.listening
              || ProviderStatus.eqb (status (resultOf p state))
                   ProviderStatus.processing);
      destruct p; simpl; tauto.
  - destruct p; simpl; tauto.
  - destruct p; simpl; tauto.
  - cbv zeta.
    match goal with
    | |- context [SessionStore.computeScores _ _ _ _ _ p ?s] =>
        pose proof (computeScores_leaves p s) as H; set (s1 := s) in *
    end.
    unfold computeScores in H. cbv zeta in H.
    destruct H as [H1 [H2 [H3 [H4 [H5 [_ [_ H8]]]]]]].
    rewrite H1, H2, H3, H4, H5.
    assert (F : resultOf (otherProvider p) s1 = resultOf (otherProvider p) state
                /\ questionBank s1 = questionBank state
                /\ currentQuestionIndex s1 = currentQuestionIndex state
                /\ selectedChoiceIndex s1 = selectedChoiceIndex state
                /\ testMode s1 = testMode state
                /\ recordingState s1 = recordingState state).
    { subst s1. destruct ws; destruct p; simpl; tauto. }
    destruct F as [F1 [F2 [F3 [F4 [F5 F6]]]]].
    rewrite F1, F6 in H8. simpl.
    repeat split; try assumption; try discriminate.
    destruct H8 as [H8 | [H8 H9]]; [left; exact H8 | right; auto].
  - destruct p; simpl; tauto.
  - destruct p; simpl; tauto.
Qed.

(** X12. A final transcript with text, received while a question is
    shown, completes the provider: the text becomes its final text, the
    duration is the time since the recording started, the adapter's word
    timings replace the stored ones when there are any, and the scores
    are those of the event's text, whatever interim or committed text was
    there before. *)
Theorem final_transcript_completes_provider (start now : Z)
  (p : ProviderId) (text : str) (ws : list WordTiming)
  (state : SessionState) :
  getCurrentQuestion state <> None ->
  text <> [] ->
  let r' := resultOf p (listener start p (transcript_final text now ws) state) in
  status r' = ProviderStatus.completed
  /\ finalText (transcript r') = text
  /\ interimText (transcript r') = interimText (transcript (resultOf p state))
  /\ committedText (transcript r')
     = committedText (transcript (resultOf p state))
  /\ durationMs r' = now - start
  /\ words r' = match ws with
                | [] => words (resultOf p state)
                | _ :: _ => Some ws
                end
  /\ fillers r' = detectFillers text
  /\ exists m b,
       metrics r' = Some m /\ breakdown r' = Some b
       /\ Accuracy.normalizedTranscript (breakdown_accuracy b)
          = RadioNormalize.normalizeRadioTranscript text
       /\ fluency m =
          of_Z (100 - Z.min 50 (countTotalFillers (detectFillers text) * 5))
       /\ overall m =
          Overall.calculateOverall (accuracy m) (fluency m) (structure m).
Proof.
  intros Hq Ht. unfold listener, setupProviderEvents. cbv zeta.
  destruct text as [|c text]; [congruence|].
  unfold SessionStore.computeScores.
  assert (Q : forall s, questionBank s = questionBank state ->
                        currentQuestionIndex s = currentQuestionIndex state ->
                        getCurrentQuestion s = getCurrentQuestion state).
  { intros s E1 E2. unfold getCurrentQuestion. rewrite E1, E2. reflexivity. }
  match goal with
  | |- context [getCurrentQuestion ?s] =>
      rewrite (Q s) by (destruct ws; destruct p; reflexivity)
  end.
  destruct (getCurrentQuestion state) as [q|]; [|congruence].
  destruct ws as [|w ws]; destruct p; simpl;
    match goal with
    | |- context [if ?b then _ else _] => destruct b
    end; simpl; repeat split; eexists; eexists; repeat split.
Qed.

End Listeners.

Lemma final_transcript_completes_provider_witness :
  status
    (resultOf openai
       (setupProviderEvents DualSTTProps.sameText FluencyProps.exampleDetect
          FluencyProps.exampleCount DualSTTProps.noStructure
          DualSTTProps.flatRate 1000 openai
          (transcript_final (L "roger") 4000 []) DualSTTProps.stoppedStore))
  = ProviderStatus.completed.
Proof.
  destruct (final_transcript_completes_provider DualSTTProps.sameText
              FluencyProps.exampleDetect FluencyProps.exampleCount
              DualSTTProps.noStructure DualSTTProps.flatRate 1000 4000 openai
              (L "roger") [] DualSTTProps.stoppedStore) as [H _].
  - discriminate.
  - discriminate.
  - exact H.
Defined.

End DualSTTEventProps.

(** ** Timeouts and resources of the hook *)

Module DualSTTResourceProps.

Import JsString JsNumber SessionStore DualSTT.
Open Scope Z_scope.

(** Effects that release or close something an adapter needs. *)
Definition touchesAdapter (e : Effect) : bool :=
  match e with
  | Disconnect _ | EndAudio _ => true
  | _ => false
  end.

Definition isRemoveListener (e : Effect) : bool :=
  match e with RemoveListener _ => true | _ => false end.

Lemma emit_nil w : emit [] w = w.
Proof. destruct w. unfold emit. simpl. rewrite app_nil_r. reflexivity. Qed.

(** X13. [cleanup] releases everything once: after it the chunker, the
    microphone and the listeners are gone and the hook is out of
    fallback mode, and a second [cleanup] finds nothing to do, changing
    no reference and causing no effect. *)
Theorem cleanup_idempotent (w : Hook) :
  cleanup (cleanup w) = cleanup w
  /\ audioChunkerRef (cleanup w) = None
  /\ mediaStreamRef (cleanup w) = None
  /\ eventCleanupRef (cleanup w) = []
  /\ usingFallbackRef (cleanup w) = false
  /\ store (cleanup w) = store w
  /\ recordingCycleRef (cleanup w) = recordingCycleRef w.
Proof.
  destruct w as [s c ch ms er ls fo fe uf po pe es].
  destruct uf; lazy -[app map]; simpl map; rewrite ?app_nil_r;
    repeat split.
Qed.

Section WithConfig.

Variable finalizationMs : Z.
Variable maxRecordingMs : Z.
Variable calculateSimilarity : str -> str -> float.
Variable detectFillers : str -> list Fluency.FillerCount.
Variable countTotalFillers : list Fluency.FillerCount -> Z.
Variable calculateStructure :
  str -> StructureMode -> option (list str) -> float * StructureBreakdown.
Variable costRates : ProviderId -> float.

Let stopRecording := DualSTT.stopRecording finalizationMs.
Let fire :=
  DualSTT.fire finalizationMs calculateSimilarity detectFillers
    countTotalFillers calculateStructure costRates.
Let onFinalizationTimeout :=
  DualSTT.onFinalizationTimeout calculateSimilarity detectFillers
    countTotalFillers calculateStructure costRates.
Let forceCompletion :=
  DualSTT.forceCompletion calculateSimilarity detectFillers
    countTotalFillers calculateStructure costRates.

Lemma store_stopRecording_not_listening now s :
  RecordingState.eqb (recordingState (SessionStore.stopRecording now s))
    RecordingState.listening = false.
Proof.
  unfold SessionStore.stopRecording.
  destruct (recordingState s) eqn:E; simpl; rewrite ?E; reflexivity.
Qed.

Lemma stopRecording_store now w :
  store (stopRecording now w) = SessionStore.stopRecording now (store w).
Proof.
  unfold stopRecording, DualSTT.stopRecording, endAudioIfConnected.
  cbv zeta.
  destruct (poolOpenAI _) as [[|]|]; destruct (poolElevenLabs _) as [[|]|];
    reflexivity.
Qed.

(** X14. A recording is stopped at most once by the clock: once
    [stopRecording] has run, by the user or by the timeout itself, a
    maximum-duration timeout of any cycle that fires changes nothing, so
    no second finalization timeout is armed and no second end-of-audio
    is sent. *)
Theorem max_timeout_after_stop_does_nothing (now now' cycle : Z) (w : Hook) :
  fire now' (MaxRecordingTimeout cycle) (stopRecording now w)
  = stopRecording now w.
Proof.
  unfold fire, DualSTT.fire, onMaxRecordingTimeout.
  fold stopRecording. rewrite stopRecording_store.
  rewrite store_stopRecording_not_listening, andb_false_r. reflexivity.
Qed.

Lemma forceCompletion_refs p state w :
  let w' := forceCompletion p state w in
  effects w' = effects w
  /\ eventCleanupRef w' = eventCleanupRef w
  /\ recordingCycleRef w' = recordingCycleRef w
  /\ audioChunkerRef w' = audioChunkerRef w
  /\ mediaStreamRef w' = mediaStreamRef w
  /\ fallbackOpenAIRef w' = fallbackOpenAIRef w
  /\ fallbackElevenLabsRef w' = fallbackElevenLabsRef w
  /\ usingFallbackRef w' = usingFallbackRef w
  /\ poolOpenAI w' = poolOpenAI w
  /\ poolElevenLabs w' = poolElevenLabs w.
Proof.
  unfold forceCompletion, DualSTT.forceCompletion. cbv zeta.
  destruct (ProviderStatus.eqb _ _); [repeat split|].
  destruct (bestKnown _); repeat split.
Qed.

Lemma cleanupEventListeners_refs w :
  let w' := cleanupEventListeners w in
  effects w' = effects w ++ map RemoveListener (eventCleanupRef w)
  /\ eventCleanupRef w' = []
  /\ audioChunkerRef w' = audioChunkerRef w
  /\ mediaStreamRef w' = mediaStreamRef w
  /\ fallbackOpenAIRef w' = fallbackOpenAIRef w
  /\ fallbackElevenLabsRef w' = fallbackElevenLabsRef w
  /\ usingFallbackRef w' = usingFallbackRef w
  /\ recordingCycleRef w' = recordingCycleRef w.
Proof. destruct w. repeat split. Qed.

(** X15. The finalization timeout leaves the adapters to the pool: all
    it does outside the store is to remove the listeners registered in
    the recording, each once, and to forget them.  It sends no
    end-of-audio, disconnects nothing and arms no timer; the chunker,
    microphone and fallback references are not touched. *)
Theorem finalization_keeps_adapters (cycleAtStop : Z) (w : Hook) :
  let w' := onFinalizationTimeout cycleAtStop w in
  (effects w' =
     effects w ++
     (if recordingCycleRef w =? cycleAtStop
      then map RemoveListener (eventCleanupRef w) else []))
  /\ eventCleanupRef w' =
     (if recordingCycleRef w =? cycleAtStop then [] else eventCleanupRef w)
  /\ audioChunkerRef w' = audioChunkerRef w
  /\ mediaStreamRef w' = mediaStreamRef w
  /\ fallbackOpenAIRef w' = fallbackOpenAIRef w
  /\ fallbackElevenLabsRef w' = fallbackElevenLabsRef w
  /\ usingFallbackRef w' = usingFallbackRef w
  /\ recordingCycleRef w' = recordingCycleRef w.
Proof.
  unfold onFinalizationTimeout, DualSTT.onFinalizationTimeout.
  destruct (recordingCycleRef w =? cycleAtStop); cbn [negb];
    cbv beta iota zeta.
  2: { rewrite app_nil_r. repeat split. }
  repeat match goal with
         | |- context [DualSTT.forceCompletion calculateSimilarity
                         detectFillers countTotalFillers calculateStructure
                         costRates ?p ?st ?x] =>
             change (DualSTT.forceCompletion calculateSimilarity
                       detectFillers countTotalFillers calculateStructure
                       costRates p st x)
               with (forceCompletion p st x)
         end.
  pose proof (forceCompletion_refs openai (store w) w) as H1.
  pose proof (forceCompletion_refs elevenlabs (store w)
                (forceCompletion openai (store w) w)) as H2.
  cbv zeta in H1, H2.
  set (w2 := forceCompletion elevenlabs (store w)
               (forceCompletion openai (store w) w)) in *.
  destruct H1 as [A1 [A2 [A3 [A4 [A5 [A6 [A7 [A8 _]]]]]]]].
  destruct H2 as [B1 [B2 [B3 [B4 [B5 [B6 [B7 [B8 _]]]]]]]].
  destruct (cleanupEventListeners_refs
              (with_store (setRecordingCompleted (store w2)) w2))
    as [C1 [C2 [C3 [C4 [C5 [C6 [C7 C8]]]]]]].
  rewrite C1, C2, C3, C4, C5, C6, C7, C8.
  unfold with_store.
  cbn [effects eventCleanupRef recordingCycleRef audioChunkerRef
       mediaStreamRef fallbackOpenAIRef fallbackElevenLabsRef
       usingFallbackRef].
  rewrite B1, B2, B3, B4, B5, B6, B7, B8, A1, A2, A3, A4, A5, A6, A7, A8.
  repeat split.
Qed.

(** The adapter of the pool for a provider is there and connected. *)
Definition poolConnected (p : ProviderId) (w : Hook) : Prop :=
  match p with
  | openai => poolOpenAI w = Some true
  | elevenlabs => poolElevenLabs w = Some true
  end.

(** X16. [stopRecording] only adds effects, and the last one arms the
    finalization timeout of the current cycle, the only timer it sets.
    Before that it sends end-of-audio to a provider exactly when the
    pool's adapter for it is connected, and stops the chunker and the
    microphone exactly when the hook holds them; it removes no listener
    and disconnects nothing, so transcripts that arrive before the
    timeout still reach the store. *)
Theorem stopRecording_effects (now : Z) (w : Hook) :
  let w' := stopRecording now w in
  exists added,
    effects w' =
      effects w ++ added
      ++ [SetTimeout (FinalizationTimeout (recordingCycleRef w)) finalizationMs]
    /\ (forall e, In e added ->
        match e with
        | RemoveListener _ | Disconnect _ | SetTimeout _ _ => False
        | _ => True
        end)
    /\ (forall p, In (EndAudio p) added <-> poolConnected p w)
    /\ (forall c, In (ChunkerStop c) added <-> audioChunkerRef w = Some c)
    /\ (forall m, In (StopMicStream m) added <-> mediaStreamRef w = Some m)
    /\ eventCleanupRef w' = eventCleanupRef w
    /\ recordingCycleRef w' = recordingCycleRef w
    /\ audioChunkerRef w' = None
    /\ mediaStreamRef w' = None.
Proof.
  destruct w as [s c ch ms er ls fo fe uf po pe es].
  unfold stopRecording, poolConnected.
  exists ((match ch with Some c => [ChunkerStop c] | None => [] end)
          ++ (match ms with Some m => [StopMicStream m] | None => [] end)
          ++ (match po with Some true => [EndAudio openai] | _ => [] end)
          ++ (match pe with Some true => [EndAudio elevenlabs] | _ => [] end)).
  split.
  { destruct po as [[|]|]; destruct pe as [[|]|];
      lazy -[app SessionStore.stopRecording]; rewrite <- ?app_assoc;
      rewrite ?app_nil_r; reflexivity. }
  split.
  { intros e He.
    destruct ch, ms, po as [[|]|], pe as [[|]|]; simpl in He;
      repeat (destruct He as [<- | He]; [exact I|]); destruct He. }
  split.
  { intros p. cbn [poolOpenAI poolElevenLabs].
    destruct ch, ms, po as [[|]|], pe as [[|]|], p; simpl;
      split; intros H;
      repeat (destruct H as [H | H]; try discriminate H);
      try contradiction; try discriminate; auto 6. }
  split.
  { intros c0. cbn [audioChunkerRef].
    destruct ch, ms, po as [[|]|], pe as [[|]|]; simpl;
      split; intros H;
      repeat (destruct H as [H | H];
              try discriminate H; try (injection H as <-; reflexivity));
      try contradiction; try discriminate;
      try (injection H as <-; auto). }
  split.
  { intros m0. cbn [mediaStreamRef].
    destruct ch, ms, po as [[|]|], pe as [[|]|]; simpl;
      split; intros H;
      repeat (destruct H as [H | H];
              try discriminate H; try (injection H as <-; reflexivity));
      try contradiction; try discriminate;
      try (injection H as <-; auto 6). }
  destruct po as [[|]|]; destruct pe as [[|]|];
    lazy -[app SessionStore.stopRecording]; repeat split.
Qed.

End WithConfig.

End DualSTTResourceProps.

(** ** What a recording cycle leaves in the ElevenLabs adapter *)

Module ElevenLabsRunProps.

Import JsString ElevenLabs.
Open Scope Z_scope.

(** The text of a committed transcript. *)
Definition committed (m : Incoming) : option str :=
  match m with
  | Json (committed_transcript text) => Some text
  | Json (committed_transcript_with_timestamps text _) => Some text
  | _ => None
  end.

(** Every committed segment followed by a space, in order of receipt. *)
Fixpoint segments (msgs : list Incoming) : str :=
  match msgs with
  | [] => []
  | m :: rest =>
      match committed m with
      | Some text => text ++ L " " ++ segments rest
      | None => segments rest
      end
  end.

(** The last committed segment, or [dflt] when there is none. *)
Fixpoint lastSegment (msgs : list Incoming) (dflt : str) : str :=
  match msgs with
  | [] => dflt
  | m :: rest =>
      match committed m with
      | Some text => lastSegment rest text
      | None => lastSegment rest dflt
      end
  end.

Lemma handleMessage_texts now m a :
  let t' := transcript (fst (handleMessage now m a)) in
  committedText t' =
    committedText (transcript a)
    ++ match committed m with Some text => text ++ L " " | None => [] end
  /\ finalText t' =
     match committed m with
     | Some text => text
     | None => finalText (transcript a)
     end.
Proof.
  cbv zeta. rewrite ElevenLabsProps.handleMessage_transcript.
  destruct m as [| |[sid|text|text|text ws|k c msg e|ty]]; simpl;
    rewrite ?app_nil_r; split; reflexivity.
Qed.

(** X17. After the messages of a cycle, the adapter's committed text is
    what it was before followed by every committed segment, each with a
    space after it, in order of receipt; its final text is the last
    committed segment alone (or what it was, if nothing was committed).
    Interim transcripts, errors, unknown and binary messages contribute
    to neither. *)
Theorem run_committed_and_final_text (now : Z) (msgs : list Incoming)
  (a : Adapter) :
  committedText (transcript (run now msgs a)) =
    committedText (transcript a) ++ segments msgs
  /\ finalText (transcript (run now msgs a)) =
     lastSegment msgs (finalText (transcript a)).
Proof.
  revert now a. induction msgs as [|m msgs IH]; intros now a; simpl.
  - rewrite app_nil_r. split; reflexivity.
  - destruct (IH (now + 1) (fst (handleMessage now m a))) as [H1 H2].
    destruct (handleMessage_texts now m a) as [E1 E2]. cbv zeta in E1, E2.
    rewrite H1, H2, E1, E2.
    destruct (committed m) as [text|]; rewrite <- ?app_assoc, ?app_nil_r;
      split; reflexivity.
Qed.

(** *** Word timings *)

(** No timing of the list repeats the word, start and end of an earlier
    one. *)
Definition distinct (l : list WordTiming) : Prop :=
  ForallOrdPairs (fun v w => same_timing v w = false) l.

Lemma distinct_snoc l w :
  distinct l -> existsb (fun v => same_timing v w) l = false ->
  distinct (l ++ [w]).
Proof.
  unfold distinct. induction 1 as [|v l Hv Hl IH]; intros He; simpl.
  - constructor; constructor.
  - simpl in He. apply orb_false_iff in He. destruct He as [He1 He2].
    constructor; [|apply IH; exact He2].
    apply Forall_app. split; [exact Hv|]. constructor; [exact He1|constructor].
Qed.

Lemma processWordTimings_timings ws a :
  let r := processWordTimings ws a in
  (exists added,
     wordTimings (fst r) = wordTimings a ++ added
     /\ snd r = map ev_word_timing added)
  /\ (distinct (wordTimings a) -> distinct (wordTimings (fst r))).
Proof.
  revert a. induction ws as [|w ws IH]; intros a; simpl.
  - split; [exists []; rewrite app_nil_r; split; reflexivity | auto].
  - set (t := {| word := wi_word w;
                 startMs := JsNumber.Math_round (wi_start w * 1000)%float;
                 endMs := JsNumber.Math_round (wi_end w * 1000)%float;
                 confidence := wi_confidence w |}).
    destruct (existsb (fun v => same_timing v t) (wordTimings a)) eqn:E.
    + apply IH.
    + specialize (IH (addWordTiming t a)). cbv zeta in IH.
      destruct (processWordTimings ws (addWordTiming t a)) as [a' es].
      simpl in *. destruct IH as [[added [H1 H2]] H3]. split.
      * exists (t :: added). rewrite H1, H2, <- app_assoc. split; reflexivity.
      * intros Hd. apply H3, distinct_snoc; assumption.
Qed.

Lemma handleMessage_timings now m a :
  (exists added,
     wordTimings (fst (handleMessage now m a)) = wordTimings a ++ added)
  /\ (distinct (wordTimings a) ->
      distinct (wordTimings (fst (handleMessage now m a)))).
Proof.
  destruct m as [| |[sid|text|text|text ws|k c msg e|ty]]; simpl;
    try (split; [exists []; rewrite app_nil_r; reflexivity | auto]).
  unfold handleCommittedTranscriptWithTimestamps.
  destruct ws as [[|w ws]|];
    try (split; [exists []; rewrite app_nil_r; reflexivity | auto]).
  pose proof (processWordTimings_timings (w :: ws) a) as H. cbv zeta in H.
  destruct (processWordTimings (w :: ws) a) as [a' es].
  destruct H as [[added [H1 _]] H2]. simpl in *.
  split; [exists added; exact H1 | exact H2].
Qed.

(** X18. The adapter's word timings are append-only and free of
    repetitions: a cycle keeps the timings it started with as a prefix,
    and if no two of them had the same word, start and end, no two have
    afterwards, whatever the vendor repeats. *)
Theorem word_timings_append_only_and_distinct (now : Z)
  (msgs : list Incoming) (a : Adapter) :
  distinct (wordTimings a) ->
  (exists added, wordTimings (run now msgs a) = wordTimings a ++ added)
  /\ distinct (wordTimings (run now msgs a)).
Proof.
  revert now a. induction msgs as [|m msgs IH]; intros now a Hd; simpl.
  - split; [exists []; rewrite app_nil_r; reflexivity | exact Hd].
  - destruct (handleMessage_timings now m a) as [[s1 H1] H2].
    destruct (IH (now + 1) (fst (handleMessage now m a)) (H2 Hd))
      as [[s2 H3] H4].
    split; [|exact H4].
    exists (s1 ++ s2). rewrite H3, H1, app_assoc. reflexivity.
Qed.

(** The vendor sends the same word twice in one message and again in the
    next. *)
Definition hello : ElevenLabsWordInfo :=
  {| wi_word := L "hello"; wi_start := 0.5%float; wi_end := 0.75%float;
     wi_confidence := None |}.

Definition repeated : list Incoming :=
  [ Json (committed_transcript_with_timestamps (L "hello")
            (Some [hello; hello]));
    Json (committed_transcript_with_timestamps (L "hello") (Some [hello])) ].

Lemma word_timings_append_only_and_distinct_witness :
  distinct (wordTimings (run 0 repeated fresh))
  /\ List.length (wordTimings (run 0 repeated fresh)) = 1%nat.
Proof.
  split; [|vm_compute; reflexivity].
  apply (word_timings_append_only_and_distinct 0 repeated fresh).
  constructor.
Defined.

(** *** Errors *)

(** X19. An error event that carries no code (or an empty one) is
    reported under the name of its message type and is never
    recoverable; the adapter's status becomes [error] and the message is
    recorded, the transcript and the word timings staying as they
    were. *)
Theorem error_without_code_is_not_recoverable (k : ErrorKind)
  (code message error_ : option str) (a : Adapter) :
  code = None \/ code = Some [] ->
  let msg := or_else message (or_else error_ (L "Unknown ElevenLabs error")) in
  let r := handleErrorEvent k code message error_ a in
  snd r = [ev_error (kind_name k) msg false]
  /\ _status (fst r) = error
  /\ errors (fst r) = errors a ++ [msg]
  /\ transcript (fst r) = transcript a
  /\ wordTimings (fst r) = wordTimings a.
Proof.
  intros Hc msg r. subst r. unfold handleErrorEvent.
  assert (E : or_else code (kind_name k) = kind_name k).
  { destruct Hc; subst code; reflexivity. }
  rewrite E. fold msg. cbv zeta.
  assert (R : isRecoverableError (kind_name k) = false).
  { destruct k; vm_compute; reflexivity. }
  rewrite R. repeat split.
Qed.

Lemma error_without_code_is_not_recoverable_witness :
  snd (handleErrorEvent scribeThrottledError None (Some (L "slow down")) None
         fresh)
  = [ev_error (L "scribeThrottledError") (L "slow down") false].
Proof.
  destruct (error_without_code_is_not_recoverable scribeThrottledError None
              (Some (L "slow down")) None fresh) as [H _].
  - left. reflexivity.
  - exact H.
Defined.

End ElevenLabsRunProps.

(** ** Scoring an open-ended response *)

Module OpenEndedProps.

Import JsString SessionStore OpenAIChatScoring OpenEnded WhitespaceProps.
Open Scope Z_scope.

Lemma blank_trimStart s : blank (trimStart s) = blank s.
Proof.
  unfold blank. induction s as [|c s IH]; [reflexivity|]. simpl.
  destruct (is_space c) eqn:E; simpl; [exact IH | rewrite E; reflexivity].
Qed.

(** [s.trim().length === 0] says that [s] is whitespace only. *)
Lemma trim_length_blank s :
  (List.length (trim s) =? 0)%nat = blank s.
Proof.
  unfold trim.
  rewrite <- (blank_trimStart s), <- (blank_trimEnd (trimStart s)).
  destruct (trimEnd (trimStart s)) as [|c t] eqn:E; [reflexivity|].
  assert (T : trimEnd (c :: t) = c :: t)
    by (rewrite <- E; apply trimEnd_trimEnd).
  rewrite trimEnd_cons in T.
  destruct (blank (c :: t)); [discriminate T | reflexivity].
Qed.

Lemma scoreWithOpenAI_speech systemPrompt request :
  blank (transcript request) = false ->
  scoreWithOpenAI systemPrompt request =
    CallChatAPI
      [ {| role := system; content := systemPrompt |};
        {| role := user; content := buildUserPrompt request |} ].
Proof.
  intros H. unfold scoreWithOpenAI.
  destruct (transcript request) as [|c t] eqn:T; [discriminate H|].
  rewrite trim_length_blank, H. reflexivity.
Qed.

(** The user prompt before the quoted expected answer, and after the
    quoted transcript. *)
Definition promptHead (request : OpenAIScoreRequest) : str :=
  L "## EVALUATION REQUEST" ++ nl ++ nl
    ++ L "### Scenario:" ++ nl
    ++ scenarioPrompt request ++ nl ++ nl
    ++ L "### Structure Mode: "
    ++ formatStructureMode (structureMode request) ++ nl ++ nl
    ++ L "### Expected Response:" ++ nl.

Definition promptTail : str :=
  nl ++ nl
    ++ L "Please evaluate the trainee's response and provide scores and feedback in the JSON format specified.".

Lemma buildUserPrompt_quotes request :
  buildUserPrompt request =
    promptHead request ++ [RadioNormalize.dquote] ++ expectedAnswer request
    ++ [RadioNormalize.dquote] ++ nl ++ nl
    ++ L "### Trainee's Actual Response:" ++ nl
    ++ [RadioNormalize.dquote] ++ transcript request
    ++ [RadioNormalize.dquote] ++ promptTail.
Proof.
  unfold buildUserPrompt, promptHead, promptTail.
  generalize (L "## EVALUATION REQUEST") (L "### Scenario:")
    (L "### Structure Mode: ") (L "### Expected Response:")
    (L "### Trainee's Actual Response:")
    (L "Please evaluate the trainee's response and provide scores and feedback in the JSON format specified.")
    (formatStructureMode (structureMode request)) nl.
  intros. rewrite <- !app_assoc. reflexivity.
Qed.

(** X20. [scoreWithOpenAI] calls the chat endpoint exactly when the
    transcript has a character that is not whitespace, and then with two
    messages: the system prompt, and a user prompt that quotes the
    transcript as it was given, untrimmed, after the expected answer. *)
Theorem scoreWithOpenAI_calls_iff_speech (systemPrompt : str)
  (request : OpenAIScoreRequest) :
  ((exists messages,
      scoreWithOpenAI systemPrompt request = CallChatAPI messages)
   <-> exists c, In c (transcript request) /\ is_space c = false)
  /\ forall messages,
       scoreWithOpenAI systemPrompt request = CallChatAPI messages ->
       exists before after,
         messages =
           [ {| role := system; content := systemPrompt |};
             {| role := user;
                content :=
                  before ++ [RadioNormalize.dquote] ++ expectedAnswer request
                  ++ [RadioNormalize.dquote] ++ nl ++ nl
                  ++ L "### Trainee's Actual Response:" ++ nl
                  ++ [RadioNormalize.dquote] ++ transcript request
                  ++ [RadioNormalize.dquote] ++ after |} ].
Proof.
  assert (B : blank (transcript request) = false <->
              exists c, In c (transcript request) /\ is_space c = false).
  { unfold blank. split.
    - intros H. induction (transcript request) as [|c t IH];
        [discriminate H|].
      simpl in H. destruct (is_space c) eqn:E.
      + destruct (IH H) as [d [Hd Hs]]. exists d. split; [right|]; assumption.
      + exists c. split; [left; reflexivity | exact E].
    - intros [c [Hc Hs]].
      destruct (forallb is_space (transcript request)) eqn:E; [|reflexivity].
      rewrite forallb_forall in E. rewrite (E c Hc) in Hs. discriminate Hs. }
  destruct (blank (transcript request)) eqn:E.
  - assert (R : scoreWithOpenAI systemPrompt request = Resolved noResponse).
    { unfold scoreWithOpenAI.
      destruct (transcript request) as [|c t] eqn:T; [reflexivity|].
      rewrite trim_length_blank, E. reflexivity. }
    rewrite R. split.
    + split; [intros [m H]; discriminate H|].
      intros H. apply B in H. discriminate H.
    + intros m H. discriminate H.
  - rewrite (scoreWithOpenAI_speech systemPrompt request E). split.
    + split; [intros _; apply B; reflexivity | intros _; eexists; reflexivity].
    + intros m H. injection H as <-.
      exists (promptHead request), promptTail.
      rewrite (buildUserPrompt_quotes request). reflexivity.
Qed.

(** X21. [scoreOpenEndedResponse] never asks for a score of silence:
    without a current question, or with a transcript that is empty or
    whitespace only, it returns without touching the state; otherwise it
    sets [isAIScoring] and the request it makes carries the transcript,
    the prompt and the structure mode of the current question, and
    [scoreWithOpenAI] answers it by a call of the chat endpoint, never
    by its fixed no-response result. *)
Theorem scoreOpenEndedResponse_never_scores_silence (systemPrompt : str)
  (text : str) (state : SessionState) :
  match scoreOpenEndedResponse_enter text state with
  | (state', Returned) =>
      state' = state
      /\ (getCurrentQuestion state = None \/ blank text = true)
  | (state', AwaitingScore request) =>
      state' = set_isAIScoring true state
      /\ blank text = false
      /\ transcript request = text
      /\ (exists q, getCurrentQuestion state = Some q
                    /\ scenarioPrompt request = prompt q
                    /\ structureMode request = SessionStore.structureMode q)
      /\ scoreWithOpenAI systemPrompt request =
           CallChatAPI
             [ {| role := system; content := systemPrompt |};
               {| role := user; content := buildUserPrompt request |} ]
  end.
Proof.
  unfold scoreOpenEndedResponse_enter.
  destruct (getCurrentQuestion state) as [q|]; [|split; auto].
  destruct text as [|c t]; [split; auto|].
  rewrite trim_length_blank.
  destruct (blank (c :: t)) eqn:E; [split; auto|].
  repeat split.
  - exists q. repeat split.
  - apply scoreWithOpenAI_speech. exact E.
Qed.

(** X22. A call of [scoreOpenEndedResponse] that gets past its guards
    always ends the recording: whether the scoring call returned or
    threw, [isAIScoring] is cleared, the recording state is [completed],
    and a result is stored; a failure stores zero scores.  The provider
    results, the question and the selected choice are not changed. *)
Theorem scoreOpenEndedResponse_completes
  (score : OpenAIScoreRequest -> ScoreOutcome) (text : str)
  (state : SessionState) :
  getCurrentQuestion state <> None ->
  blank text = false ->
  let state' := scoreOpenEndedResponse score text state in
  isAIScoring state' = false
  /\ recordingState state' = RecordingState.completed
  /\ (exists request result,
        fst (scoreOpenEndedResponse_enter text state)
          = set_isAIScoring true state
        /\ snd (scoreOpenEndedResponse_enter text state)
          = AwaitingScore request
        /\ openEndedResult state' = Some result
        /\ match score request with
           | Scored r => result = r
           | Threw _ =>
               ai_accuracy result = 0 /\ ai_fluency result = 0
               /\ ai_structure result = 0 /\ ai_overall result = 0
           end)
  /\ openaiResult state' = openaiResult state
  /\ elevenlabsResult state' = elevenlabsResult state
  /\ getCurrentQuestion state' = getCurrentQuestion state
  /\ selectedChoiceIndex state' = selectedChoiceIndex state.
Proof.
  intros Hq Hb. unfold scoreOpenEndedResponse, scoreOpenEndedResponse_enter.
  destruct (getCurrentQuestion state) as [q|] eqn:Q; [|congruence].
  destruct text as [|c t]; [discriminate Hb|].
  rewrite trim_length_blank, Hb. cbv zeta. simpl.
  repeat split.
  - eexists. eexists. repeat split.
    destruct (score _); [reflexivity | repeat split].
  - exact Q.
Qed.

Lemma scoreOpenEndedResponse_completes_witness :
  recordingState
    (scoreOpenEndedResponse (fun _ => Threw (Some "Chat API request timed out"%string))
       (L "ATC Bowser One") DualSTTProps.stoppedStore)
  = RecordingState.completed.
Proof.
  destruct (scoreOpenEndedResponse_completes
              (fun _ => Threw (Some "Chat API request timed out"%string))
              (L "ATC Bowser One") DualSTTProps.stoppedStore)
    as [_ [H _]].
  - discriminate.
  - reflexivity.
  - exact H.
Defined.

End OpenEndedProps.

(** ** The form of a normalized transcript, and what accuracy makes of it *)

Module NormalFormProps.

Import JsString JsNumber JsRegExp JsRegExpProps WhitespaceProps RadioNormalize.
Import RadioNormalizeProps.

(** X23. Whatever the input, the normalized transcript is in normal
    form: it has no upper-case letter, hyphen or punctuation mark, and
    the cleaning steps of the normalization (lower case, hyphens,
    punctuation, whitespace) leave it as it is.  Only the number and
    phrase rewrites can still change it. *)
Theorem normalized_transcript_is_clean (x : str) :
  let y := normalizeRadioTranscript x in
  (forall c, In c y ->
     lower_char c = c /\ c <> "-"%char /\ is_punct c = false)
  /\ toLowerCase y = y
  /\ normalizeHyphens y = y
  /\ removePunctuation y = y
  /\ trim (collapseSpaces y) = y.
Proof.
  intros y. pose proof (normalizeRadioTranscript_normal x) as N. fold y in N.
  destruct (normal_cleanup_stable y N) as [H1 [H2 [H3 H4]]].
  split; [|auto].
  intros c Hc. destruct N as [Hok _]. unfold all_ok in Hok.
  rewrite forallb_forall in Hok. specialize (Hok c Hc).
  unfold clean, plain, lowfix in Hok.
  apply andb_true_iff in Hok. destruct Hok as [Hp Hq].
  apply andb_true_iff in Hp. destruct Hp as [Hl Hh].
  apply Ascii.eqb_eq in Hl. apply negb_true_iff in Hh, Hq.
  apply Ascii.eqb_neq in Hh. auto.
Qed.

Lemma lower_unhyphen c : lower_char (unhyphen c) = unhyphen (lower_char c).
Proof.
  destruct c as [[|] [|] [|] [|] [|] [|] [|] [|]]; vm_compute; reflexivity.
Qed.

Lemma unhyphen_unhyphen c : unhyphen (unhyphen c) = unhyphen c.
Proof.
  destruct c as [[|] [|] [|] [|] [|] [|] [|] [|]]; vm_compute; reflexivity.
Qed.

Lemma normalize_nonempty (f : ascii -> ascii) x :
  normalizeRadioTranscript (map f x) =
  match x with
  | [] => []
  | _ :: _ =>
      squish (removePunctuation
                (normalizeRadioPhrases
                   (normalizeRadioNumbers
                      (normalizeHyphens (toLowerCase (map f x))))))
  end.
Proof.
  destruct x as [|c x]; [reflexivity|]. simpl map.
  apply normalizeRadioTranscript_steps.
Qed.

(** X24. Normalization does not see letter case, and takes a hyphen for
    a space: a transcript, its lower-case form and its form with every
    hyphen replaced by a space have the same normalized transcript, so
    [areTranscriptsEquivalent] holds between them. *)
Theorem normalization_ignores_case_and_hyphens (x : str) :
  normalizeRadioTranscript (toLowerCase x) = normalizeRadioTranscript x
  /\ normalizeRadioTranscript (map unhyphen x) = normalizeRadioTranscript x
  /\ areTranscriptsEquivalent x (toLowerCase x) = true
  /\ areTranscriptsEquivalent x (map unhyphen x) = true.
Proof.
  assert (A : normalizeRadioTranscript (toLowerCase x)
              = normalizeRadioTranscript x).
  { unfold toLowerCase at 1. rewrite normalize_nonempty.
    destruct x as [|c x]; [reflexivity|].
    rewrite normalizeRadioTranscript_steps.
    fold (toLowerCase (c :: x)).
    rewrite (toLowerCase_fixed (toLowerCase (c :: x)))
      by apply toLowerCase_lowfix.
    reflexivity. }
  assert (B : normalizeRadioTranscript (map unhyphen x)
              = normalizeRadioTranscript x).
  { rewrite normalize_nonempty.
    destruct x as [|c x]; [reflexivity|].
    rewrite normalizeRadioTranscript_steps, !normalizeHyphens_squish.
    unfold toLowerCase. rewrite !map_map.
    do 5 f_equal. apply map_ext. intros a.
    rewrite lower_unhyphen, unhyphen_unhyphen. reflexivity. }
  split; [exact A|]. split; [exact B|].
  unfold areTranscriptsEquivalent. cbv zeta. rewrite A, B.
  destruct (list_eq_dec ascii_dec (normalizeRadioTranscript x)
              (normalizeRadioTranscript x)); [auto | congruence].
Qed.

Section WithSimilarity.

Variable calculateSimilarity : str -> str -> float.

(** X25. If the similarity of a text with itself is 1, a transcript
    that is equivalent to the expected answer after normalization gets
    accuracy 100, however the two were written: digits or words, upper
    or lower case, with or without punctuation. *)
Theorem equivalent_transcripts_have_full_accuracy (transcript expected : str) :
  (forall s, calculateSimilarity s s = 1%float) ->
  areTranscriptsEquivalent transcript expected = true ->
  fst (Accuracy.calculateAccuracy calculateSimilarity transcript
         (Some expected)) = 100%float.
Proof.
  intros Hs He. unfold areTranscriptsEquivalent in He. cbv zeta in He.
  destruct (list_eq_dec ascii_dec (normalizeRadioTranscript transcript)
              (normalizeRadioTranscript expected)) as [E|]; [|discriminate].
  unfold Accuracy.calculateAccuracy. cbv zeta. cbn [fst].
  rewrite E, Hs. vm_compute. reflexivity.
Qed.

End WithSimilarity.

Lemma equivalent_transcripts_have_full_accuracy_witness :
  fst (Accuracy.calculateAccuracy DualSTTProps.sameText
         (L "Bowser 1, taxi to runway 27.")
         (Some (L "bowser one taxi to runway two seven")))
  = 100%float.
Proof.
  apply (equivalent_transcripts_have_full_accuracy DualSTTProps.sameText).
  - intros s. unfold DualSTTProps.sameText.
    destruct (list_eq_dec ascii_dec s s); [reflexivity | congruence].
  - vm_compute. reflexivity.
Defined.

End NormalFormProps.

(** ** The chat proxy between the client and the OpenAI API *)

Module ChatProxyProps.

Import JsString OpenAIChatScoring ChatProxy.
Open Scope Z_scope.

(** The request has messages, and the server a key of the expected
    form. *)
Definition accepted (apiKey : option str) (requestBody : ChatRequest)
  : Prop :=
  (exists m ms, messages requestBody = Some (m :: ms))
  /\ exists key, apiKey = Some key
                 /\ ElevenLabs.starts_with (L "sk-") key = true.

(** The call the handler makes for an accepted request. *)
Definition forwarded (msgs : list ChatMessage) (requestBody : ChatRequest)
  : Completion :=
  {| completion_model := or_else (model requestBody) DEFAULT_MODEL;
     completion_messages := msgs;
     completion_temperature :=
       match temperature requestBody with
       | Some t => t
       | None => 0.3%float
       end;
     completion_max_tokens :=
       match max_tokens requestBody with
       | Some n => n
       | None => 1000
       end;
     completion_response_format := L "json_object" |}.

Lemma post_accepted apiKey fetch requestBody :
  accepted apiKey requestBody ->
  exists msgs key,
    messages requestBody = Some msgs /\ apiKey = Some key
    /\ post apiKey fetch requestBody =
       (respond (fetch (forwarded msgs requestBody)),
        [forwarded msgs requestBody]).
Proof.
  intros [[m [ms Hm]] [key [Hk Hs]]].
  exists (m :: ms), key. split; [exact Hm|]. split; [exact Hk|].
  unfold post. rewrite Hm, Hk.
  destruct key as [|c key]; [discriminate Hs|].
  rewrite Hs. reflexivity.
Qed.

(** X26. The proxy calls the OpenAI API at most once, and exactly when
    the request has a non-empty messages array and the configured key
    starts with [sk-]; a request it does not pass on is answered with
    400 (bad request) or 500 (configuration).  An upstream status of 500
    or more is never passed to the client: it becomes 502, a timeout 504,
    any other failure 500, while an upstream status below 500 that is not
    ok is passed as it is.  An ok answer is answered with 200 and its
    choices when its body is a JSON value other than [null], and with
    500 when the body cannot be read as such; 500 is also the answer
    when the text of an answer that is not ok cannot be read. *)
Theorem proxy_calls_upstream_iff_accepted (apiKey : option str)
  (fetch : Completion -> Fetched) (requestBody : ChatRequest) :
  let reply := fst (post apiKey fetch requestBody) in
  let calls := snd (post apiKey fetch requestBody) in
  (List.length calls <= 1)%nat
  /\ (calls <> [] <-> accepted apiKey requestBody)
  /\ (calls = [] -> statusOf reply = 400 \/ statusOf reply = 500)
  /\ (statusOf reply < 500 \/ statusOf reply = 500 \/ statusOf reply = 502
      \/ statusOf reply = 504)
  /\ (forall call, In call calls ->
      match fetch call with
      | Response status body =>
          if (200 <=? status) && (status <=? 299) then
            match body with
            | Json _ data => reply = Choices data /\ statusOf reply = 200
            | _ => statusOf reply = 500
            end
          else
            match body with
            | Unreadable => statusOf reply = 500
            | _ => statusOf reply = if status >=? 500 then 502 else status
            end
      | AbortError => statusOf reply = 504
      | OtherError => statusOf reply = 500
      end).
Proof.
  intros reply calls.
  assert (A : accepted apiKey requestBody \/ ~ accepted apiKey requestBody).
  { unfold accepted.
    destruct (messages requestBody) as [[|m ms]|];
      try (right; intros [[? [? H]] _]; discriminate H).
    destruct apiKey as [key|];
      [|right; intros [_ [? [H _]]]; discriminate H].
    destruct (ElevenLabs.starts_with (L "sk-") key) eqn:Hs.
    - left. split; [eauto|]. exists key. auto.
    - right. intros [_ [k [H Hk]]]. injection H as <-. congruence. }
  destruct A as [A | A].
  - destruct (post_accepted apiKey fetch requestBody A)
      as [msgs [key [Hm [Hk E]]]].
    subst reply calls. rewrite E. cbn [fst snd List.length].
    set (the_call := forwarded msgs requestBody).
    split; [lia|]. split; [split; [auto | discriminate]|].
    split; [discriminate|]. split.
    + unfold respond, ok, internalError.
      destruct (fetch the_call) as [status body| |];
        cbn [statusOf]; try lia.
      destruct ((200 <=? status) && (status <=? 299)); cbn [negb];
        destruct body; cbn [statusOf]; try lia;
        destruct (status >=? 500) eqn:E5; lia.
    + intros call [<- | []].
      unfold respond, ok, internalError.
      destruct (fetch the_call) as [status body| |];
        cbn [statusOf]; try reflexivity.
      destruct ((200 <=? status) && (status <=? 299)); cbn [negb];
        destruct body; cbn [statusOf]; try reflexivity.
      split; reflexivity.
  - assert (R : calls = [] /\ (statusOf reply = 400 \/ statusOf reply = 500)).
    { subst reply calls. unfold post. unfold accepted in A.
      destruct (messages requestBody) as [[|m ms]|];
        [split; [reflexivity | left; reflexivity] | |
         split; [reflexivity | left; reflexivity]].
      destruct apiKey as [[|c key]|];
        [split; [reflexivity | right; reflexivity] | |
         split; [reflexivity | right; reflexivity]].
      destruct (ElevenLabs.starts_with (L "sk-") (c :: key)) eqn:Hs.
      - exfalso. apply A. split; [eauto|]. exists (c :: key). auto.
      - split; [reflexivity | right; reflexivity]. }
    destruct R as [R1 R2]. rewrite R1. cbn [List.length].
    split; [lia|]. split; [split; [congruence | intros H; contradiction]|].
    split; [auto|]. split; [lia|]. intros call [].
Qed.

(** An ok answer whose body is not JSON: the client gets 500. *)
Example post_ok_not_json :
  fst (post (Some (L "sk-test")) (fun _ => Response 200 NotJson)
         (callChatAPI_body
            [ {| role := user; content := L "Score this." |} ]))
  = ErrorResponse 500 (L "Internal server error") (L "INTERNAL_ERROR").
Proof. reflexivity. Qed.

(** X27. A scoring request of the client reaches the OpenAI API as the
    client built it: when the transcript has speech and the server's key
    starts with [sk-], [scoreWithOpenAI] calls the chat endpoint, the
    proxy accepts the body and makes one call, with the client's two
    messages (system prompt, then user prompt), the default model,
    temperature 0.3 and at most 1000 tokens, asking for a JSON object
    as the response format. *)
Theorem client_request_is_forwarded (systemPrompt key : str)
  (fetch : Completion -> Fetched) (request : OpenAIScoreRequest) :
  WhitespaceProps.blank (transcript request) = false ->
  ElevenLabs.starts_with (L "sk-") key = true ->
  exists msgs,
    scoreWithOpenAI systemPrompt request = CallChatAPI msgs
    /\ accepted (Some key) (callChatAPI_body msgs)
    /\ snd (post (Some key) fetch (callChatAPI_body msgs)) =
       [ {| completion_model := L "gpt-4o-mini";
            completion_messages :=
              [ {| role := system; content := systemPrompt |};
                {| role := user; content := buildUserPrompt request |} ];
            completion_temperature := 0.3%float;
            completion_max_tokens := 1000;
            completion_response_format := L "json_object" |} ].
Proof.
  intros Hb Hs. eexists. split.
  { apply OpenEndedProps.scoreWithOpenAI_speech. exact Hb. }
  split.
  - split; [eexists; eexists; reflexivity|].
    exists key. split; [reflexivity | exact Hs].
  - unfold post, callChatAPI_body. simpl messages.
    destruct key as [|c key]; [discriminate Hs|]. rewrite Hs. reflexivity.
Qed.

Lemma client_request_is_forwarded_witness :
  exists msgs,
    scoreWithOpenAI (L "You are an R/T examiner.")
      {| transcript := L "ATC Bowser One";
         expectedAnswer := L "ATC, Bowser One, over.";
         scenarioPrompt := L "Call ATC.";
         structureMode := SessionStore.full |} = CallChatAPI msgs
    /\ List.length
         (snd (post (Some (L "sk-test")) (fun _ => AbortError)
                 (callChatAPI_body msgs))) = 1%nat.
Proof.
  destruct (client_request_is_forwarded (L "You are an R/T examiner.")
              (L "sk-test") (fun _ => AbortError)
              {| transcript := L "ATC Bowser One";
                 expectedAnswer := L "ATC, Bowser One, over.";
                 scenarioPrompt := L "Call ATC.";
                 structureMode := SessionStore.full |})
    as [msgs [H1 [_ H2]]].
  - reflexivity.
  - reflexivity.
  - exists msgs. split; [exact H1|]. rewrite H2. reflexivity.
Defined.

End ChatProxyProps.

(** ** The differences [compareTranscripts] reports *)

Module CompareProps.

Import JsString RadioNormalize.

(** [split] is undone by [join]. *)
Lemma split_cons sep s : exists w ws, split sep s = w :: ws.
Proof.
  induction s as [|c s [w [ws IH]]]; simpl; [eauto|].
  destruct (Ascii.eqb c sep); [eauto|]. rewrite IH. eauto.
Qed.

Lemma join_split sep s : join [sep] (split sep s) = s.
Proof.
  induction s as [|c s IH]; [reflexivity|]. simpl.
  destruct (split_cons sep s) as [w [ws E]]. rewrite E in *.
  destruct (Ascii.eqb c sep) eqn:C.
  - apply Ascii.eqb_eq in C. subst c.
    change (join [sep] ([] :: w :: ws)) with (sep :: join [sep] (w :: ws)).
    rewrite IH. reflexivity.
  - destruct ws as [|v ws]; simpl in *; rewrite IH; reflexivity.
Qed.

Lemma split_injective sep s s' : split sep s = split sep s' -> s = s'.
Proof.
  intros H. rewrite <- (join_split sep s), <- (join_split sep s'), H.
  reflexivity.
Qed.

Lemma in_split sep s t c : In t (split sep s) -> In c t -> In c s.
Proof.
  revert t. induction s as [|d s IH]; intros t Ht Hc; simpl in Ht.
  - destruct Ht as [<- | []]. exact Hc.
  - destruct (Ascii.eqb d sep).
    + destruct Ht as [<- | Ht]; [destruct Hc|]. right. apply (IH t Ht Hc).
    + destruct (split_cons sep s) as [w [ws E]]. rewrite E in *.
      destruct Ht as [<- | Ht].
      * destruct Hc as [<- | Hc]; [left; reflexivity|].
        right. apply (IH w); [left; reflexivity | exact Hc].
      * right. apply (IH t); [right; exact Ht | exact Hc].
Qed.

(** The token the loop compares at a position. *)
Definition tokenAt (tokens : list str) (i : nat) (dflt : string) : str :=
  or_else (nth_error tokens i) (L dflt).

Definition bracketFree (s : str) : Prop := ~ In "["%char s.

Lemma tokens_agree expectedTokens actualTokens :
  Forall bracketFree expectedTokens ->
  Forall bracketFree actualTokens ->
  (forall i,
     i < Nat.max (List.length expectedTokens) (List.length actualTokens) ->
     tokenAt expectedTokens i "[missing]" = tokenAt actualTokens i "[extra]") ->
  expectedTokens = actualTokens.
Proof.
  revert actualTokens.
  induction expectedTokens as [|t ts IH]; intros [|u us] He Ha H.
  - reflexivity.
  - exfalso. specialize (H 0 ltac:(simpl; lia)).
    inversion Ha as [|? ? Hu _]; subst.
    unfold tokenAt in H. simpl in H.
    destruct u as [|c u]; [discriminate H|].
    apply Hu. rewrite <- H. left. reflexivity.
  - exfalso. specialize (H 0 ltac:(simpl; lia)).
    inversion He as [|? ? Ht _]; subst.
    unfold tokenAt in H. simpl in H.
    destruct t as [|c t]; [discriminate H|].
    apply Ht. rewrite H. left. reflexivity.
  - inversion He as [|? ? Ht He']; subst.
    inversion Ha as [|? ? Hu Ha']; subst.
    assert (E : t = u).
    { specialize (H 0 ltac:(simpl; lia)).
      unfold tokenAt in H. simpl in H.
      destruct t as [|c t]; destruct u as [|d u]; try exact H;
        try reflexivity.
      - exfalso. apply Hu. rewrite <- H. left. reflexivity.
      - exfalso. apply Ht. rewrite H. left. reflexivity. }
    subst u. f_equal. apply IH; [exact He' | exact Ha'|].
    intros i Hi. apply (H (S i)). simpl. lia.
Qed.

Lemma flat_map_nil {A B} (f : A -> list B) l :
  flat_map f l = [] -> forall x, In x l -> f x = [].
Proof.
  induction l as [|a l IH]; simpl; intros H x Hx; [destruct Hx|].
  apply app_eq_nil in H. destruct H as [H1 H2].
  destruct Hx as [<- | Hx]; [exact H1 | apply IH; assumption].
Qed.

(** X28. [compareTranscripts] agrees with [areTranscriptsEquivalent],
    and reports no difference for equivalent transcripts.  For
    transcripts whose normalized texts hold no opening bracket, it also
    reports at least one difference whenever they are not equivalent:
    the list of differences is empty exactly when they are. *)
Theorem compareTranscripts_differences (expected actual : str) :
  bracketFree (normalizeRadioTranscript expected) ->
  bracketFree (normalizeRadioTranscript actual) ->
  let c := compareTranscripts expected actual in
  isEquivalent c = areTranscriptsEquivalent expected actual
  /\ (isEquivalent c = true -> differences c = [])
  /\ (differences c = [] <-> isEquivalent c = true).
Proof.
  intros He Ha c. subst c. unfold compareTranscripts, areTranscriptsEquivalent.
  cbv zeta. cbn [isEquivalent differences].
  revert He Ha.
  generalize (normalizeRadioTranscript expected) as e.
  generalize (normalizeRadioTranscript actual) as a.
  intros a e He Ha.
  destruct (list_eq_dec ascii_dec e a) as [E|N]; cbn [negb].
  - repeat split; reflexivity.
  - split; [reflexivity|]. split; [discriminate|].
    split; [|discriminate]. intros H. exfalso. apply N.
    apply (split_injective " "%char).
    apply tokens_agree.
    + apply Forall_forall. intros t Ht Hb. apply He.
      apply (in_split " "%char e t); assumption.
    + apply Forall_forall. intros t Ht Hb. apply Ha.
      apply (in_split " "%char a t); assumption.
    + intros i Hi.
      pose proof (flat_map_nil _ _ H i) as F.
      specialize (F ltac:(apply in_seq; lia)). cbv beta zeta in F.
      unfold tokenAt.
      destruct (list_eq_dec ascii_dec
                  (or_else (nth_error (split " " e) i) (L "[missing]"))
                  (or_else (nth_error (split " " a) i) (L "[extra]")))
        as [E|]; [exact E | discriminate F].
Qed.

Lemma compareTranscripts_differences_witness :
  differences (compareTranscripts (L "Bowser 1, over.") (L "bowser one over"))
  = [].
Proof.
  destruct (compareTranscripts_differences (L "Bowser 1, over.")
              (L "bowser one over")) as [_ [H _]].
  - vm_compute. intuition discriminate.
  - vm_compute. intuition discriminate.
  - apply H. vm_compute. reflexivity.
Defined.

(** Without the restriction the equivalence fails: a transcript that
    ends with the word the loop uses for a missing token is reported as
    not equivalent, with no difference. *)
Example compareTranscripts_missing_token :
  let c := compareTranscripts (L "roger") (L "roger [missing]") in
  isEquivalent c = false /\ differences c = [].
Proof. vm_compute. split; reflexivity. Qed.

Example compareTranscripts_position :
  differences (compareTranscripts (L "runway 27") (L "runway 29"))
  = [ L "Position 3: expected " ++ [dquote] ++ L "seven" ++ [dquote]
        ++ L ", got " ++ [dquote] ++ L "nine" ++ [dquote] ].
Proof. vm_compute. reflexivity. Qed.

End CompareProps.

(** ** Scores read from the response of the chat endpoint *)

Module ClampScoreProps.

Import JsNumber JsNumberProps Overall OpenAIChatScoring.
Open Scope Z_scope.

(** The multiples of a quarter, [k / 4]: exact binary64 numbers. *)
Definition quarter (k : Z) : float := (of_Z k / 4)%float.

(** What rounding to the nearest integer, a half going up, and clamping
    to [0,100] give for [k / 4], in exact arithmetic. *)
Definition nearest_clamped (k : Z) : Z := Z.max 0 (Z.min 100 ((k + 2) / 4)).

Definition quarter_ok (i : Z) : bool :=
  let k := i - 400 in
  PrimFloat.Leibniz.eqb (clampScore (JsonNumber (quarter k)))
    (score (nearest_clamped k)).

Lemma quarters_ok : forallb quarter_ok (Range.upto 1201) = true.
Proof. vm_compute. reflexivity. Qed.

Lemma clampScore_quarter (k : Z) :
  -400 <= k <= 800 ->
  clampScore (JsonNumber (quarter k)) = score (nearest_clamped k).
Proof.
  intros H.
  pose proof (proj1 (forallb_forall _ _) quarters_ok (k + 400)) as Q.
  unfold quarter_ok in Q. replace (k + 400 - 400) with k in Q by lia.
  apply FloatAxioms.Leibniz.eqb_spec, Q, Range.in_upto. simpl. lia.
Qed.

Lemma quarter_integer (z : Z) : 0 <= z <= 100 -> quarter (4 * z) = score z.
Proof.
  intros Hz.
  assert (F : forallb
                (fun z => PrimFloat.Leibniz.eqb (quarter (4 * z)) (score z))
                (Range.upto 101) = true) by (vm_compute; reflexivity).
  apply FloatAxioms.Leibniz.eqb_spec.
  apply (proj1 (forallb_forall _ _) F), Range.in_upto. simpl. lia.
Qed.

(** X29. [clampScore] never returns a number below 0 or above 100,
    whatever the response holds.  A value that is not a number, and NaN,
    give 0.  Any other number [n] is rounded and then brought into the
    range: with [r = Math.round n], the result is 0 when [r < 0] or
    [r == 0], [r] itself when [0 < r <= 100], and 100 when [100 < r]; so
    an infinite score becomes 0 or 100.  The rounding is to the nearest
    integer with a half going up: every multiple of a quarter [k / 4]
    from -100 to 200 gives [floor ((k + 2) / 4)] clamped to [0,100], and
    in particular every integer score of 0..100 is returned as it is. *)
Theorem clampScore_in_range (value : JsonValue) :
  PrimFloat.ltb (clampScore value) 0 = false
  /\ PrimFloat.ltb 100 (clampScore value) = false
  /\ (match value with
      | JsonOther => clampScore value = 0%float
      | JsonNumber n =>
          (PrimFloat.is_nan n = true -> clampScore value = 0%float)
          /\ (PrimFloat.is_nan n = false ->
              let r := Math_round n in
              (PrimFloat.ltb r 0 = true -> clampScore value = 0%float)
              /\ (PrimFloat.eqb r 0 = true -> clampScore value = 0%float)
              /\ (PrimFloat.ltb 0 r = true -> PrimFloat.leb r 100 = true ->
                  clampScore value = r)
              /\ (PrimFloat.ltb 100 r = true -> clampScore value = 100%float))
      end)
  /\ clampScore (JsonNumber PrimFloat.infinity) = 100%float
  /\ clampScore (JsonNumber PrimFloat.neg_infinity) = 0%float
  /\ (forall k, -400 <= k <= 800 ->
      clampScore (JsonNumber (quarter k)) = score (nearest_clamped k))
  /\ (forall z, 0 <= z <= 100 -> clampScore (JsonNumber (score z)) = score z).
Proof.
  split; [|split; [|split; [|split; [|split; [|split]]]]].
  - destruct value as [n|]; [|reflexivity]. unfold clampScore.
    destruct (PrimFloat.is_nan n); [reflexivity|].
    set (m := Math_min 100 (Math_round n)).
    unfold Math_max.
    destruct (PrimFloat.is_nan 0 || PrimFloat.is_nan m); [reflexivity|].
    destruct (PrimFloat.ltb 0 m) eqn:E1; [apply ltb_zero_asym, E1|].
    destruct (PrimFloat.ltb m 0) eqn:E2; reflexivity.
  - destruct value as [n|]; [|reflexivity]. unfold clampScore.
    destruct (PrimFloat.is_nan n); [reflexivity|].
    set (r := Math_round n).
    assert (M : PrimFloat.ltb 100 (Math_min 100 r) = false).
    { unfold Math_min.
      destruct (PrimFloat.is_nan 100 || PrimFloat.is_nan r); [reflexivity|].
      destruct (PrimFloat.ltb 100 r) eqn:E1; [reflexivity|].
      destruct (PrimFloat.ltb r 100) eqn:E2; [exact E1|].
      change (PrimFloat.get_sign 100) with false. exact E1. }
    set (m := Math_min 100 r) in *.
    unfold Math_max.
    destruct (PrimFloat.is_nan 0 || PrimFloat.is_nan m); [reflexivity|].
    destruct (PrimFloat.ltb 0 m) eqn:E1; [exact M|].
    destruct (PrimFloat.ltb m 0) eqn:E2; reflexivity.
  - destruct value as [n|]; [|reflexivity].
    split.
    + intros H. unfold clampScore. rewrite H. reflexivity.
    + intros H r. unfold clampScore. rewrite H. fold r.
      change (Math_max 0 (Math_min 100 r)) with (clamped r).
      split; [|split; [|split]].
      * apply clamped_below.
      * apply clamped_zero.
      * apply clamped_inside.
      * apply clamped_above.
  - vm_compute; reflexivity.
  - vm_compute; reflexivity.
  - exact clampScore_quarter.
  - intros z Hz.
    pose proof (clampScore_quarter (4 * z)) as Q.
    unfold nearest_clamped in Q.
    replace ((4 * z + 2) / 4) with z in Q.
    2:{ apply Z.div_unique with (r := 2); lia. }
    replace (Z.max 0 (Z.min 100 z)) with z in Q by lia.
    rewrite <- (quarter_integer z Hz) at 1. apply Q. lia.
Qed.

(** Scores as the model may send them. *)
Example clampScore_examples :
  clampScore (JsonNumber 82.5) = 83%float
  /\ clampScore (JsonNumber 82.49) = 82%float
  /\ clampScore (JsonNumber (-0.4)) = 0%float
  /\ clampScore (JsonNumber 100.5) = 100%float
  /\ clampScore (JsonNumber 250) = 100%float
  /\ clampScore (JsonNumber (-3)) = 0%float.
Proof. repeat split; vm_compute; reflexivity. Qed.

End ClampScoreProps.

(** ** When the AI scoring of an open-ended answer starts *)

Module AppProps.

Import JsString SessionStore DualSTT App.
Open Scope Z_scope.

Section Listeners.

Variable calculateSimilarity : str -> str -> float.
Variable detectFillers : str -> list Fluency.FillerCount.
Variable countTotalFillers : list Fluency.FillerCount -> Z.
Variable calculateStructure :
  str -> StructureMode -> option (list str) -> float * StructureBreakdown.
Variable costRates : ProviderId -> float.

Let listener :=
  setupProviderEvents calculateSimilarity detectFillers countTotalFillers
    calculateStructure costRates.

Let computeScores :=
  SessionStore.computeScores calculateSimilarity detectFillers
    countTotalFillers calculateStructure costRates.

(** Scoring OpenAI when ElevenLabs is completed leaves nothing for the
    effect: either nothing was scored, or the recording is completed. *)
Lemma effect_after_last_provider s :
  status (openaiResult s) = ProviderStatus.processing ->
  status (elevenlabsResult s) = ProviderStatus.completed ->
  aiScoringEffect (computeScores openai s) = None.
Proof.
  intros Ho He. unfold computeScores, SessionStore.computeScores.
  assert (N : aiScoringEffect s = None).
  { unfold aiScoringEffect. rewrite Ho. simpl.
    rewrite ?andb_false_r. reflexivity. }
  destruct (getCurrentQuestion s) as [q|]; [|exact N].
  generalize (first_nonempty (finalText (transcript (resultOf openai s)))
                (committedText (transcript (resultOf openai s)))
                (interimText (transcript (resultOf openai s)))).
  intros [|c t]; [exact N|].
  cbn [set_result openaiResult elevenlabsResult status ProviderStatus.eqb
       andb].
  rewrite He. cbn [ProviderStatus.eqb].
  unfold aiScoringEffect, set_recordingState.
  cbn [recordingState RecordingState.eqb]. rewrite ?andb_false_r.
  reflexivity.
Qed.

(** Scoring OpenAI while ElevenLabs is not completed keeps the recording
    state and completes OpenAI. *)
Lemma effect_after_first_provider s c t :
  status (elevenlabsResult s) <> ProviderStatus.completed ->
  testMode s = open_ended ->
  recordingState s = RecordingState.processing ->
  isAIScoring s = false ->
  openEndedResult s = None ->
  getCurrentQuestion s <> None ->
  finalText (transcript (openaiResult s)) = c :: t ->
  aiScoringEffect (computeScores openai s) = Some (c :: t).
Proof.
  intros He Hm Hr Hs Ho Hq Hf.
  unfold computeScores, SessionStore.computeScores.
  destruct (getCurrentQuestion s) as [q|]; [|congruence].
  cbn [resultOf]. rewrite Hf. cbn [first_nonempty].
  cbn [set_result openaiResult elevenlabsResult status ProviderStatus.eqb
       andb].
  assert (E : ProviderStatus.eqb (status (elevenlabsResult s))
                ProviderStatus.completed = false).
  { destruct (status (elevenlabsResult s)); try reflexivity. congruence. }
  rewrite E. unfold aiScoringEffect, set_result.
  cbn [testMode recordingState openaiResult status isAIScoring
       openEndedResult transcript finalText committedText].
  rewrite Hm, Hr, Hs, Ho, Hf. reflexivity.
Qed.

(** X30. The effect that starts the AI scoring looks for OpenAI
    completed while the recording is still processing.  When the final
    transcript of OpenAI arrives after ElevenLabs has completed, scoring
    it completes the recording in the same update, and the effect does
    not call [scoreOpenEndedResponse] in the resulting state, whatever
    the transcript.  When it arrives while ElevenLabs is not completed,
    in open-ended mode with the recording processing and nothing scored
    yet, the effect calls [scoreOpenEndedResponse] with the text of the
    event. *)
Theorem ai_scoring_starts_only_if_openai_completes_first (start now : Z)
  (text : str) (ws : list WordTiming) (state : SessionState) :
  let state' := listener start openai (transcript_final text now ws) state in
  (status (elevenlabsResult state) = ProviderStatus.completed ->
   aiScoringEffect state' = None)
  /\ (status (elevenlabsResult state) <> ProviderStatus.completed ->
      testMode state = open_ended ->
      recordingState state = RecordingState.processing ->
      isAIScoring state = false ->
      openEndedResult state = None ->
      getCurrentQuestion state <> None ->
      text <> [] ->
      aiScoringEffect state' = Some text).
Proof.
  unfold listener, setupProviderEvents. cbv zeta.
  fold computeScores.
  split.
  - intros He. apply effect_after_last_provider;
      destruct ws; assumption || reflexivity.
  - intros He Hm Hr Hs Ho Hq Ht.
    destruct text as [|c t]; [congruence|].
    apply effect_after_first_provider; try (destruct ws; assumption);
      try (destruct ws; reflexivity).
Qed.

End Listeners.

(** ElevenLabs completed first: the final transcript of OpenAI ends the
    recording and the effect stays silent. *)
Definition elevenlabsFirst : SessionState :=
  {| questionBank := questionBank DualSTTProps.stoppedStore;
     currentQuestionIndex := 0;
     selectedChoiceIndex := None;
     recordingState := RecordingState.processing;
     recordingDurationMs := 4000;
     recordingStartTime := None;
     openaiResult := DualSTTProps.heardNothing;
     elevenlabsResult :=
       with_status ProviderStatus.completed DualSTTProps.heardInterim;
     testMode := open_ended;
     openEndedResult := None;
     isAIScoring := false |}.

Lemma ai_scoring_starts_only_if_openai_completes_first_witness :
  aiScoringEffect
    (setupProviderEvents DualSTTProps.sameText FluencyProps.exampleDetect
       FluencyProps.exampleCount DualSTTProps.noStructure
       DualSTTProps.flatRate 1000 openai
       (transcript_final (L "ATC Bowser One") 4000 []) elevenlabsFirst)
  = None.
Proof.
  destruct (ai_scoring_starts_only_if_openai_completes_first
              DualSTTProps.sameText FluencyProps.exampleDetect
              FluencyProps.exampleCount DualSTTProps.noStructure
              DualSTTProps.flatRate 1000 4000 (L "ATC Bowser One") []
              elevenlabsFirst) as [H _].
  apply H. reflexivity.
Defined.

End AppProps.
